(** * Mobula historical market data: tick collection and candle aggregation

    A shallow embedding of the two TypeScript programs of the repository:

    - the collector ([fetchData], [index.ts]): one pass over the on-chain
      transaction indices that records every tick together with running
      daily and all-time volume totals, followed by a second pass that
      attaches the finalized daily total to every row;
    - the API service ([api.ts]): [timeframeMap], [getCandleRecords],
      [aggregateCandleData] with its two numeric code paths, and the three
      endpoints built on it.

    JavaScript values are modelled as follows.
    - A [bigint] is a [Z].
    - A [number] that holds a timestamp, a bucket start or a bucket width is
      a [jsnum]: [None] is NaN, [Some z] the integer [z].  The programs only
      ever apply [parseInt], [/], [Math.floor], [*] and [-] to them, which
      are exact on integers of magnitude below 2^53; every time value a
      [Date] accepts is far inside that range.
    - A [number] that holds a price or a volume in the floating-point code
      path is an IEEE 754 binary64 value, [spec_float] with precision 53 and
      maximal exponent 1024.
    - A plain object used as a dictionary is an association list in
      insertion order, because [Object.entries] and [Object.values]
      enumerate in an order that depends on it; a [Map] is a [gmap].
    - A thrown exception is the [Throw] case of [result]. *)

From Stdlib Require Import ZArith List String Ascii Bool Lia SpecFloat Sorted Permutation.
From stdpp Require Import gmap strings.
Import ListNotations.

Local Open Scope string_scope.
Local Open Scope Z_scope.

(** ** Exceptions *)

Inductive exn :=
| RangeError      (* Date.prototype.toISOString on an invalid time value *)
| SyntaxError     (* BigInt(text) on text that is no integer literal *)
| CallException   (* a rejected contract call *)
| IOError.        (* candle_data.csv could not be read or parsed *)

Inductive result (A : Type) :=
| Ok (a : A)
| Throw (e : exn).
Arguments Ok {A} a.
Arguments Throw {A} e.

Definition bind {A B} (r : result A) (k : A -> result B) : result B :=
  match r with
  | Ok a => k a
  | Throw e => Throw e
  end.

Notation "'let*' x ':=' r 'in' k" := (bind r (fun x => k))
  (at level 10, x pattern, r at level 100, k at level 200).

(** ** The JavaScript primitives the programs call *)

Module JS.

(** A number holding an integer, or NaN.  The program's numbers are
    binary64 and the integers here are exact: the two agree on the safe
    integers, those below 2^53 in magnitude. *)
Definition jsnum := option Z.
Definition NaN : jsnum := None.

Definition isNaN (x : jsnum) : bool :=
  match x with None => true | Some _ => false end.

(** [a - b] on numbers. *)
Definition sub (a b : jsnum) : jsnum :=
  match a, b with
  | Some x, Some y => Some (x - y)
  | _, _ => NaN
  end.

(** [Math.floor(t / w) * w].  A zero divisor gives an infinity or NaN, and
    either of them times zero is NaN. *)
Definition floor_div_mul (t w : jsnum) : jsnum :=
  match t, w with
  | Some t, Some w => if w =? 0 then NaN else Some (t / w * w)
  | _, _ => NaN
  end.

(** [x * k] for an integer constant [k]. *)
Definition mul (x : jsnum) (k : Z) : jsnum :=
  match x with Some z => Some (z * k) | None => NaN end.

(** *** Characters *)

Definition code (c : ascii) : Z := Z.of_N (N_of_ascii c).

(** White space and line terminators (the ASCII ones: text is taken to be
    ASCII). *)
Definition is_ws (c : ascii) : bool :=
  let n := code c in
  (n =? 9) || (n =? 10) || (n =? 11) || (n =? 12) || (n =? 13) || (n =? 32).

(** A digit in the given radix (2, 8, 10 or 16). *)
Definition digit_in (radix : Z) (c : ascii) : option Z :=
  let n := code c in
  let d :=
    if (48 <=? n) && (n <=? 57) then Some (n - 48)
    else if (97 <=? n) && (n <=? 102) then Some (n - 87)
    else if (65 <=? n) && (n <=? 70) then Some (n - 55)
    else None in
  match d with
  | Some v => if v <? radix then Some v else None
  | None => None
  end.

Definition digit_char (d : Z) : ascii := ascii_of_N (Z.to_N (48 + d)).

Fixpoint skip_ws (s : string) : string :=
  match s with
  | String c r => if is_ws c then skip_ws r else s
  | EmptyString => s
  end.

Fixpoint rev_string (acc s : string) : string :=
  match s with
  | String c r => rev_string (String c acc) r
  | EmptyString => acc
  end.

(** Strip white space at both ends. *)
Definition trim (s : string) : string :=
  rev_string "" (skip_ws (rev_string "" (skip_ws s))).

(** The longest prefix of digits of [s]: its value on top of [acc], how many
    digits it has, and what follows it. *)
Fixpoint scan (radix : Z) (acc : Z) (n : nat) (s : string) : Z * nat * string :=
  match s with
  | String c r =>
      match digit_in radix c with
      | Some d => scan radix (acc * radix + d) (S n) r
      | None => (acc, n, s)
      end
  | EmptyString => (acc, n, s)
  end.

(** *** [parseInt(text, 10)] *)

Definition parse_prefix (s : string) : jsnum :=
  match scan 10 0 0%nat s with
  | (_, O, _) => NaN
  | (v, S _, _) => Some v
  end.

Definition parseInt (s : string) : jsnum :=
  match skip_ws s with
  | String c r =>
      if Ascii.eqb c "-" then option_map Z.opp (parse_prefix r)
      else if Ascii.eqb c "+" then parse_prefix r
      else parse_prefix (String c r)
  | EmptyString => NaN
  end.

(** [parseInt(text)] without a radix: 16 after a prefix [0x] or [0X],
    else 10. *)
Definition parseInt_any (s : string) : jsnum :=
  let digits (body : string) : jsnum :=
    match body with
    | String a (String b r) =>
        if Ascii.eqb a "0" && (Ascii.eqb b "x" || Ascii.eqb b "X") then
          match scan 16 0 0%nat r with
          | (_, O, _) => NaN
          | (v, S _, _) => Some v
          end
        else parse_prefix body
    | _ => parse_prefix body
    end in
  match skip_ws s with
  | String c r =>
      if Ascii.eqb c "-" then option_map Z.opp (digits r)
      else if Ascii.eqb c "+" then digits r
      else digits (String c r)
  | EmptyString => NaN
  end.

(** *** [BigInt(text)]: [None] stands for the SyntaxError it throws *)

Definition all_digits (radix : Z) (s : string) : option Z :=
  match scan radix 0 0%nat s with
  | (v, S _, EmptyString) => Some v
  | _ => None
  end.

(** The radix a letter after a leading zero selects. *)
Definition radix_of (c : ascii) : option Z :=
  if Ascii.eqb c "x" || Ascii.eqb c "X" then Some 16
  else if Ascii.eqb c "o" || Ascii.eqb c "O" then Some 8
  else if Ascii.eqb c "b" || Ascii.eqb c "B" then Some 2
  else None.

Definition StringToBigInt (s : string) : option Z :=
  match trim s with
  | EmptyString => Some 0
  | String c r =>
      if Ascii.eqb c "-" then option_map Z.opp (all_digits 10 r)
      else if Ascii.eqb c "+" then all_digits 10 r
      else
        match r with
        | String c' r' =>
            match (if Ascii.eqb c "0" then radix_of c' else None) with
            | Some radix => all_digits radix r'
            | None => all_digits 10 (String c r)
            end
        | EmptyString => all_digits 10 (String c r)
        end
  end.

Definition BigInt (s : string) : result Z :=
  match StringToBigInt s with
  | Some z => Ok z
  | None => Throw SyntaxError
  end.

(** *** Decimal rendering: [bigint.toString()] and [String(number)] *)

Fixpoint digits_of (fuel : nat) (n : Z) (acc : string) : string :=
  match fuel with
  | O => acc
  | S f =>
      let acc' := String (digit_char (n mod 10)) acc in
      if n <? 10 then acc' else digits_of f (n / 10) acc'
  end.

Definition nat_toString (n : Z) : string :=
  digits_of (S (Z.to_nat (Z.log2 n))) n "".

Definition bigint_toString (z : Z) : string :=
  if z <? 0 then String "-" (nat_toString (- z)) else nat_toString z.

(** The property key a number turns into: plain decimal, as [String(n)]
    is for an integer below 1e21 in magnitude (from there on the program
    writes an exponent). *)
Definition Number_toString (x : jsnum) : string :=
  match x with
  | Some z => bigint_toString z
  | None => "NaN"
  end.

(** Zero-padded decimal of a non-negative number. *)
Fixpoint zeros (k : nat) (s : string) : string :=
  match k with
  | O => s
  | S k' => zeros k' (String "0" s)
  end.

Definition pad (width : nat) (n : Z) : string :=
  let s := nat_toString n in
  zeros (width - String.length s) s.

(** *** Dates *)

(** A [Date] is its time value in milliseconds; NaN is the invalid date. *)
Definition maxTime : Z := 8640000000000000.

Definition Date_new (ms : jsnum) : jsnum :=
  match ms with
  | Some t => if Z.abs t <=? maxTime then Some t else NaN
  | None => NaN
  end.

(** Year, month and day of a day number counted from 1970-01-01. *)
Definition civil_from_days (z : Z) : Z * Z * Z :=
  let z := z + 719468 in
  let era := z / 146097 in
  let doe := z - era * 146097 in
  let yoe := (doe - doe / 1460 + doe / 36524 - doe / 146096) / 365 in
  let y := yoe + era * 400 in
  let doy := doe - (365 * yoe + yoe / 4 - yoe / 100) in
  let mp := (5 * doy + 2) / 153 in
  let d := doy - (153 * mp + 2) / 5 + 1 in
  let m := if mp <? 10 then mp + 3 else mp - 9 in
  (if m <=? 2 then y + 1 else y, m, d).

Definition time_of_day (t : Z) : string :=
  let s := (t / 1000) mod 86400 in
  pad 2 (s / 3600) ++ ":" ++ pad 2 (s / 60 mod 60) ++ ":" ++ pad 2 (s mod 60).

Definition iso_year (y : Z) : string :=
  if (0 <=? y) && (y <=? 9999) then pad 4 y
  else (if y <? 0 then "-" else "+") ++ pad 6 (Z.abs y).

Definition iso_string (t : Z) : string :=
  let '(y, m, d) := civil_from_days (t / 86400000) in
  iso_year y ++ "-" ++ pad 2 m ++ "-" ++ pad 2 d ++ "T"
    ++ time_of_day t ++ "." ++ pad 3 (t mod 1000) ++ "Z".

Definition toISOString (d : jsnum) : result string :=
  match d with
  | Some t => Ok (iso_string t)
  | None => Throw RangeError
  end.

Definition day_name (n : Z) : string :=
  nth (Z.to_nat n) ["Sun"; "Mon"; "Tue"; "Wed"; "Thu"; "Fri"; "Sat"] "".

Definition month_name (m : Z) : string :=
  nth (Z.to_nat (m - 1))
    ["Jan"; "Feb"; "Mar"; "Apr"; "May"; "Jun";
     "Jul"; "Aug"; "Sep"; "Oct"; "Nov"; "Dec"] "".

Definition toUTCString (d : jsnum) : string :=
  match d with
  | Some t =>
      let day := t / 86400000 in
      let '(y, m, dd) := civil_from_days day in
      day_name ((day + 4) mod 7) ++ ", " ++ pad 2 dd ++ " " ++ month_name m ++ " "
        ++ (if y <? 0 then "-" else "") ++ pad 4 (Z.abs y) ++ " "
        ++ time_of_day t ++ " GMT"
  | None => "Invalid Date"
  end.

(** *** Floating-point numbers (binary64) *)

Definition float := spec_float.
Definition prec : Z := 53.
Definition emax : Z := 1024.

Definition fNaN : float := S754_nan.

Definition isNaNf (x : float) : bool :=
  match x with S754_nan => true | _ => false end.

Definition fadd : float -> float -> float := SFadd prec emax.
Definition fltb : float -> float -> bool := SFltb.
Definition fleb : float -> float -> bool := SFleb.

Definition is_neg_zero (x : float) : bool :=
  match x with S754_zero true => true | _ => false end.

(** [Math.max] and [Math.min] of two numbers: NaN if either is, and the
    positive zero counts as larger than the negative one. *)
Definition Math_max (a b : float) : float :=
  if isNaNf a || isNaNf b then fNaN
  else if fltb a b then b
  else if fltb b a then a
  else if is_neg_zero a then b else a.

Definition Math_min (a b : float) : float :=
  if isNaNf a || isNaNf b then fNaN
  else if fltb a b then a
  else if fltb b a then b
  else if is_neg_zero a then a else b.

(** The binary64 number nearest to [m * 10^e], ties to even. *)
Definition decimal_to_float (neg : bool) (m e : Z) : float :=
  match m with
  | Zpos p =>
      if 0 <=? e then binary_round prec emax neg (p * Z.to_pos (10 ^ e))%positive 0
      else
        let '(q, e', l) := SFdiv_core_binary prec emax (Zpos p) 0 (10 ^ (- e)) 0 in
        binary_round_aux prec emax neg q e' l
  | _ => S754_zero neg
  end.

Fixpoint starts_with (p s : string) : bool :=
  match p, s with
  | EmptyString, _ => true
  | String a p', String b s' => Ascii.eqb a b && starts_with p' s'
  | String _ _, EmptyString => false
  end.

(** The exponent part at the head of [s], if there is one: [e] or [E], an
    optional sign and at least one digit. *)
Definition exponent_part (s : string) : Z :=
  match s with
  | String c r =>
      if Ascii.eqb c "e" || Ascii.eqb c "E" then
        match r with
        | String c' r' =>
            if Ascii.eqb c' "-" then
              match scan 10 0 0%nat r' with (v, S _, _) => - v | _ => 0 end
            else if Ascii.eqb c' "+" then
              match scan 10 0 0%nat r' with (v, S _, _) => v | _ => 0 end
            else
              match scan 10 0 0%nat r with (v, S _, _) => v | _ => 0 end
        | EmptyString => 0
        end
      else 0
  | EmptyString => 0
  end.

(** The longest prefix of [s] that is a decimal literal, without its sign. *)
Definition parse_decimal (neg : bool) (s : string) : float :=
  if starts_with "Infinity" s then S754_infinity neg
  else
    let '(i, ni, r) := scan 10 0 0%nat s in
    let fraction :=
      match r with
      | String c r' => if Ascii.eqb c "." then Some (scan 10 i 0%nat r') else None
      | EmptyString => None
      end in
    match fraction with
    | Some (m, nf, r'') =>
        match ni, nf with
        | O, O => fNaN
        | _, _ => decimal_to_float neg m (exponent_part r'' - Z.of_nat nf)
        end
    | None =>
        match ni with
        | O => fNaN
        | S _ => decimal_to_float neg i (exponent_part r)
        end
    end.

(** [parseFloat(text)] *)
Definition parseFloat (s : string) : float :=
  match skip_ws s with
  | String c r =>
      if Ascii.eqb c "-" then parse_decimal true r
      else if Ascii.eqb c "+" then parse_decimal false r
      else parse_decimal false (String c r)
  | EmptyString => fNaN
  end.

End JS.

Import JS.

(** ** Plain objects used as dictionaries *)

Module Obj.

(** Own properties, in the order they were created. *)
Definition t (A : Type) := list (string * A).

Fixpoint own {A} (o : t A) (k : string) : option A :=
  match o with
  | [] => None
  | (k', v) :: o' => if String.eqb k' k then Some v else own o' k
  end.

(** [o[k] = v]: overwrite in place, or create the property last. *)
Fixpoint set {A} (o : t A) (k : string) (v : A) : t A :=
  match o with
  | [] => [(k, v)]
  | (k', v') :: o' =>
      if String.eqb k' k then (k', v) :: o' else (k', v') :: set o' k v
  end.

(** The properties every object literal inherits from [Object.prototype]. *)
Definition inherited : list string :=
  ["constructor"; "__defineGetter__"; "__defineSetter__"; "hasOwnProperty";
   "__lookupGetter__"; "__lookupSetter__"; "isPrototypeOf";
   "propertyIsEnumerable"; "toString"; "valueOf"; "__proto__";
   "toLocaleString"].

Inductive value (A : Type) :=
| Undefined
| Own (a : A)
| Inherited (name : string).   (* a function or object of the prototype *)
Arguments Undefined {A}.
Arguments Own {A} a.
Arguments Inherited {A} name.

(** [o[k]], read through the prototype chain. *)
Definition get {A} (o : t A) (k : string) : value A :=
  match own o k with
  | Some a => Own a
  | None => if existsb (String.eqb k) inherited then Inherited k else Undefined
  end.

(** A key is an array index when it is the canonical decimal of an integer
    in [0, 2^32 - 2]; such keys are enumerated first, in ascending order. *)
Definition array_index (k : string) : option Z :=
  match all_digits 10 k with
  | Some z =>
      if String.eqb (bigint_toString z) k && (z <? 4294967295) then Some z else None
  | None => None
  end.

Fixpoint insert_index {A} (i : Z) (e : string * A) (l : list (Z * (string * A)))
  : list (Z * (string * A)) :=
  match l with
  | [] => [(i, e)]
  | (j, e') :: l' => if i <? j then (i, e) :: l else (j, e') :: insert_index i e l'
  end.

Fixpoint index_entries {A} (o : t A) : list (Z * (string * A)) :=
  match o with
  | [] => []
  | (k, v) :: o' =>
      match array_index k with
      | Some i => insert_index i (k, v) (index_entries o')
      | None => index_entries o'
      end
  end.

Definition string_entries {A} (o : t A) : list (string * A) :=
  List.filter (fun e => match array_index (fst e) with Some _ => false | None => true end) o.

(** [Object.entries(o)] *)
Definition entries {A} (o : t A) : list (string * A) :=
  map snd (index_entries o) ++ string_entries o.

(** [Object.values(o)] *)
Definition values {A} (o : t A) : list A := map snd (entries o).

(** [Object.keys(o)] *)
Definition keys {A} (o : t A) : list string := map fst (entries o).

End Obj.

(** ** [Array.prototype.sort] with a comparator

    The sort is stable: an element moves behind a later one only when the
    comparator says that the later one is smaller.  A NaN from the
    comparator counts as zero; the order this gives when the comparator
    returns NaN for some pair is one the language allows, and an engine may
    return another. *)

Module Arr.

Definition before {A} (cmp : A -> A -> jsnum) (a b : A) : bool :=
  match cmp a b with
  | Some v => v <? 0
  | None => false
  end.

Fixpoint insert {A} (cmp : A -> A -> jsnum) (x : A) (l : list A) : list A :=
  match l with
  | [] => [x]
  | y :: l' => if before cmp y x then y :: insert cmp x l' else x :: l
  end.

Definition sort {A} (cmp : A -> A -> jsnum) (l : list A) : list A :=
  fold_right (insert cmp) [] l.

End Arr.

(** ** The API service ([api.ts]) *)

Module Api.

(** A row of [candle_data.csv], as [csv-parse] hands it over. *)
Record CandleRecord := {
  Unix_Timestamp : string;
  Open : string;
  Close : string;
  High : string;
  Low : string;
  tVol : string
}.

Module Num.
Record CandleDataNumber := {
  unixTimestamp : jsnum; readableTimestamp : string;
  open : float; high : float; low : float; close : float; volume : float
}.
End Num.

Module Str.
Record CandleDataString := {
  unixTimestamp : jsnum; readableTimestamp : string;
  open : string; high : string; low : string; close : string; volume : string
}.
End Str.

Module Big.
Record CandleDataBigInt := {
  open : Z; high : Z; low : Z; close : Z; volume : Z
}.
End Big.

Definition candle : Type := Num.CandleDataNumber + Str.CandleDataString.

Definition unixTimestamp (c : candle) : jsnum :=
  match c with
  | inl n => Num.unixTimestamp n
  | inr s => Str.unixTimestamp s
  end.

Definition readableTimestamp (c : candle) : string :=
  match c with
  | inl n => Num.readableTimestamp n
  | inr s => Str.readableTimestamp s
  end.

Definition timeframeMap : Obj.t Z :=
  [("1m", 60); ("5m", 300); ("15m", 900); ("30m", 1800); ("45m", 2700);
   ("1h", 3600); ("2h", 7200); ("3h", 10800); ("4h", 14400); ("5h", 18000);
   ("6h", 21600); ("12h", 43200); ("15h", 54000); ("18h", 64800); ("1d", 86400)].

(** [getCandleRecords]: [file] is what reading and parsing
    [candle_data.csv] gives, [None] when either fails. *)
Definition getCandleRecords (file : option (list CandleRecord)) : result (list CandleRecord) :=
  match file with
  | Some records =>
      Ok (Arr.sort
            (fun a b =>
               JS.sub (parseInt_any (Unix_Timestamp a)) (parseInt_any (Unix_Timestamp b)))
            records)
  | None => Throw IOError
  end.

(** *** [aggregateCandleData], the full-precision branch *)

(** One iteration of the loop; a SyntaxError of [BigInt] is caught and the
    record skipped.  [aggregatedCandles[bucketTimestamp]] is read as an own
    property: the key of a number is never the name of a property that
    objects inherit ([number_key_not_inherited] below). *)
Definition fold_exact (timeframeInSeconds : jsnum) (aggregatedCandles : Obj.t Big.CandleDataBigInt)
    (record : CandleRecord) : Obj.t Big.CandleDataBigInt :=
  let attempt :=
    let timestamp := parseInt (Unix_Timestamp record) in
    let* open := BigInt (Open record) in
    let* high := BigInt (High record) in
    let* low := BigInt (Low record) in
    let* close := BigInt (Close record) in
    let* volume := BigInt (tVol record) in
    let bucketTimestamp := floor_div_mul timestamp timeframeInSeconds in
    let key := Number_toString bucketTimestamp in
    match Obj.own aggregatedCandles key with
    | None =>
        Ok (Obj.set aggregatedCandles key
              {| Big.open := open; Big.high := high; Big.low := low;
                 Big.close := close; Big.volume := volume |})
    | Some candle =>
        Ok (Obj.set aggregatedCandles key
              {| Big.open := Big.open candle;
                 Big.high := if high >? Big.high candle then high else Big.high candle;
                 Big.low := if low <? Big.low candle then low else Big.low candle;
                 Big.close := close;
                 Big.volume := Big.volume candle + volume |})
    end in
  match attempt with
  | Ok o => o
  | Throw _ => aggregatedCandles
  end.

Definition render_exact (entry : string * Big.CandleDataBigInt) : result candle :=
  let '(timestampStr, ohlcv) := entry in
  let* readable := toISOString (Date_new (JS.mul (parseInt timestampStr) 1000)) in
  Ok (inr {| Str.unixTimestamp := parseInt timestampStr;
             Str.readableTimestamp := readable;
             Str.open := bigint_toString (Big.open ohlcv);
             Str.high := bigint_toString (Big.high ohlcv);
             Str.low := bigint_toString (Big.low ohlcv);
             Str.close := bigint_toString (Big.close ohlcv);
             Str.volume := bigint_toString (Big.volume ohlcv) |}).

(** [array.map(f)] for an [f] that may throw. *)
Fixpoint map_result {A B} (f : A -> result B) (l : list A) : result (list B) :=
  match l with
  | [] => Ok []
  | a :: l' =>
      let* b := f a in
      let* bs := map_result f l' in
      Ok (b :: bs)
  end.

Definition by_unixTimestamp (a b : candle) : jsnum :=
  JS.sub (unixTimestamp a) (unixTimestamp b).

Definition aggregate_exact (records : list CandleRecord) (timeframeInSeconds : jsnum)
  : result (list candle) :=
  let aggregatedCandles := fold_left (fold_exact timeframeInSeconds) records [] in
  let* candles := map_result render_exact (Obj.entries aggregatedCandles) in
  Ok (Arr.sort by_unixTimestamp candles).

(** *** [aggregateCandleData], the floating-point branch *)

Definition fold_approx (timeframeInSeconds : jsnum) (aggregatedCandles : Obj.t Num.CandleDataNumber)
    (record : CandleRecord) : result (Obj.t Num.CandleDataNumber) :=
  let timestamp := parseInt (Unix_Timestamp record) in
  let open := parseFloat (Open record) in
  let high := parseFloat (High record) in
  let low := parseFloat (Low record) in
  let close := parseFloat (Close record) in
  let volume := parseFloat (tVol record) in
  if isNaN timestamp || isNaNf open || isNaNf high || isNaNf low || isNaNf close
     || isNaNf volume
  then Ok aggregatedCandles
  else
    let bucketTimestamp := floor_div_mul timestamp timeframeInSeconds in
    let key := Number_toString bucketTimestamp in
    match Obj.own aggregatedCandles key with
    | None =>
        let* readable := toISOString (Date_new (JS.mul bucketTimestamp 1000)) in
        Ok (Obj.set aggregatedCandles key
              {| Num.unixTimestamp := bucketTimestamp;
                 Num.readableTimestamp := readable;
                 Num.open := open; Num.high := high; Num.low := low;
                 Num.close := close; Num.volume := volume |})
    | Some candle =>
        Ok (Obj.set aggregatedCandles key
              {| Num.unixTimestamp := Num.unixTimestamp candle;
                 Num.readableTimestamp := Num.readableTimestamp candle;
                 Num.open := Num.open candle;
                 Num.high := Math_max (Num.high candle) high;
                 Num.low := Math_min (Num.low candle) low;
                 Num.close := close;
                 Num.volume := fadd (Num.volume candle) volume |})
    end.

Fixpoint loop_approx (timeframeInSeconds : jsnum) (aggregatedCandles : Obj.t Num.CandleDataNumber)
    (records : list CandleRecord) : result (Obj.t Num.CandleDataNumber) :=
  match records with
  | [] => Ok aggregatedCandles
  | record :: rest =>
      let* o := fold_approx timeframeInSeconds aggregatedCandles record in
      loop_approx timeframeInSeconds o rest
  end.

Definition aggregate_approx (records : list CandleRecord) (timeframeInSeconds : jsnum)
  : result (list candle) :=
  let* aggregatedCandles := loop_approx timeframeInSeconds [] records in
  Ok (Arr.sort by_unixTimestamp (map inl (Obj.values aggregatedCandles))).

Definition aggregateCandleData (records : list CandleRecord) (timeframeInSeconds : jsnum)
    (outputAsString : bool) : result (list candle) :=
  if outputAsString then aggregate_exact records timeframeInSeconds
  else aggregate_approx records timeframeInSeconds.

(** *** The endpoints *)

Record request := {
  timeframe : string;         (* req.params.timeframe *)
  format : option string      (* req.query.format *)
}.

(** A field of a candle in a response body: a number or a string. *)
Definition field : Type := float + string.

Record ohlc := {
  o_unixTimestamp : jsnum; o_readableTimestamp : string;
  o_open : field; o_high : field; o_low : field; o_close : field
}.

Record vol := {
  v_unixTimestamp : jsnum; v_readableTimestamp : string; v_volume : field
}.

Inductive body :=
| Candles (l : list candle)
| OhlcHistory (l : list ohlc)
| VolumeHistory (l : list vol).

Inductive response :=
| Status400 (error : string) (availableTimeframes : list string)
| Json (b : body)
| Status500 (message : string).

(** What a handler did besides answering. *)
Inductive effect :=
| ReadCsv
| Aggregate (records : list CandleRecord) (timeframeInSeconds : jsnum) (outputAsString : bool).

Definition falsy (v : Obj.value Z) : bool :=
  match v with
  | Obj.Undefined => true
  | Obj.Own n => n =? 0
  | Obj.Inherited _ => false
  end.

(** The number a looked-up value is used as in arithmetic. *)
Definition ToNumber (v : Obj.value Z) : jsnum :=
  match v with
  | Obj.Own n => Some n
  | _ => NaN
  end.

Definition is_string_format (format : option string) : bool :=
  match format with
  | Some f => String.eqb f "string"
  | None => false
  end.

Definition to_ohlc (c : candle) : ohlc :=
  match c with
  | inl n => {| o_unixTimestamp := Num.unixTimestamp n;
                o_readableTimestamp := Num.readableTimestamp n;
                o_open := inl (Num.open n); o_high := inl (Num.high n);
                o_low := inl (Num.low n); o_close := inl (Num.close n) |}
  | inr s => {| o_unixTimestamp := Str.unixTimestamp s;
                o_readableTimestamp := Str.readableTimestamp s;
                o_open := inr (Str.open s); o_high := inr (Str.high s);
                o_low := inr (Str.low s); o_close := inr (Str.close s) |}
  end.

Definition to_vol (c : candle) : vol :=
  match c with
  | inl n => {| v_unixTimestamp := Num.unixTimestamp n;
                v_readableTimestamp := Num.readableTimestamp n;
                v_volume := inl (Num.volume n) |}
  | inr s => {| v_unixTimestamp := Str.unixTimestamp s;
                v_readableTimestamp := Str.readableTimestamp s;
                v_volume := inr (Str.volume s) |}
  end.

(** The three handlers differ in the error text, the projection of the
    candles and the text of the 500 answer. *)
Definition handler (invalid : string) (project : list candle -> body) (failure : string)
    (file : option (list CandleRecord)) (req : request) : list effect * response :=
  let timeframeInSeconds := Obj.get timeframeMap (timeframe req) in
  if falsy timeframeInSeconds then
    ([], Status400 invalid (Obj.keys timeframeMap))
  else
    match getCandleRecords file with
    | Throw _ => ([ReadCsv], Status500 failure)
    | Ok records =>
        let width := ToNumber timeframeInSeconds in
        let mode := is_string_format (format req) in
        match aggregateCandleData records width mode with
        | Throw _ => ([ReadCsv; Aggregate records width mode], Status500 failure)
        | Ok candleData => ([ReadCsv; Aggregate records width mode], Json (project candleData))
        end
    end.

Definition get_candles :=
  handler "Invalid timeframe specified." Candles "Error fetching candle data".

Definition get_ohlc :=
  handler "Invalid timeframe." (fun l => OhlcHistory (map to_ohlc l)) "Error fetching OHLC data".

Definition get_volume :=
  handler "Invalid timeframe." (fun l => VolumeHistory (map to_vol l)) "Error fetching volume data".

End Api.

(** ** The collector ([index.ts]) *)

Module Collector.

(** What [candleStickData] returns: five [uint256]. *)
Record candleStick := {
  time : N; open : N; close : N; high : N; low : N
}.

(** The contract as the collector sees it.  A call returns its [uint256]
    result or is rejected. *)
Record contract := {
  totalTx : result N;
  txTimeStamp : Z -> result N;
  candleStickData : Z -> result candleStick;
  tVol : Z -> result N
}.

(** An entry of [tVolData]. *)
Record tVolEntry := {
  Timestamp : Z;
  e_tVol : string;
  utcDate : string;
  cumulativeDailyVolume : string;
  cumulativeTotalVolume : string
}.

(** A cell of a row handed to [csv-stringify]. *)
Inductive cell :=
| Number (n : Z)
| Text (s : string).

Definition header : list cell :=
  map Text
    ["Total Transactions"; "Transaction Index"; "Unix Timestamp";
     "Readable Timestamp"; "Open"; "Close"; "High"; "Low"; "tVol"; "UTC Date";
     "Daily Total Volume"; "Cumulative Daily Volume";
     "Cumulative Total Volume (Till Date)"].

(** The variables the loop updates. *)
Record state := {
  s_cumulativeTotalVolume : Z;
  s_currentDay : option string;
  s_currentDayCumulativeVolume : Z;
  s_tVolData : list tVolEntry;
  s_allCandleData : list (list cell)
}.

Definition init : state :=
  {| s_cumulativeTotalVolume := 0;
     s_currentDay := None;
     s_currentDayCumulativeVolume := 0;
     s_tVolData := [];
     s_allCandleData := [header] |}.

(** The accumulators and the text of [tVol] after the inner
    [try { ... } catch { ... }] of one iteration. *)
Definition fetch_tVol (c : contract) (timestamp : Z) (utcDate : string) (st : state)
  : string * option string * Z * Z :=
  let total := s_cumulativeTotalVolume st in
  let day := s_currentDay st in
  let daily := s_currentDayCumulativeVolume st in
  match tVol c timestamp with
  | Throw _ => ("Error", day, daily, total)
  | Ok volume =>
      let tVol := bigint_toString (Z.of_N volume) in
      let '(day, daily) :=
        match day with
        | None => (Some utcDate, 0)
        | Some d => if String.eqb d utcDate then (day, daily) else (Some utcDate, 0)
        end in
      match BigInt tVol with
      | Throw _ => (tVol, day, daily, total)
      | Ok v =>
          let daily := daily + v in
          match BigInt tVol with
          | Throw _ => (tVol, day, daily, total)
          | Ok v' => (tVol, day, daily, total + v')
          end
      end
  end.

(** One iteration of the main loop, for transaction index [i]. *)
Definition iteration (c : contract) (totalTx : Z) (st : state) (i : Z) : result state :=
  let* timestampBigInt := txTimeStamp c i in
  let timestamp := Z.of_N timestampBigInt in
  let date := Date_new (Some (timestamp * 1000)) in
  let readableTimestamp := toUTCString date in
  let* iso := toISOString date in
  let utcDate := String.substring 0 10 iso in
  let* candle := candleStickData c timestamp in
  let '(tVol, day, daily, total) := fetch_tVol c timestamp utcDate st in
  Ok {| s_cumulativeTotalVolume := total;
        s_currentDay := day;
        s_currentDayCumulativeVolume := daily;
        s_tVolData :=
          s_tVolData st ++
          [{| Timestamp := timestamp; e_tVol := tVol; utcDate := utcDate;
              cumulativeDailyVolume := bigint_toString daily;
              cumulativeTotalVolume := bigint_toString total |}];
        s_allCandleData :=
          s_allCandleData st ++
          [[Number totalTx; Number i; Number timestamp; Text readableTimestamp;
            Text (bigint_toString (Z.of_N (open candle)));
            Text (bigint_toString (Z.of_N (close candle)));
            Text (bigint_toString (Z.of_N (high candle)));
            Text (bigint_toString (Z.of_N (low candle)));
            Text tVol; Text utcDate; Text "";
            Text (bigint_toString daily); Text (bigint_toString total)]] |}.

(** [for (let i = from; ...; i++)], [count] iterations. *)
Fixpoint loop (c : contract) (totalTx : Z) (count : nat) (from : Z) (st : state) : result state :=
  match count with
  | O => Ok st
  | S n =>
      let* st' := iteration c totalTx st from in
      loop c totalTx n (from + 1) st'
  end.

(** The second pass: the volume of every day. *)
Fixpoint dailyVolumes (data : list tVolEntry) (dailyVolumeMap : gmap string Z)
  : result (gmap string Z) :=
  match data with
  | [] => Ok dailyVolumeMap
  | d :: rest =>
      if negb (String.eqb (utcDate d) "") && negb (String.eqb (e_tVol d) "Error") then
        let currentDailyVolume :=
          match dailyVolumeMap !! utcDate d with
          | Some v => if v =? 0 then 0 else v
          | None => 0
          end in
        let* v := BigInt (e_tVol d) in
        dailyVolumes rest (<[utcDate d := currentDailyVolume + v]> dailyVolumeMap)
      else dailyVolumes rest dailyVolumeMap
  end.

(** [allCandleData[i][10] = dailyVolumeMap.get(utcDate)?.toString() || '0'] *)
Definition attach (dailyVolumeMap : gmap string Z) (row : list cell) : list cell :=
  match row !! 9%nat with
  | Some (Text utcDate) =>
      if String.eqb utcDate "" then row
      else
        let total :=
          match dailyVolumeMap !! utcDate with
          | Some v => let s := bigint_toString v in if String.eqb s "" then "0" else s
          | None => "0"
          end in
        <[10%nat := Text total]> row
  | Some (Number n) => if n =? 0 then row else <[10%nat := Text "0"]> row
  | None => row
  end.

(** The rows handed to [csv-stringify], or the exception the outer
    [catch] logs instead. *)
Definition fetchData (c : contract) : result (list (list cell)) :=
  let* totalTxBigInt := totalTx c in
  let totalTx := Z.of_N totalTxBigInt in
  let* st := loop c totalTx (Z.to_nat totalTx) 1 init in
  let* dailyVolumeMap := dailyVolumes (s_tVolData st) ∅ in
  match s_allCandleData st with
  | head :: rows => Ok (head :: map (attach dailyVolumeMap) rows)
  | [] => Ok []
  end.

End Collector.

(** ** The event download ([getHistory.ts]) *)

Module History.

(** What ends the script. *)
Inductive failure :=
| FileError        (* the exported CSV file could not be read or parsed *)
| FormatError      (* [formatEventArgs] threw on the arguments of an event *)
| InvalidTime.     (* [toISOString] on a time a [Date] cannot hold *)

Inductive outcome (A : Type) :=
| Done (a : A)
| Failed (f : failure).
Arguments Done {A} a.
Arguments Failed {A} f.

Definition and_then {A B} (r : outcome A) (k : A -> outcome B) : outcome B :=
  match r with
  | Done a => k a
  | Failed f => Failed f
  end.

(** A row of the exported CSV file, as [csv-parse] hands it over: the text
    of its [Blockno] column, [None] when the row has no such column. *)
Record Row := { Blockno : option string }.

(** [Set.prototype.add] on a set in insertion order.  Values are compared
    with SameValueZero, under which NaN equals NaN. *)
Definition same_value_zero (a b : jsnum) : bool :=
  match a, b with
  | Some x, Some y => x =? y
  | None, None => true
  | _, _ => false
  end.

Definition Set_add (set : list jsnum) (x : jsnum) : list jsnum :=
  if existsb (same_value_zero x) set then set else (set ++ [x])%list.

(** [getBlockNumbersFromCsv]: [file] is what reading and parsing the file
    gives, [None] when the stream reports an error. *)
Definition getBlockNumbersFromCsv (file : option (list Row)) : outcome (list jsnum) :=
  match file with
  | Some rows =>
      Done (fold_left
              (fun blockNumbers row =>
                 match Blockno row with
                 | Some text =>
                     if String.eqb text "" then blockNumbers
                     else Set_add blockNumbers (parseInt text)
                 | None => blockNumbers
                 end)
              rows [])
  | None => Failed FileError
  end.

(** A log of the contract.  [eventName] and [args] are absent on a log the
    ABI does not describe.  The arguments are given by what
    [JSON.stringify(formatEventArgs(args))] makes of them: the text, or
    [None] when [formatEventArgs] throws. *)
Record Event := {
  blockNumber : Z;
  transactionHash : string;
  eventName : option string;
  args : option (option string)
}.

(** The RPC provider.  [queryFilter] is asked once for a block number;
    [getBlock] may be asked again for the same block and need not answer
    the same, so it also takes the number of lookups made before.  A block
    is given by its timestamp; [Ok None] is the answer [null]. *)
Record provider := {
  queryFilter : jsnum -> result (list Event);
  getBlock : nat -> Z -> result (option Z)
}.

(** [Array.from(targetBlockNumbers).sort((a, b) => a - b)] *)
Definition sortedBlockNumbers (targetBlockNumbers : list jsnum) : list jsnum :=
  Arr.sort JS.sub targetBlockNumbers.

(** The first loop: the events of every block, a block whose query is
    rejected being skipped. *)
Definition fetchEvents (p : provider) (sortedBlockNumbers : list jsnum) : list Event :=
  fold_left
    (fun allEvents blockNumber =>
       match queryFilter p blockNumber with
       | Ok eventsInBlock => (allEvents ++ eventsInBlock)%list
       | Throw _ => allEvents
       end)
    sortedBlockNumbers [].

(** A record handed to the CSV writer. *)
Record record := {
  timestamp : string;
  r_blockNumber : Z;
  r_transactionHash : string;
  r_eventName : string;
  eventData : string
}.

(** The variables of the second loop, and the block lookups made so far. *)
Record state := {
  blockTimestampCache : gmap Z Z;
  lookups : list Z;
  records : list record
}.

Definition init : state :=
  {| blockTimestampCache := ∅; lookups := []; records := [] |}.

(** [!blockTimestampCache[n]] is false: the block has a cached timestamp
    other than zero. *)
Definition cached (cache : gmap Z Z) (n : Z) : option Z :=
  match cache !! n with
  | Some t => if t =? 0 then None else Some t
  | None => None
  end.

(** One iteration of the second loop. *)
Definition process (p : provider) (st : state) (event : Event) : outcome state :=
  match eventName event, args event with
  | Some name, Some arguments =>
      if String.eqb name "" then Done st
      else
        let '(cache, lookups, timestamp) :=
          match cached (blockTimestampCache st) (blockNumber event) with
          | Some t => (blockTimestampCache st, lookups st, t)
          | None =>
              let t :=
                match getBlock p (length (lookups st)) (blockNumber event) with
                | Ok (Some t) => t
                | Ok None => 0
                | Throw _ => 0
                end in
              (<[blockNumber event := t]> (blockTimestampCache st),
               (lookups st ++ [blockNumber event])%list, t)
          end in
        match arguments with
        | None => Failed FormatError
        | Some formattedArgs =>
            match toISOString (Date_new (Some (timestamp * 1000))) with
            | Throw _ => Failed InvalidTime
            | Ok iso =>
                Done {| blockTimestampCache := cache;
                        lookups := lookups;
                        records :=
                          (records st ++
                           [{| timestamp := iso;
                               r_blockNumber := blockNumber event;
                               r_transactionHash := transactionHash event;
                               r_eventName := name;
                               eventData := formattedArgs |}])%list |}
            end
        end
  | _, _ => Done st
  end.

Fixpoint processAll (p : provider) (st : state) (allEvents : list Event) : outcome state :=
  match allEvents with
  | [] => Done st
  | event :: rest => and_then (process p st event) (fun st' => processAll p st' rest)
  end.

(** The records handed to the CSV writer, or what ends the script. *)
Definition downloadAllEvents (p : provider) (file : option (list Row)) : outcome (list record) :=
  and_then (getBlockNumbersFromCsv file) (fun targetBlockNumbers =>
  let allEvents := fetchEvents p (sortedBlockNumbers targetBlockNumbers) in
  and_then (processAll p init allEvents) (fun st => Done (records st))).

End History.

Import Api.

(** * Vocabulary of the statements *)

(** ** Text *)

Fixpoint all_chars (P : ascii -> bool) (s : string) : bool :=
  match s with
  | EmptyString => true
  | String c r => P c && all_chars P r
  end.

Definition is_dec (c : ascii) : bool :=
  match digit_in 10 c with Some _ => true | None => false end.

Definition not_ws (c : ascii) : bool := negb (is_ws c).

(** ** Integer keys of a list that is sorted by them *)

Section Stamps.

Context {A : Type} (stamp : A -> jsnum).

Definition by_stamp (a b : A) : jsnum := JS.sub (stamp a) (stamp b).

(** The integer keys of the elements, when none of them is NaN. *)
Definition stamps (l : list A) (zs : list Z) : Prop := map stamp l = map Some zs.

End Stamps.

(** ** Folding records into an object, one property per key

    Both branches of [aggregateCandleData] have this shape: a record either
    is skipped or has a key and a one-record candle; the candle is stored
    under the key when the key is new and merged into the stored one
    otherwise. *)

Section KeyedFoldDefinitions.

Context {R A : Type}.
Variable parse : R -> option A.
Variable key : R -> string.
Variable merge : A -> A -> A.
Variable measure : A -> Z.

Definition upsert (o : Obj.t A) (k : string) (t : A) : Obj.t A :=
  match Obj.own o k with
  | None => Obj.set o k t
  | Some c => Obj.set o k (merge c t)
  end.

Definition keyed_step (o : Obj.t A) (r : R) : Obj.t A :=
  match parse r with
  | Some t => upsert o (key r) t
  | None => o
  end.

Definition keyed_fold (records : list R) (o : Obj.t A) : Obj.t A :=
  fold_left keyed_step records o.

Definition total (o : Obj.t A) : Z :=
  fold_right (fun e s => measure (snd e) + s) 0 o.

Definition folded_total (records : list R) : Z :=
  fold_right (fun r s => match parse r with Some t => measure t + s | None => s end)
    0 records.

End KeyedFoldDefinitions.

(** ** The vocabulary of the aggregation theorems *)

Section Aggregation.

(** The bucket start of a record, and the property key it is stored under. *)
Definition bucket (tf : jsnum) (r : CandleRecord) : jsnum :=
  floor_div_mul (parseInt (Unix_Timestamp r)) tf.

Definition bucket_key (tf : jsnum) (r : CandleRecord) : string :=
  Number_toString (bucket tf r).

(** A bucket start for which [new Date(x * 1000).toISOString()] returns. *)
Definition representable (x : jsnum) : bool :=
  match Date_new (JS.mul x 1000) with Some _ => true | None => false end.

(** The one-record candle of the full-precision branch; [None] when one of
    the five [BigInt] conversions throws. *)
Definition parse_exact (r : CandleRecord) : option Big.CandleDataBigInt :=
  match StringToBigInt (Open r), StringToBigInt (High r), StringToBigInt (Low r),
        StringToBigInt (Close r), StringToBigInt (tVol r) with
  | Some o, Some h, Some l, Some c, Some v =>
      Some {| Big.open := o; Big.high := h; Big.low := l; Big.close := c; Big.volume := v |}
  | _, _, _, _, _ => None
  end.

Definition merge_exact (candle t : Big.CandleDataBigInt) : Big.CandleDataBigInt :=
  {| Big.open := Big.open candle;
     Big.high := if Big.high t >? Big.high candle then Big.high t else Big.high candle;
     Big.low := if Big.low t <? Big.low candle then Big.low t else Big.low candle;
     Big.close := Big.close t;
     Big.volume := Big.volume candle + Big.volume t |}.

(** The records the floating-point branch does not skip. *)
Definition included_approx (r : CandleRecord) : bool :=
  negb (isNaN (parseInt (Unix_Timestamp r)) || isNaNf (parseFloat (Open r))
        || isNaNf (parseFloat (High r)) || isNaNf (parseFloat (Low r))
        || isNaNf (parseFloat (Close r)) || isNaNf (parseFloat (tVol r))).

Definition parse_approx (tf : jsnum) (r : CandleRecord) : option Num.CandleDataNumber :=
  if included_approx r then
    Some {| Num.unixTimestamp := bucket tf r;
            Num.readableTimestamp :=
              match toISOString (Date_new (JS.mul (bucket tf r) 1000)) with
              | Ok s => s
              | Throw _ => ""
              end;
            Num.open := parseFloat (Open r); Num.high := parseFloat (High r);
            Num.low := parseFloat (Low r); Num.close := parseFloat (Close r);
            Num.volume := parseFloat (tVol r) |}
  else None.

Definition merge_approx (candle t : Num.CandleDataNumber) : Num.CandleDataNumber :=
  {| Num.unixTimestamp := Num.unixTimestamp candle;
     Num.readableTimestamp := Num.readableTimestamp candle;
     Num.open := Num.open candle;
     Num.high := Math_max (Num.high candle) (Num.high t);
     Num.low := Math_min (Num.low candle) (Num.low t);
     Num.close := Num.close t;
     Num.volume := fadd (Num.volume candle) (Num.volume t) |}.

(** The ticks a call folds into a bucket. *)
Definition included (outputAsString : bool) (r : CandleRecord) : bool :=
  if outputAsString then
    match parse_exact r with Some _ => true | None => false end
  else included_approx r.

(** Every included tick has a bucket start that a [Date] can hold. *)
Definition times_representable (records : list CandleRecord) (tf : jsnum)
    (outputAsString : bool) : Prop :=
  forall r, In r records -> included outputAsString r = true ->
            representable (bucket tf r) = true.

(** The stored keys are the keys of representable buckets. *)
Definition keys_representable {A} (o : Obj.t A) : Prop :=
  forall k, In k (map fst o) -> exists x, k = Number_toString x /\ representable x = true.

Definition rendered (e : string * Big.CandleDataBigInt) (z : Z) : candle :=
  inr {| Str.unixTimestamp := Some z;
         Str.readableTimestamp := iso_string (z * 1000);
         Str.open := bigint_toString (Big.open (snd e));
         Str.high := bigint_toString (Big.high (snd e));
         Str.low := bigint_toString (Big.low (snd e));
         Str.close := bigint_toString (Big.close (snd e));
         Str.volume := bigint_toString (Big.volume (snd e)) |}.

(** What the full-precision branch returns: the stored candles, rendered,
    then sorted. *)
Definition rendering (e : string * Big.CandleDataBigInt) (c : candle) : Prop :=
  exists z, fst e = Number_toString (Some z) /\ representable (Some z) = true
            /\ c = rendered e z.

Definition key_of (z : Z) : string := Number_toString (Some z).

(** ** Volumes *)

(** The volume of an emitted candle, read back as an integer. *)
Definition candle_volume (c : candle) : option Z :=
  match c with
  | inr s => StringToBigInt (Str.volume s)
  | inl _ => None
  end.

(** The exact sum of the volumes of a candle sequence. *)
Fixpoint sum_volumes (cs : list candle) : option Z :=
  match cs with
  | [] => Some 0
  | c :: cs' =>
      match candle_volume c, sum_volumes cs' with
      | Some v, Some s => Some (v + s)
      | _, _ => None
      end
  end.

(** The volume of a tick; a tick whose volume is unavailable counts zero. *)
Definition available_volume (r : CandleRecord) : Z :=
  if String.eqb (tVol r) "Error" then 0
  else match StringToBigInt (tVol r) with Some v => v | None => 0 end.

Definition tick_volume_sum (records : list CandleRecord) : Z :=
  fold_right (fun r s => available_volume r + s) 0 records.

(** ** Ordering of open, high, low and close *)

(** [a <= b] on numbers; false when either is NaN. *)
Definition fle (a b : float) : Prop := fleb a b = true.

(** low <= open, close, high and high >= open, close, low. *)
Definition ohlc_ordered {T} (le : T -> T -> Prop) (open high low close : T) : Prop :=
  le low open /\ le low close /\ le low high /\ le open high /\ le close high.

(** The ordering within one tick, under the mode's numeric comparison. *)
Definition tick_ordered (outputAsString : bool) (r : CandleRecord) : Prop :=
  if outputAsString then
    match parse_exact r with
    | Some t => ohlc_ordered Z.le (Big.open t) (Big.high t) (Big.low t) (Big.close t)
    | None => True
    end
  else
    ohlc_ordered fle (parseFloat (Open r)) (parseFloat (High r)) (parseFloat (Low r))
      (parseFloat (Close r)).

(** The ordering within an emitted candle; the text of a full-precision
    candle is compared as the integers it denotes. *)
Definition candle_ordered (c : candle) : Prop :=
  match c with
  | inl n => ohlc_ordered fle (Num.open n) (Num.high n) (Num.low n) (Num.close n)
  | inr s =>
      exists o h l c,
        StringToBigInt (Str.open s) = Some o /\ StringToBigInt (Str.high s) = Some h
        /\ StringToBigInt (Str.low s) = Some l /\ StringToBigInt (Str.close s) = Some c
        /\ ohlc_ordered Z.le o h l c
  end.

(** ** Sample data *)

Definition tick (unixTimestamp open high low close volume : string) : CandleRecord :=
  {| Unix_Timestamp := unixTimestamp; Open := open; High := high; Low := low;
     Close := close; tVol := volume |}.

(** Ticks at 0, 30 and 90 seconds with volume 5 each. *)
Definition scenario_A : list CandleRecord :=
  [tick "0" "10" "12" "9" "11" "5"; tick "30" "11" "15" "10" "14" "5";
   tick "90" "14" "14" "13" "13" "5"].

(** The tick of scenario B: open 100, high 110, low 120, close 90. *)
Definition scenario_B : CandleRecord := tick "0" "100" "110" "120" "90" "7".

Definition candle_B : Str.CandleDataString :=
  {| Str.unixTimestamp := Some 0;
     Str.readableTimestamp := "1970-01-01T00:00:00.000Z";
     Str.open := "100"; Str.high := "110"; Str.low := "120"; Str.close := "90";
     Str.volume := "7" |}.

(** What the full-precision branch returns for scenario A. *)
Definition candles_A : list candle :=
  [inr {| Str.unixTimestamp := Some 0;
          Str.readableTimestamp := "1970-01-01T00:00:00.000Z";
          Str.open := "10"; Str.high := "15"; Str.low := "9"; Str.close := "14";
          Str.volume := "10" |};
   inr {| Str.unixTimestamp := Some 60;
          Str.readableTimestamp := "1970-01-01T00:01:00.000Z";
          Str.open := "14"; Str.high := "14"; Str.low := "13"; Str.close := "13";
          Str.volume := "5" |}].

(** The candle a sole tick of scenario B turns into, in bucket [z]. *)
Definition round_trip_B (z : Z) : candle :=
  inr {| Str.unixTimestamp := Some z;
         Str.readableTimestamp := iso_string (z * 1000);
         Str.open := "100"; Str.high := "110"; Str.low := "120"; Str.close := "90";
         Str.volume := "7" |}.

(** A tick whose volume lookup failed. *)
Definition unavailable_tick : CandleRecord := tick "0" "1" "2" "1" "2" "Error".

(** A tick whose timestamp is no number. *)
Definition unparsed_time : CandleRecord := tick "soon" "1" "2" "1" "2" "5".

(** A tick in the year 275760, past the last day a [Date] can hold. *)
Definition far_future : CandleRecord := tick "8640000000060" "1" "2" "1" "2" "5".

End Aggregation.

(** ** Requests *)

(** A request for a label that [timeframeMap] does not define but every
    object inherits. *)
Definition inherited_label : request := {| timeframe := "constructor"; format := None |}.

Definition is_Status400 (r : response) : bool :=
  match r with Status400 _ _ => true | _ => false end.

(** ** The collector *)

Section CollectorVocabulary.

Import Collector.

(** The text the collector takes for the UTC date of a timestamp: the
    first ten characters of its ISO text. *)
Definition utcDate_of (timestamp : Z) : string :=
  String.substring 0 10 (iso_string (timestamp * 1000)).

Definition same_day (day : option string) (d : string) : bool :=
  match day with Some d' => String.eqb d' d | None => false end.

(** The state after the iteration that records a tick, given what the three
    structural lookups returned. *)
Definition recorded (c : contract) (totalTx : Z) (st : state) (i timestamp : Z)
    (candle : candleStick) : state :=
  let '(tVol, day, daily, total) := fetch_tVol c timestamp (utcDate_of timestamp) st in
  {| s_cumulativeTotalVolume := total;
     s_currentDay := day;
     s_currentDayCumulativeVolume := daily;
     s_tVolData :=
       s_tVolData st ++
       [{| Timestamp := timestamp; e_tVol := tVol; utcDate := utcDate_of timestamp;
           cumulativeDailyVolume := bigint_toString daily;
           cumulativeTotalVolume := bigint_toString total |}];
     s_allCandleData :=
       s_allCandleData st ++
       [[Number totalTx; Number i; Number timestamp;
         Text (toUTCString (Some (timestamp * 1000)));
         Text (bigint_toString (Z.of_N (open candle)));
         Text (bigint_toString (Z.of_N (close candle)));
         Text (bigint_toString (Z.of_N (high candle)));
         Text (bigint_toString (Z.of_N (low candle)));
         Text tVol; Text (utcDate_of timestamp); Text "";
         Text (bigint_toString daily); Text (bigint_toString total)]] |}.

(** The lookups that abort the pass when they fail all succeed, for every
    transaction index up to [n]. *)
Definition structural_ok (c : contract) (n : N) : Prop :=
  forall i, 1 <= i <= Z.of_N n ->
    exists ts candle,
      txTimeStamp c i = Ok ts /\ Z.abs (Z.of_N ts * 1000) <= maxTime
      /\ candleStickData c (Z.of_N ts) = Ok candle.

(** The date text of the latest entry whose volume is available. *)
Fixpoint last_available_day (data : list tVolEntry) : option string :=
  match data with
  | [] => None
  | e :: rest =>
      match last_available_day rest with
      | Some d => Some d
      | None => if String.eqb (e_tVol e) "Error" then None else Some (utcDate e)
      end
  end.

(** The volume a row carries; an unavailable volume counts zero. *)
Definition row_volume (row : list cell) : Z :=
  match row !! 8%nat with
  | Some (Text s) =>
      if String.eqb s "Error" then 0
      else match StringToBigInt s with Some v => v | None => 0 end
  | _ => 0
  end.

(** The sum of the valid volumes of the rows with one date text. *)
Definition day_volume (date : string) (rows : list (list cell)) : Z :=
  fold_right
    (fun row s =>
       match row !! 9%nat with
       | Some (Text d) => if String.eqb d date then row_volume row + s else s
       | _ => s
       end)
    0 rows.

(** The volume an entry of [tVolData] carries. *)
Definition entry_volume (e : tVolEntry) : Z :=
  if String.eqb (e_tVol e) "Error" then 0
  else match StringToBigInt (e_tVol e) with Some v => v | None => 0 end.

Definition day_total (date : string) (data : list tVolEntry) : Z :=
  fold_right
    (fun e s => if String.eqb (utcDate e) date then entry_volume e + s else s)
    0 data.

(** A row of [allCandleData] and the entry of [tVolData] pushed with it. *)
Definition row_of (e : tVolEntry) (row : list cell) : Prop :=
  row !! 8%nat = Some (Text (e_tVol e)) /\ row !! 9%nat = Some (Text (utcDate e))
  /\ length row = 13%nat.

Definition entry_ok (e : tVolEntry) : Prop :=
  utcDate e <> "" /\ (e_tVol e = "Error" \/ exists v, e_tVol e = bigint_toString v).

(** What the loop keeps true of the two arrays it fills. *)
Definition well_formed (st : state) : Prop :=
  exists rows,
    s_allCandleData st = header :: rows
    /\ Forall2 row_of (s_tVolData st) rows
    /\ Forall entry_ok (s_tVolData st).

(** The row a tick whose volume lookup failed is written as: the marker in
    the tVol column, every other field in its place. *)
Definition failed_row (n : N) (i : Z) (ts : N) (candle : candleStick)
    (finalized : string) (daily total : Z) : list cell :=
  [Number (Z.of_N n); Number i; Number (Z.of_N ts);
   Text (toUTCString (Some (Z.of_N ts * 1000)));
   Text (bigint_toString (Z.of_N (open candle)));
   Text (bigint_toString (Z.of_N (close candle)));
   Text (bigint_toString (Z.of_N (high candle)));
   Text (bigint_toString (Z.of_N (low candle)));
   Text "Error"; Text (utcDate_of (Z.of_N ts));
   Text finalized;
   Text (bigint_toString daily); Text (bigint_toString total)].

(** The reset rule in its unamended form, for the pass over one contract:
    at every step whose tick has another UTC date than the tick before it,
    the daily total ends the step equal to the tick's own volume, zero when
    that volume is unavailable. *)
Definition resets_on_date_change (c : contract) : Prop :=
  forall totalTx k st st' previous e,
    loop c totalTx k 1 init = Ok st ->
    iteration c totalTx st (1 + Z.of_nat k) = Ok st' ->
    last (s_tVolData st) = Some previous ->
    s_tVolData st' = (s_tVolData st ++ [e])%list ->
    utcDate e <> utcDate previous ->
    s_currentDayCumulativeVolume st' = entry_volume e.

(** A contract with three transactions, 50000 seconds apart: the second
    falls on the next day and its volume lookup fails, the third falls on
    that same day. *)
Definition sample_contract : contract :=
  {| totalTx := Ok 3%N;
     txTimeStamp := fun i => Ok (Z.to_N (i * 50000));
     candleStickData := fun t =>
       Ok {| time := Z.to_N t; open := 1; close := 2; high := 3; low := 1 |};
     tVol := fun t => if t =? 100000 then Throw CallException else Ok 5%N |}.

(** The state of the pass over the sample contract after its first and
    after its second iteration. *)
Definition sample_state_1 : state :=
  Eval vm_compute in
    match loop sample_contract 3 1 1 init with Ok st => st | Throw _ => init end.

Definition sample_state_2 : state :=
  Eval vm_compute in
    match iteration sample_contract 3 sample_state_1 2 with
    | Ok st => st
    | Throw _ => init
    end.

Definition sample_rows : list (list cell) :=
  [header;
   [Number 3; Number 1; Number 50000; Text "Thu, 01 Jan 1970 13:53:20 GMT";
    Text "1"; Text "2"; Text "3"; Text "1"; Text "5"; Text "1970-01-01";
    Text "5"; Text "5"; Text "5"];
   [Number 3; Number 2; Number 100000; Text "Fri, 02 Jan 1970 03:46:40 GMT";
    Text "1"; Text "2"; Text "3"; Text "1"; Text "Error"; Text "1970-01-02";
    Text "5"; Text "5"; Text "5"];
   [Number 3; Number 3; Number 150000; Text "Fri, 02 Jan 1970 17:40:00 GMT";
    Text "1"; Text "2"; Text "3"; Text "1"; Text "5"; Text "1970-01-02";
    Text "5"; Text "5"; Text "10"]].

End CollectorVocabulary.

(** * Vocabulary of the further properties *)

(** ** The ticks of one bucket *)

Section KeyedTicks.

Context {R A : Type}.
Variable parse : R -> option A.
Variable key : R -> string.
Variable merge : A -> A -> A.

(** The one-record candles of the records stored under key [k], in the
    order of the records. *)
Definition keyed_ticks (k : string) (records : list R) : list A :=
  flat_map
    (fun r =>
       match parse r with
       | Some t => if String.eqb (key r) k then [t] else []
       | None => []
       end)
    records.

(** A stored candle after more one-record candles went into it. *)
Definition absorb (stored : option A) (ticks : list A) : option A :=
  fold_left
    (fun acc t => Some (match acc with Some c => merge c t | None => t end))
    ticks stored.

End KeyedTicks.

(** The parsed ticks that the full-precision branch folds into the bucket
    that starts at [z], in input order. *)
Definition exact_ticks (tf : jsnum) (z : Z) (records : list CandleRecord)
  : list Big.CandleDataBigInt :=
  keyed_ticks parse_exact (bucket_key tf) (key_of z) records.

(** The same for the floating-point branch. *)
Definition approx_ticks (tf : jsnum) (z : Z) (records : list CandleRecord)
  : list Num.CandleDataNumber :=
  keyed_ticks (parse_approx tf) (bucket_key tf) (key_of z) records.

(** What the floating-point branch returns for scenario A. *)
Definition approx_candles_A : list candle :=
  Eval vm_compute in
    match aggregateCandleData scenario_A (Some 60) false with
    | Ok cs => cs
    | Throw _ => []
    end.

(** ** The records of the file *)

(** The number [getCandleRecords] sorts a record by. *)
Definition record_stamp (r : CandleRecord) : jsnum := parseInt_any (Unix_Timestamp r).

(** The records with a given timestamp, in the order of the list. *)
Definition with_stamp (z : Z) (records : list CandleRecord) : list CandleRecord :=
  List.filter
    (fun r => match record_stamp r with Some t => t =? z | None => false end)
    records.

(** Every record of the list has a timestamp that reads as a number. *)
Definition stamps_parse (records : list CandleRecord) : Prop :=
  forall r, In r records -> record_stamp r <> NaN.

(** The ticks of scenario A as a file might hold them, out of order and
    with a second tick at 30 seconds. *)
Definition shuffled_A : list CandleRecord :=
  [tick "90" "14" "14" "13" "13" "5"; tick "30" "11" "15" "10" "14" "5";
   tick "0" "10" "12" "9" "11" "5"; tick "30" "12" "13" "12" "13" "1"].

(** A request for one-minute candles in full precision. *)
Definition minute_request : request := {| timeframe := "1m"; format := Some "string" |}.

(** ** The rows of a pass *)

Section RowVocabulary.

Import Collector.

(** The row of transaction index [i]: what the contract returned for it,
    and the texts of the volume and of the three totals. *)
Definition written_row (totalTx i ts : Z) (candle : candleStick)
    (vol finalized daily total : string) : list cell :=
  [Number totalTx; Number i; Number ts;
   Text (toUTCString (Some (ts * 1000)));
   Text (bigint_toString (Z.of_N (open candle)));
   Text (bigint_toString (Z.of_N (close candle)));
   Text (bigint_toString (Z.of_N (high candle)));
   Text (bigint_toString (Z.of_N (low candle)));
   Text vol; Text (utcDate_of ts); Text finalized; Text daily; Text total].

(** The sum of the valid volumes of a list of rows. *)
Definition volume_sum (rows : list (list cell)) : Z :=
  fold_right (fun row s => row_volume row + s) 0 rows.

(** A lookup that aborts the pass fails at transaction index [i] with the
    exception [e]: the timestamp lookup is rejected, or the timestamp is
    past the range of [Date], or the candle lookup is rejected. *)
Definition structural_failure (c : contract) (i : Z) (e : exn) : Prop :=
  txTimeStamp c i = Throw e
  \/ exists ts,
       txTimeStamp c i = Ok ts
       /\ (maxTime < Z.abs (Z.of_N ts * 1000) /\ e = RangeError
           \/ Z.abs (Z.of_N ts * 1000) <= maxTime
              /\ candleStickData c (Z.of_N ts) = Throw e).

(** The sample contract with a candle lookup that is rejected for the
    third transaction. *)
Definition failing_contract : contract :=
  {| totalTx := Ok 3%N;
     txTimeStamp := txTimeStamp sample_contract;
     candleStickData := fun t =>
       if t =? 150000 then Throw CallException else candleStickData sample_contract t;
     tVol := tVol sample_contract |}.

End RowVocabulary.

Section TotalsVocabulary.

Import Collector.

(** What the row at position [i] of the rows of the loop says about the
    rows up to it: its last column is their volume, and when its own volume
    is available its running daily total lies between that volume and the
    volume its date has so far. *)
Definition row_totals (rows : list (list cell)) (i : nat) (row : list cell) : Prop :=
  row !! 12%nat = Some (Text (bigint_toString (volume_sum (take (S i) rows))))
  /\ (row !! 8%nat <> Some (Text "Error") ->
      exists date daily,
        row !! 9%nat = Some (Text date)
        /\ row !! 11%nat = Some (Text (bigint_toString daily))
        /\ 0 <= row_volume row <= daily
        /\ daily <= day_volume date (take (S i) rows)).

(** What the loop keeps true of its accumulators and the rows. *)
Definition totals_kept (st : state) : Prop :=
  exists rows,
    s_allCandleData st = header :: rows
    /\ s_cumulativeTotalVolume st = volume_sum rows
    /\ Forall (fun row => 0 <= row_volume row) rows
    /\ (forall d, s_currentDay st = Some d ->
          0 <= s_currentDayCumulativeVolume st <= day_volume d rows)
    /\ forall i row, rows !! i = Some row -> row_totals rows i row.

(** The rows of the loop after [k] iterations reproduce what the contract
    returned for the transaction indices 1 to [k]. *)
Definition rows_written (c : contract) (totalTx : Z) (k : nat) (st : state) : Prop :=
  exists rows,
    s_allCandleData st = header :: rows
    /\ length rows = k
    /\ forall j, (j < k)%nat ->
         exists ts candle vol daily total,
           txTimeStamp c (1 + Z.of_nat j) = Ok ts
           /\ Z.abs (Z.of_N ts * 1000) <= maxTime
           /\ candleStickData c (Z.of_N ts) = Ok candle
           /\ rows !! j
              = Some (written_row totalTx (1 + Z.of_nat j) (Z.of_N ts) candle vol ""
                        daily total)
           /\ ((exists x, tVol c (Z.of_N ts) = Throw x) /\ vol = "Error"
               \/ exists v, tVol c (Z.of_N ts) = Ok v /\ vol = bigint_toString (Z.of_N v)).

End TotalsVocabulary.

(** ** The event download *)

Section HistoryVocabulary.

Import History.



(** The arguments of every event the provider returns can be formatted. *)
Definition arguments_format (p : provider) : Prop :=
  forall b events event,
    queryFilter p b = Ok events -> In event events -> args event <> Some None.

(** Every timestamp the provider returns is a time a [Date] can hold. *)
Definition timestamps_in_range (p : provider) : Prop :=
  forall k b t, getBlock p k b = Ok (Some t) -> Z.abs (t * 1000) <= maxTime.

(** An exported file: block 30, block 10, a row with an empty and a row
    with no block number, block 10 again and block 20. *)
Definition sample_export : list Row :=
  [{| Blockno := Some "30" |}; {| Blockno := Some "10" |}; {| Blockno := Some "" |};
   {| Blockno := None |}; {| Blockno := Some "10" |}; {| Blockno := Some "20" |}].

(** A provider with two transfers in block 10 and one in block 30.  The
    query for block 20 is rejected, and so is every lookup of block 30. *)
Definition sample_provider : provider :=
  {| queryFilter := fun b =>
       match b with
       | Some n =>
           if n =? 10 then
             Ok [{| blockNumber := 10; transactionHash := "0xa";
                    eventName := Some "Transfer"; args := Some (Some "{}") |};
                 {| blockNumber := 10; transactionHash := "0xb";
                    eventName := Some "Transfer"; args := Some (Some "{}") |}]
           else if n =? 30 then
             Ok [{| blockNumber := 30; transactionHash := "0xc";
                    eventName := Some "Transfer"; args := Some (Some "{}") |}]
           else if n =? 20 then Throw CallException
           else Ok []
       | None => Ok []
       end;
     getBlock := fun _ b => if b =? 10 then Ok (Some 86400) else Throw CallException |}.

(** The state of the second loop after the first event of block 10. *)
Definition sample_history_state : state :=
  {| blockTimestampCache := {[ 10 := 86400 ]};
     lookups := [10];
     records :=
       [{| timestamp := "1970-01-02T00:00:00.000Z"; r_blockNumber := 10;
           r_transactionHash := "0xa"; r_eventName := "Transfer"; eventData := "{}" |}] |}.

(** The second event of block 10 and the event of block 30. *)
Definition sample_later_events : list Event :=
  [{| blockNumber := 10; transactionHash := "0xb";
      eventName := Some "Transfer"; args := Some (Some "{}") |};
   {| blockNumber := 30; transactionHash := "0xc";
      eventName := Some "Transfer"; args := Some (Some "{}") |}].

(** The state after these two events. *)
Definition sample_history_final : state :=
  {| blockTimestampCache := <[ 30 := 0 ]> {[ 10 := 86400 ]};
     lookups := [10; 30];
     records :=
       [{| timestamp := "1970-01-02T00:00:00.000Z"; r_blockNumber := 10;
           r_transactionHash := "0xa"; r_eventName := "Transfer"; eventData := "{}" |};
        {| timestamp := "1970-01-02T00:00:00.000Z"; r_blockNumber := 10;
           r_transactionHash := "0xb"; r_eventName := "Transfer"; eventData := "{}" |};
        {| timestamp := "1970-01-01T00:00:00.000Z"; r_blockNumber := 30;
           r_transactionHash := "0xc"; r_eventName := "Transfer"; eventData := "{}" |}] |}.

End HistoryVocabulary.

(** ** The calendar *)

(** The first second of the year 10000: from there on the ISO text of a
    time starts with an expanded year of six digits and a sign. *)
Definition year_10000 : Z := 253402300800.

(** [civil_from_days] on the day [doe] of the 400-year era [era]. *)
Definition civil_of_era (era doe : Z) : Z * Z * Z :=
  let yoe := (doe - doe / 1460 + doe / 36524 - doe / 146096) / 365 in
  let y := yoe + era * 400 in
  let doy := doe - (365 * yoe + yoe / 4 - yoe / 100) in
  let mp := (5 * doy + 2) / 153 in
  let d := doy - (153 * mp + 2) / 5 + 1 in
  let m := if mp <? 10 then mp + 3 else mp - 9 in
  (if m <=? 2 then y + 1 else y, m, d).

(** The day number of a year, month and day. *)
Definition days_from_civil (y m d : Z) : Z :=
  let y' := if m <=? 2 then y - 1 else y in
  let era := y' / 400 in
  let yoe := y' - era * 400 in
  let mp := if 2 <? m then m - 3 else m + 9 in
  let doy := (153 * mp + 2) / 5 + d - 1 in
  let doe := yoe * 365 + yoe / 4 - yoe / 100 + doy in
  era * 146097 + doe - 719468.

(** [f] holds of the [n] integers from [z] on. *)
Fixpoint all_from (f : Z -> bool) (n : nat) (z : Z) : bool :=
  match n with
  | O => true
  | S k => if f z then all_from f k (z + 1) else false
  end.

(** The day [doe] of an era converts back to itself, and its month, day and
    year of the era are in range. *)
Definition day_ok (doe : Z) : bool :=
  let '(y, m, d) := civil_of_era 0 doe in
  (days_from_civil y m d =? doe - 719468)
  && (1 <=? m) && (m <=? 12) && (1 <=? d) && (d <=? 31) && (0 <=? y) && (y <=? 400)
  && ((146037 <=? doe) || (y <=? 399)).

(** The padded decimal of [n] has [w] characters and reads back as [n]. *)
Definition pad_ok (w : nat) (n : Z) : bool :=
  Nat.eqb (String.length (pad w n)) w
  && match all_digits 10 (pad w n) with Some v => v =? n | None => false end.

(** The first ten characters of the ISO text of a day with a year of four
    digits. *)
Definition date_text (y m d : Z) : string :=
  pad 4 y ++ "-" ++ pad 2 m ++ "-" ++ pad 2 d.


(** ** The range in which the numbers of the embedding are the program's

    The embedding computes with integers where the program computes with
    binary64 numbers, writes every integer in plain decimal and knows the
    ASCII white space only.  The two agree on text that is ASCII and on
    integers that are safe (below 2^53 in magnitude); the properties that
    depend on it are stated for such input. *)

(** [Number.isSafeInteger] *)
Definition safe_integer (z : Z) : bool := Z.abs z <? 2 ^ 53.

Definition ascii_text (s : string) : bool := all_chars (fun c => code c <? 128) s.

(** A record of ASCII text whose timestamp, when it reads as a number, is a
    safe integer. *)
Definition plain_record (r : CandleRecord) : bool :=
  ascii_text (Unix_Timestamp r) && ascii_text (Open r) && ascii_text (High r)
  && ascii_text (Low r) && ascii_text (Close r) && ascii_text (tVol r)
  && match parseInt (Unix_Timestamp r) with
     | Some t => safe_integer t
     | None => true
     end.

Definition plain_records (records : list CandleRecord) : Prop :=
  forallb plain_record records = true.

(** A bucket width that is a safe integer, or NaN. *)
Definition safe_width (tf : jsnum) : Prop :=
  match tf with
  | Some w => safe_integer w = true
  | None => True
  end.

(** Every record has a timestamp that [getCandleRecords] reads as a safe
    integer. *)
Definition stamps_safe (records : list CandleRecord) : Prop :=
  forallb
    (fun r => match record_stamp r with Some t => safe_integer t | None => false end)
    records = true.


(** ** UTC days *)

Section DayVocabulary.

Import Collector.

(** The timestamps of the transaction indices 1 to [n] are before the year
    10000. *)
Definition before_year_10000 (c : contract) (n : Z) : Prop :=
  forall i ts, 1 <= i <= n -> txTimeStamp c i = Ok ts -> Z.of_N ts < year_10000.

(** The timestamp of the latest entry whose volume is available. *)
Fixpoint last_available_stamp (data : list tVolEntry) : option Z :=
  match data with
  | [] => None
  | e :: rest =>
      match last_available_stamp rest with
      | Some t => Some t
      | None => if String.eqb (e_tVol e) "Error" then None else Some (Timestamp e)
      end
  end.

(** [timestamp] falls on the UTC day of [previous]. *)
Definition same_utc_day (previous : option Z) (timestamp : Z) : bool :=
  match previous with
  | Some t => t / 86400 =? timestamp / 86400
  | None => false
  end.

(** An entry of [tVolData] of a tick before the year 10000. *)
Definition dated (e : tVolEntry) : Prop :=
  utcDate e = utcDate_of (Timestamp e) /\ 0 <= Timestamp e < year_10000.

(** The UTC day of the timestamp a row carries. *)
Definition row_day (row : list cell) : option Z :=
  match row !! 2%nat with
  | Some (Number timestamp) => Some (timestamp / 86400)
  | _ => None
  end.

(** The sum of the valid volumes of the rows of one UTC day. *)
Definition utc_day_volume (day : Z) (rows : list (list cell)) : Z :=
  fold_right
    (fun row s =>
       match row_day row with
       | Some d => if d =? day then row_volume row + s else s
       | None => s
       end)
    0 rows.

(** A row of a tick before the year 10000. *)
Definition dated_row (row : list cell) : Prop :=
  exists timestamp,
    0 <= timestamp < year_10000
    /\ row !! 2%nat = Some (Number timestamp)
    /\ row !! 9%nat = Some (Text (utcDate_of timestamp)).

(** A contract with two transactions, on the first and on the second day
    of the year 10000, with volumes 5 and 7. *)
Definition year_10000_contract : contract :=
  {| totalTx := Ok 2%N;
     txTimeStamp := fun i => Ok (Z.to_N (year_10000 + (i - 1) * 86400));
     candleStickData := fun t =>
       Ok {| time := Z.to_N t; open := 1; close := 2; high := 3; low := 1 |};
     tVol := fun t => if t =? year_10000 then Ok 5%N else Ok 7%N |}.

(** The rows the collector writes for it. *)
Definition year_10000_rows : list (list cell) :=
  [header;
   [Number 2; Number 1; Number 253402300800; Text "Sat, 01 Jan 10000 00:00:00 GMT";
    Text "1"; Text "2"; Text "3"; Text "1"; Text "5"; Text "+010000-01";
    Text "12"; Text "5"; Text "5"];
   [Number 2; Number 2; Number 253402387200; Text "Sun, 02 Jan 10000 00:00:00 GMT";
    Text "1"; Text "2"; Text "3"; Text "1"; Text "7"; Text "+010000-01";
    Text "12"; Text "12"; Text "12"]].

End DayVocabulary.


(** * Properties *)

Local Open Scope list_scope.

(** ** The primitives on concrete inputs *)

Example parseInt_examples :
  parseInt "  -12abc" = Some (-12) /\ parseInt "" = NaN /\ parseInt "abc" = NaN
  /\ parseInt "1e+21" = Some 1 /\ parseInt "NaN" = NaN
  /\ parseInt "0x1F" = Some 0 /\ parseInt_any "0x1F" = Some 31
  /\ parseInt_any "-12" = Some (-12).
Proof. repeat split. Qed.

Example BigInt_examples :
  BigInt "100" = Ok 100 /\ BigInt "" = Ok 0 /\ BigInt " 0x1F " = Ok 31
  /\ BigInt "Error" = Throw SyntaxError /\ BigInt "1.5" = Throw SyntaxError
  /\ BigInt "-5" = Ok (-5) /\ BigInt "12 3" = Throw SyntaxError.
Proof. repeat split. Qed.

Example parseFloat_examples :
  parseFloat "0.1" = S754_finite false 7205759403792794 (-56)
  /\ parseFloat "1e23" = S754_finite false 5960464477539062 24
  /\ parseFloat "Error" = fNaN /\ parseFloat "" = fNaN
  /\ parseFloat "-Infinity" = S754_infinity true
  /\ parseFloat "1e400" = S754_infinity false
  /\ parseFloat "9007199254740993" = S754_finite false 4503599627370496 1
  /\ fadd (parseFloat "0.1") (parseFloat "0.2") = parseFloat "0.30000000000000004".
Proof. vm_compute. repeat split. Qed.

Example Date_examples :
  toISOString (Date_new (Some 0)) = Ok "1970-01-01T00:00:00.000Z"
  /\ toISOString (Date_new (Some 1704067200000)) = Ok "2024-01-01T00:00:00.000Z"
  /\ toISOString (Date_new (Some 8640000000000000)) = Ok "+275760-09-13T00:00:00.000Z"
  /\ toISOString (Date_new (Some 8640000000000001)) = Throw RangeError
  /\ toISOString (Date_new NaN) = Throw RangeError
  /\ toUTCString (Date_new (Some 1704067200000)) = "Mon, 01 Jan 2024 00:00:00 GMT".
Proof. vm_compute. repeat split. Qed.

(** ** Decimal text and back *)

Section Decimal.

Lemma code_digit_char d : 0 <= d < 10 -> code (digit_char d) = 48 + d.
Proof.
  intros H.
  assert (d = 0 \/ d = 1 \/ d = 2 \/ d = 3 \/ d = 4 \/ d = 5 \/ d = 6 \/ d = 7
          \/ d = 8 \/ d = 9) as Hd by lia.
  repeat (destruct Hd as [-> | Hd]; [reflexivity |]). subst. reflexivity.
Qed.

Lemma digit_in_digit_char d : 0 <= d < 10 -> digit_in 10 (digit_char d) = Some d.
Proof.
  intros H. unfold digit_in. rewrite code_digit_char by exact H.
  replace ((48 <=? 48 + d) && (48 + d <=? 57)) with true
    by (symmetry; apply andb_true_iff; split; apply Z.leb_le; lia).
  replace (48 + d - 48) with d by lia.
  replace (d <? 10) with true by (symmetry; apply Z.ltb_lt; lia).
  reflexivity.
Qed.

(** Scanning what [digits_of] wrote gives the number back. *)
Lemma scan_digits_of f :
  forall n rest k, 0 <= n < 2 ^ Z.of_nat (S f) ->
    exists j, scan 10 0 k (digits_of (S f) n rest) = scan 10 n (S j) rest.
Proof.
  induction f as [| f IH]; intros n rest k Hn.
  - change (2 ^ Z.of_nat 1) with 2 in Hn.
    simpl digits_of. replace (n <? 10) with true by (symmetry; apply Z.ltb_lt; lia).
    rewrite Z.mod_small by lia. simpl scan.
    rewrite digit_in_digit_char by lia. exists k. reflexivity.
  - remember (S f) as g. simpl digits_of. destruct (Z.ltb_spec n 10) as [Hlt | Hge].
    + rewrite Z.mod_small by lia. simpl scan.
      rewrite digit_in_digit_char by lia. exists k. reflexivity.
    + assert (0 <= n / 10 < 2 ^ Z.of_nat g) as Hq.
      { split; [apply Z.div_pos; lia |].
        apply Z.div_lt_upper_bound; [lia |].
        replace (Z.of_nat (S g)) with (Z.succ (Z.of_nat g)) in Hn by lia.
        rewrite Z.pow_succ_r in Hn by lia. lia. }
      subst g.
      destruct (IH (n / 10) (String (digit_char (n mod 10)) rest) k Hq) as [j Hj].
      rewrite Hj. simpl scan.
      pose proof (Z.mod_pos_bound n 10 ltac:(lia)) as Hm.
      rewrite digit_in_digit_char by lia.
      replace (n / 10 * 10 + n mod 10) with n
        by (rewrite (Z.div_mod n 10) at 1 by lia; lia).
      exists (S j). reflexivity.
Qed.

Lemma fuel_enough n : 0 <= n -> 0 <= n < 2 ^ Z.of_nat (S (Z.to_nat (Z.log2 n))).
Proof.
  intros Hn. split; [exact Hn |].
  replace (Z.of_nat (S (Z.to_nat (Z.log2 n)))) with (Z.succ (Z.log2 n))
    by (pose proof (Z.log2_nonneg n); lia).
  destruct (Z.eq_dec n 0) as [-> | Hne]; [reflexivity |].
  apply Z.log2_spec. lia.
Qed.

Lemma all_digits_nat_toString n : 0 <= n -> all_digits 10 (nat_toString n) = Some n.
Proof.
  intros Hn. unfold all_digits, nat_toString.
  destruct (scan_digits_of _ n "" 0%nat (fuel_enough n Hn)) as [j Hj].
  rewrite Hj. reflexivity.
Qed.

Lemma parse_prefix_nat_toString n : 0 <= n -> parse_prefix (nat_toString n) = Some n.
Proof.
  intros Hn. unfold parse_prefix, nat_toString.
  destruct (scan_digits_of _ n "" 0%nat (fuel_enough n Hn)) as [j Hj].
  rewrite Hj. reflexivity.
Qed.

End Decimal.

(** ** Text without white space, text of digits *)

Section Characters.

Lemma is_dec_code c : is_dec c = true -> 48 <= code c <= 57.
Proof.
  unfold is_dec, digit_in. intros H.
  repeat match type of H with
         | context [?a <=? ?b] => destruct (Z.leb_spec a b); simpl in H
         | context [?a <? ?b] => destruct (Z.ltb_spec a b); simpl in H
         end; try discriminate H; lia.
Qed.

Lemma is_dec_not_ws c : is_dec c = true -> is_ws c = false.
Proof.
  intros H. apply is_dec_code in H. unfold is_ws.
  repeat match goal with
         | |- context [?a =? ?b] =>
             replace (a =? b) with false by (symmetry; apply Z.eqb_neq; lia)
         end.
  reflexivity.
Qed.

Lemma is_dec_neq c k : is_dec c = true -> is_dec k = false -> Ascii.eqb c k = false.
Proof.
  intros Hc Hk. destruct (Ascii.eqb_spec c k) as [-> | Hne]; [congruence | reflexivity].
Qed.

Lemma is_dec_radix_of c : is_dec c = true -> radix_of c = None.
Proof.
  intros H. unfold radix_of.
  rewrite !(is_dec_neq c) by (exact H || reflexivity). reflexivity.
Qed.

Lemma is_dec_digit_char d : 0 <= d < 10 -> is_dec (digit_char d) = true.
Proof. intros H. unfold is_dec. rewrite digit_in_digit_char by exact H. reflexivity. Qed.

Lemma all_dec_digits_of f :
  forall n acc, 0 <= n -> all_chars is_dec acc = true ->
    all_chars is_dec (digits_of f n acc) = true.
Proof.
  induction f as [| f IH]; intros n acc Hn Hacc; [exact Hacc |].
  pose proof (Z.mod_pos_bound n 10 ltac:(lia)) as Hm.
  simpl. destruct (n <? 10).
  - simpl. rewrite is_dec_digit_char by lia. exact Hacc.
  - apply IH; [apply Z.div_pos; lia |].
    simpl. rewrite is_dec_digit_char by lia. exact Hacc.
Qed.

Lemma digits_of_nonempty f :
  forall n acc, acc <> "" -> digits_of f n acc <> "".
Proof.
  induction f as [| f IH]; intros n acc Hacc; [exact Hacc |].
  simpl. destruct (n <? 10); [discriminate | apply IH; discriminate].
Qed.

(** The decimal text of a natural number: a digit, then digits. *)
Lemma nat_toString_shape n :
  0 <= n -> exists c r, nat_toString n = String c r /\ is_dec c = true
                        /\ all_chars is_dec r = true.
Proof.
  intros Hn. unfold nat_toString.
  set (f := Z.to_nat (Z.log2 n)).
  pose proof (all_dec_digits_of (S f) n "" Hn eq_refl) as Hall.
  destruct (digits_of (S f) n "") as [| c r] eqn:E.
  - exfalso. simpl in E. destruct (n <? 10); [discriminate |].
    revert E. apply digits_of_nonempty. discriminate.
  - simpl in Hall. apply andb_true_iff in Hall as [Hc Hr]. eauto.
Qed.

Lemma all_chars_weaken (P Q : ascii -> bool) s :
  (forall c, P c = true -> Q c = true) -> all_chars P s = true -> all_chars Q s = true.
Proof.
  intros HPQ. induction s as [| c r IH]; [reflexivity |].
  simpl. intros H. apply andb_true_iff in H as [Hc Hr].
  rewrite (HPQ c Hc), (IH Hr). reflexivity.
Qed.

Lemma is_dec_is_not_ws c : is_dec c = true -> not_ws c = true.
Proof. intros H. unfold not_ws. rewrite is_dec_not_ws by exact H. reflexivity. Qed.

Lemma skip_ws_id s : all_chars not_ws s = true -> skip_ws s = s.
Proof.
  destruct s as [| c r]; [reflexivity |]. simpl. intros H.
  apply andb_true_iff in H as [Hc _]. unfold not_ws in Hc.
  destruct (is_ws c); [discriminate | reflexivity].
Qed.

Lemma rev_string_all P s :
  forall acc, all_chars P acc = true -> all_chars P s = true ->
    all_chars P (rev_string acc s) = true.
Proof.
  induction s as [| c r IH]; intros acc Hacc Hs; [exact Hacc |].
  simpl in *. apply andb_true_iff in Hs as [Hc Hr].
  apply IH; [| exact Hr]. simpl. rewrite Hc. exact Hacc.
Qed.

Lemma rev_string_rev_string s :
  forall a b, rev_string a (rev_string b s) = rev_string (s ++ a) b.
Proof.
  induction s as [| c r IH]; intros a b; [reflexivity |].
  simpl. rewrite IH. reflexivity.
Qed.

Lemma append_empty s : (s ++ "")%string = s.
Proof.
  induction s as [| c r IH]; [reflexivity |].
  change (String c (r ++ "")%string = String c r). rewrite IH. reflexivity.
Qed.

Lemma trim_id s : all_chars not_ws s = true -> trim s = s.
Proof.
  intros H. unfold trim. rewrite (skip_ws_id s H).
  rewrite skip_ws_id by (apply rev_string_all; [reflexivity | exact H]).
  rewrite rev_string_rev_string. simpl. apply append_empty.
Qed.

End Characters.

(** ** Rendering an integer and reading it back *)

Section RoundTrip.

Lemma StringToBigInt_toString z : StringToBigInt (bigint_toString z) = Some z.
Proof.
  unfold bigint_toString. destruct (Z.ltb_spec z 0) as [Hneg | Hpos].
  - destruct (nat_toString_shape (- z) ltac:(lia)) as (c & r & E & Hc & Hr).
    unfold StringToBigInt. rewrite trim_id.
    + simpl. rewrite all_digits_nat_toString by lia. simpl. f_equal. lia.
    + simpl. rewrite E. simpl. rewrite (is_dec_is_not_ws c Hc). simpl.
      apply (all_chars_weaken is_dec); [apply is_dec_is_not_ws | exact Hr].
  - destruct (nat_toString_shape z Hpos) as (c & r & E & Hc & Hr).
    pose proof (all_digits_nat_toString z Hpos) as Hd.
    unfold StringToBigInt. rewrite trim_id.
    + rewrite E in *.
      rewrite (is_dec_neq c "-"), (is_dec_neq c "+") by (exact Hc || reflexivity).
      destruct r as [| c' r']; [exact Hd |].
      simpl in Hr. apply andb_true_iff in Hr as [Hc' _].
      rewrite (is_dec_radix_of c' Hc'). destruct (Ascii.eqb c "0"); exact Hd.
    + rewrite E. simpl. rewrite (is_dec_is_not_ws c Hc). simpl.
      apply (all_chars_weaken is_dec); [apply is_dec_is_not_ws | exact Hr].
Qed.

Lemma BigInt_toString z : BigInt (bigint_toString z) = Ok z.
Proof. unfold BigInt. rewrite StringToBigInt_toString. reflexivity. Qed.

Lemma parseInt_toString z : parseInt (bigint_toString z) = Some z.
Proof.
  unfold bigint_toString. destruct (Z.ltb_spec z 0) as [Hneg | Hpos].
  - unfold parseInt. simpl. rewrite parse_prefix_nat_toString by lia.
    simpl. f_equal. lia.
  - destruct (nat_toString_shape z Hpos) as (c & r & E & Hc & Hr).
    pose proof (parse_prefix_nat_toString z Hpos) as Hd.
    unfold parseInt. rewrite skip_ws_id.
    + rewrite E in *.
      rewrite (is_dec_neq c "-"), (is_dec_neq c "+") by (exact Hc || reflexivity).
      exact Hd.
    + rewrite E. simpl. rewrite (is_dec_is_not_ws c Hc). simpl.
      apply (all_chars_weaken is_dec); [apply is_dec_is_not_ws | exact Hr].
Qed.

(** A number is recovered from the property key it turned into. *)
Lemma parseInt_Number_toString x : parseInt (Number_toString x) = x.
Proof. destruct x as [z |]; [apply parseInt_toString | reflexivity]. Qed.

Lemma Number_toString_inj x y : Number_toString x = Number_toString y -> x = y.
Proof.
  intros H. rewrite <- (parseInt_Number_toString x), <- (parseInt_Number_toString y).
  rewrite H. reflexivity.
Qed.

(** The key of a number is never the name of an inherited property, so
    reading [aggregatedCandles[bucketTimestamp]] sees own properties only. *)
Lemma number_key_not_inherited (A : Type) (o : Obj.t A) x :
  Obj.get o (Number_toString x) =
  match Obj.own o (Number_toString x) with
  | Some a => Obj.Own a
  | None => Obj.Undefined
  end.
Proof.
  unfold Obj.get. destruct (Obj.own o (Number_toString x)); [reflexivity |].
  destruct (existsb (String.eqb (Number_toString x)) Obj.inherited) eqn:E; [| reflexivity].
  apply existsb_exists in E as (name & Hin & Heq).
  apply String.eqb_eq in Heq.
  pose proof (parseInt_Number_toString x) as Hp. rewrite Heq in Hp.
  destruct x as [z |].
  - simpl in Hin.
    repeat (destruct Hin as [<- | Hin]; [discriminate Hp |]). destruct Hin.
  - simpl in Hin, Heq.
    repeat (destruct Hin as [<- | Hin]; [discriminate Heq |]). destruct Hin.
Qed.

End RoundTrip.

(** ** Objects: own properties and their enumeration *)

Section Objects.

Context {A : Type}.
Implicit Types (o : Obj.t A) (k : string) (v : A).

Lemma own_set_eq o k v : Obj.own (Obj.set o k v) k = Some v.
Proof.
  induction o as [| [k' v'] o IH]; simpl.
  - rewrite String.eqb_refl. reflexivity.
  - destruct (String.eqb k' k) eqn:E; simpl; rewrite E; [reflexivity | exact IH].
Qed.

Lemma own_set_ne o k k' v : k <> k' -> Obj.own (Obj.set o k v) k' = Obj.own o k'.
Proof.
  intros Hne. induction o as [| [k0 v0] o IH]; simpl.
  - destruct (String.eqb_spec k k'); [contradiction | reflexivity].
  - destruct (String.eqb_spec k0 k) as [-> | Hk]; simpl.
    + destruct (String.eqb_spec k k'); [contradiction | reflexivity].
    + destruct (String.eqb_spec k0 k'); [reflexivity | exact IH].
Qed.

Lemma own_None o k : Obj.own o k = None <-> ~ In k (map fst o).
Proof.
  induction o as [| [k' v'] o IH]; simpl.
  - tauto.
  - destruct (String.eqb_spec k' k) as [-> | Hne].
    + split; [discriminate | intros H; exfalso; apply H; left; reflexivity].
    + rewrite IH. tauto.
Qed.

Lemma own_Some_In o k v : Obj.own o k = Some v -> In (k, v) o.
Proof.
  induction o as [| [k' v'] o IH]; simpl; [discriminate |].
  destruct (String.eqb_spec k' k) as [-> | Hne].
  - intros [= ->]. left. reflexivity.
  - intros H. right. exact (IH H).
Qed.

Lemma In_own o k v : List.NoDup (map fst o) -> In (k, v) o -> Obj.own o k = Some v.
Proof.
  induction o as [| [k' v'] o IH]; simpl; [tauto |].
  intros Hnd [[= -> ->] | Hin].
  - rewrite String.eqb_refl. reflexivity.
  - inversion Hnd as [| ? ? Hnotin Hnd']; subst.
    destruct (String.eqb_spec k' k) as [-> | Hne].
    + exfalso. apply Hnotin. apply (in_map fst) in Hin. exact Hin.
    + exact (IH Hnd' Hin).
Qed.

Lemma keys_set_old o k v a :
  Obj.own o k = Some a -> map fst (Obj.set o k v) = map fst o.
Proof.
  induction o as [| [k' v'] o IH]; simpl; [discriminate |].
  destruct (String.eqb_spec k' k) as [-> | Hne]; simpl; [reflexivity |].
  intros H. rewrite (IH H). reflexivity.
Qed.

Lemma keys_set_new o k v :
  Obj.own o k = None -> map fst (Obj.set o k v) = map fst o ++ [k].
Proof.
  induction o as [| [k' v'] o IH]; simpl; [reflexivity |].
  destruct (String.eqb_spec k' k) as [-> | Hne]; simpl; [discriminate |].
  intros H. rewrite (IH H). reflexivity.
Qed.

Lemma NoDup_snoc (l : list string) k : List.NoDup l -> ~ In k l -> List.NoDup (l ++ [k]).
Proof.
  induction l as [| x l IH]; simpl; intros Hnd Hk.
  - constructor; [tauto | constructor].
  - inversion Hnd as [| ? ? Hx Hl]; subst. constructor.
    + rewrite in_app_iff. simpl. intros [H | [H | []]]; [tauto | subst; tauto].
    + apply IH; tauto.
Qed.

(** Overwriting the value of a property moves nothing. *)
Lemma set_old_split o k v a :
  Obj.own o k = Some a ->
  exists o1 o2, o = o1 ++ (k, a) :: o2 /\ Obj.set o k v = o1 ++ (k, v) :: o2
                /\ Obj.own o1 k = None.
Proof.
  induction o as [| [k' v'] o IH]; simpl; [discriminate |].
  destruct (String.eqb_spec k' k) as [-> | Hne].
  - intros [= ->]. exists [], o. auto.
  - intros H. destruct (IH H) as (o1 & o2 & -> & E & Hn).
    exists ((k', v') :: o1), o2. simpl. rewrite E.
    destruct (String.eqb_spec k' k); [contradiction | auto].
Qed.

Lemma set_new o k v : Obj.own o k = None -> Obj.set o k v = o ++ [(k, v)].
Proof.
  induction o as [| [k' v'] o IH]; simpl; [reflexivity |].
  destruct (String.eqb_spec k' k) as [-> | Hne]; [discriminate |].
  intros H. rewrite (IH H). reflexivity.
Qed.

Lemma insert_index_perm i (e : string * A) l :
  Permutation (map snd (Obj.insert_index i e l)) (e :: map snd l).
Proof.
  induction l as [| [j e'] l IH]; simpl; [reflexivity |].
  destruct (i <? j); simpl; [reflexivity |].
  rewrite IH. apply perm_swap.
Qed.

Lemma entries_perm o : Permutation (Obj.entries o) o.
Proof.
  unfold Obj.entries, Obj.string_entries.
  induction o as [| [k v] o IH]; simpl; [reflexivity |].
  destruct (Obj.array_index k) as [i |]; simpl.
  - rewrite (Permutation_app_comm _ (List.filter _ o)).
    rewrite insert_index_perm.
    rewrite Permutation_app_comm. simpl. apply perm_skip. exact IH.
  - rewrite <- Permutation_middle. apply perm_skip. exact IH.
Qed.

End Objects.

(** ** Sorting with a comparator that subtracts integer keys *)

Section Sorting.

Context {A : Type} (stamp : A -> jsnum).

Local Abbreviation by_stamp := (by_stamp stamp).
Local Abbreviation stamps := (stamps stamp).

Lemma insert_perm (cmp : A -> A -> jsnum) x l :
  Permutation (Arr.insert cmp x l) (x :: l).
Proof.
  induction l as [| y l IH]; simpl; [reflexivity |].
  destruct (Arr.before cmp y x); [| reflexivity].
  rewrite IH. apply perm_swap.
Qed.

Lemma sort_perm (cmp : A -> A -> jsnum) l : Permutation (Arr.sort cmp l) l.
Proof.
  induction l as [| x l IH]; simpl; [reflexivity |].
  rewrite insert_perm. apply perm_skip. exact IH.
Qed.

Lemma insert_sorted x z l zs :
  stamp x = Some z -> stamps l zs -> Sorted Z.le zs ->
  exists zs', stamps (Arr.insert by_stamp x l) zs' /\ Sorted Z.le zs'
              /\ Permutation zs' (z :: zs).
Proof.
  intros Hx. revert zs. induction l as [| y l IH]; intros zs Hl Hs.
  - destruct zs; [| discriminate]. exists [z]. unfold stamps. simpl. rewrite Hx. auto.
  - destruct zs as [| w zs]; [discriminate |].
    unfold stamps in Hl. simpl in Hl. injection Hl as Hy Hl.
    assert (Arr.before by_stamp y x = (w - z <? 0)) as Hb
      by (unfold Arr.before, by_stamp; rewrite Hx, Hy; reflexivity).
    simpl. rewrite Hb.
    destruct (Z.ltb_spec (w - z) 0) as [Hlt | Hge].
    + apply Sorted_inv in Hs as [Hs Hhd].
      destruct (IH zs Hl Hs) as (zs' & Hst & Hso & Hp).
      exists (w :: zs'). split; [| split].
      * unfold stamps in *. simpl. rewrite Hy, Hst. reflexivity.
      * constructor; [exact Hso |].
        destruct zs' as [| u zs']; [constructor |]. constructor.
        assert (In u (z :: zs)) as Hu by (eapply Permutation_in; [exact Hp | left; reflexivity]).
        destruct Hu as [<- | Hu]; [lia |].
        destruct zs as [| u0 zs0]; [destruct Hu |].
        assert (StronglySorted Z.le (w :: u0 :: zs0)) as Hss.
        { apply Sorted_StronglySorted; [intros a b c; lia |].
          constructor; assumption. }
        apply StronglySorted_inv in Hss as [_ Hall].
        rewrite List.Forall_forall in Hall. apply Hall. exact Hu.
      * rewrite Hp. apply perm_swap.
    + exists (z :: w :: zs). split; [| split].
      * unfold stamps. simpl. rewrite Hx, Hy, Hl. reflexivity.
      * constructor; [exact Hs | constructor; lia].
      * reflexivity.
Qed.

Lemma sort_sorted l zs :
  stamps l zs ->
  exists zs', stamps (Arr.sort by_stamp l) zs' /\ Sorted Z.le zs' /\ Permutation zs' zs.
Proof.
  revert zs. induction l as [| x l IH]; intros zs Hl.
  - destruct zs; [| discriminate]. exists []. repeat split; constructor.
  - destruct zs as [| z zs]; [discriminate |].
    unfold stamps in Hl. simpl in Hl. injection Hl as Hx Hl.
    destruct (IH zs Hl) as (zs1 & Hst & Hso & Hp).
    destruct (insert_sorted x z _ zs1 Hx Hst Hso) as (zs2 & Hst2 & Hso2 & Hp2).
    exists zs2. split; [exact Hst2 | split; [exact Hso2 |]].
    rewrite Hp2. apply perm_skip. exact Hp.
Qed.

(** Sorted without duplicates is strictly sorted. *)
Lemma sorted_nodup_strict (zs : list Z) :
  Sorted Z.le zs -> List.NoDup zs -> StronglySorted Z.lt zs.
Proof.
  intros Hs Hnd. apply Sorted_StronglySorted in Hs; [| intros a b c; lia].
  induction zs as [| z zs IH]; [constructor |].
  apply StronglySorted_inv in Hs as [Hs Hall].
  inversion Hnd as [| ? ? Hz Hnd']; subst.
  constructor; [apply IH; assumption |].
  rewrite List.Forall_forall in *. intros u Hu. specialize (Hall u Hu).
  assert (u <> z) by (intros ->; contradiction). lia.
Qed.

End Sorting.

(** ** Keyed folds *)

Section KeyedFold.

Context {R A : Type}.
Variable parse : R -> option A.
Variable key : R -> string.
Variable merge : A -> A -> A.

Local Abbreviation upsert := (upsert merge).
Local Abbreviation keyed_step := (keyed_step parse key merge).
Local Abbreviation keyed_fold := (keyed_fold parse key merge).

Lemma keyed_fold_nil o : keyed_fold [] o = o.
Proof. reflexivity. Qed.

Lemma keyed_fold_cons r records o :
  keyed_fold (r :: records) o = keyed_fold records (keyed_step o r).
Proof. reflexivity. Qed.

Lemma keyed_fold_app l1 l2 o :
  keyed_fold (l1 ++ l2) o = keyed_fold l2 (keyed_fold l1 o).
Proof. apply fold_left_app. Qed.

Lemma own_upsert_ne o k k' t : k <> k' -> Obj.own (upsert o k t) k' = Obj.own o k'.
Proof.
  intros Hne. unfold upsert. destruct (Obj.own o k); apply own_set_ne; exact Hne.
Qed.

Lemma own_upsert_new o k t : Obj.own o k = None -> Obj.own (upsert o k t) k = Some t.
Proof. intros H. unfold upsert. rewrite H. apply own_set_eq. Qed.

Lemma keys_upsert o k t :
  map fst (upsert o k t) =
  match Obj.own o k with Some _ => map fst o | None => map fst o ++ [k] end.
Proof.
  unfold upsert. destruct (Obj.own o k) eqn:E.
  - eapply keys_set_old. exact E.
  - apply keys_set_new. exact E.
Qed.

Lemma keyed_fold_keys records :
  forall o, List.NoDup (map fst o) ->
    List.NoDup (map fst (keyed_fold records o))
    /\ forall k, In k (map fst (keyed_fold records o))
                 <-> In k (map fst o)
                     \/ exists r t, In r records /\ parse r = Some t /\ key r = k.
Proof.
  induction records as [| r records IH]; intros o Hnd;
    [rewrite keyed_fold_nil | rewrite keyed_fold_cons].
  - split; [exact Hnd |]. intros k. split; [auto |].
    intros [H | (r & t & [] & _)]. exact H.
  - assert (List.NoDup (map fst (keyed_step o r))) as Hnd'.
    { unfold keyed_step. destruct (parse r); [| exact Hnd].
      rewrite keys_upsert. destruct (Obj.own o (key r)) eqn:E; [exact Hnd |].
      apply NoDup_snoc; [exact Hnd | apply own_None; exact E]. }
    destruct (IH _ Hnd') as [Hn Hk]. split; [exact Hn |].
    intros k. rewrite Hk. clear Hk IH. cbn [In].
    unfold keyed_step. destruct (parse r) as [t |] eqn:Ep.
    + rewrite keys_upsert. destruct (Obj.own o (key r)) eqn:E.
      * split.
        -- intros [H | (r' & t' & Hin & Hp & Hkey)]; [auto |].
           right. exists r', t'. auto.
        -- intros [H | (r' & t' & [<- | Hin] & Hp & Hkey)]; [auto | |].
           ++ left. subst k. apply own_Some_In in E. apply (in_map fst) in E. exact E.
           ++ right. exists r', t'. auto.
      * rewrite in_app_iff. simpl. split.
        -- intros [[H | [<- | []]] | (r' & t' & Hin & Hp & Hkey)]; [auto | |].
           ++ right. exists r, t. auto.
           ++ right. exists r', t'. auto.
        -- intros [H | (r' & t' & [<- | Hin] & Hp & Hkey)]; [auto | |].
           ++ left. right. left. exact Hkey.
           ++ right. exists r', t'. auto.
    + split.
      * intros [H | (r' & t' & Hin & Hp & Hkey)]; [auto |]. right. exists r', t'. auto.
      * intros [H | (r' & t' & [<- | Hin] & Hp & Hkey)]; [auto | congruence |].
        right. exists r', t'. auto.
Qed.

(** A property of the stored values that new candles have and merging
    keeps holds of every stored value. *)
Lemma keyed_fold_invariant (P : string -> A -> Prop) records :
  (forall r t, In r records -> parse r = Some t -> P (key r) t) ->
  (forall k c t, P k c -> P k t -> P k (merge c t)) ->
  forall o, (forall k v, In (k, v) o -> P k v) ->
    forall k v, In (k, v) (keyed_fold records o) -> P k v.
Proof.
  intros Hnew Hmerge. induction records as [| r records IH]; intros o Ho;
    [rewrite keyed_fold_nil | rewrite keyed_fold_cons].
  - exact Ho.
  - apply IH.
    + intros r' t' Hin. apply Hnew. right. exact Hin.
    + unfold keyed_step. destruct (parse r) as [t |] eqn:Ep; [| exact Ho].
      unfold upsert. destruct (Obj.own o (key r)) as [c |] eqn:E.
      * destruct (set_old_split o (key r) (merge c t) c E) as (o1 & o2 & Eo & -> & _).
        intros k v Hin. rewrite in_app_iff in Hin. simpl in Hin.
        destruct Hin as [Hin | [[= <- <-] | Hin]].
        -- apply Ho. rewrite Eo, in_app_iff. auto.
        -- apply Hmerge; [| apply (Hnew r t); [left; reflexivity | exact Ep]].
           apply Ho. rewrite Eo, in_app_iff. right. left. reflexivity.
        -- apply Ho. rewrite Eo, in_app_iff. right. right. exact Hin.
      * rewrite set_new by exact E. intros k v Hin. rewrite in_app_iff in Hin.
        destruct Hin as [Hin | [[= <- <-] | []]]; [apply Ho; exact Hin |].
        apply (Hnew r t); [left; reflexivity | exact Ep].
Qed.

(** An additive measure of the stored values adds up the measures of the
    folded records. *)
Variable measure : A -> Z.

Local Abbreviation total := (total measure).
Local Abbreviation folded_total := (folded_total parse measure).

Lemma total_app o1 o2 : total (o1 ++ o2) = total o1 + total o2.
Proof. induction o1 as [| e o1 IH]; simpl; [reflexivity | rewrite IH; lia]. Qed.

Lemma total_perm o1 o2 : Permutation o1 o2 -> total o1 = total o2.
Proof. induction 1; simpl; lia. Qed.

Lemma keyed_fold_total records :
  (forall c t, measure (merge c t) = measure c + measure t) ->
  forall o, total (keyed_fold records o) = total o + folded_total records.
Proof.
  intros Hadd. induction records as [| r records IH]; intros o;
    [rewrite keyed_fold_nil | rewrite keyed_fold_cons]; simpl.
  - lia.
  - rewrite IH. clear IH.
    unfold keyed_step. destruct (parse r) as [t |]; [| lia].
    unfold upsert. destruct (Obj.own o (key r)) as [c |] eqn:E.
    + destruct (set_old_split o (key r) (merge c t) c E) as (o1 & o2 & Eo & -> & _).
      rewrite Eo, !total_app. simpl. rewrite Hadd. lia.
    + rewrite set_new by exact E. rewrite total_app. simpl. lia.
Qed.

(** A record that is alone under its key is stored as it is. *)
Lemma keyed_fold_skip records :
  forall o k, (forall r t, In r records -> parse r = Some t -> key r <> k) ->
    Obj.own (keyed_fold records o) k = Obj.own o k.
Proof.
  induction records as [| r records IH]; intros o k Hk; [reflexivity |].
  rewrite keyed_fold_cons.
  rewrite IH by (intros r' t' Hin; apply Hk; right; exact Hin).
  unfold keyed_step. destruct (parse r) as [t |] eqn:Ep; [| reflexivity].
  apply own_upsert_ne. apply (Hk r t); [left; reflexivity | exact Ep].
Qed.

Lemma keyed_fold_sole before r after t :
  parse r = Some t ->
  (forall r' t', In r' (before ++ after) -> parse r' = Some t' -> key r' <> key r) ->
  Obj.own (keyed_fold (before ++ r :: after) []) (key r) = Some t.
Proof.
  intros Hp Hsole. rewrite keyed_fold_app, keyed_fold_cons.
  rewrite keyed_fold_skip
    by (intros r' t' Hin; apply Hsole; rewrite in_app_iff; right; exact Hin).
  unfold keyed_step. rewrite Hp. apply own_upsert_new.
  rewrite keyed_fold_skip
    by (intros r' t' Hin; apply Hsole; rewrite in_app_iff; left; exact Hin).
  reflexivity.
Qed.

End KeyedFold.

(** ** The two branches as keyed folds *)

Section Branches.

Variable tf : jsnum.

Lemma fold_exact_keyed o r :
  fold_exact tf o r = keyed_step parse_exact (bucket_key tf) merge_exact o r.
Proof.
  unfold fold_exact, keyed_step, parse_exact, BigInt.
  destruct (StringToBigInt (Open r)); simpl; [| reflexivity].
  destruct (StringToBigInt (High r)); simpl; [| reflexivity].
  destruct (StringToBigInt (Low r)); simpl; [| reflexivity].
  destruct (StringToBigInt (Close r)); simpl; [| reflexivity].
  destruct (StringToBigInt (tVol r)); simpl; [| reflexivity].
  unfold upsert, bucket_key, bucket.
  destruct (Obj.own o _); reflexivity.
Qed.

Lemma fold_left_exact records :
  forall o, fold_left (fold_exact tf) records o
            = keyed_fold parse_exact (bucket_key tf) merge_exact records o.
Proof.
  induction records as [| r records IH]; intros o; [reflexivity |].
  rewrite keyed_fold_cons, <- fold_exact_keyed. apply IH.
Qed.

Lemma representable_Some x : representable x = true -> exists z, x = Some z.
Proof. destruct x as [z |]; [eauto | discriminate]. Qed.

Lemma toISOString_representable x :
  representable x = true -> exists s, toISOString (Date_new (JS.mul x 1000)) = Ok s.
Proof.
  unfold representable. destruct (Date_new (JS.mul x 1000)); [| discriminate].
  simpl. eauto.
Qed.

Lemma toISOString_Ok x s :
  toISOString (Date_new (JS.mul x 1000)) = Ok s -> representable x = true.
Proof.
  unfold representable. destruct (Date_new (JS.mul x 1000)); [reflexivity | discriminate].
Qed.

Lemma fold_approx_keyed o r o' :
  keys_representable o ->
  fold_approx tf o r = Ok o' ->
  o' = keyed_step (parse_approx tf) (bucket_key tf) merge_approx o r
  /\ keys_representable o'
  /\ (included_approx r = true -> representable (bucket tf r) = true).
Proof.
  intros Ho. unfold fold_approx, keyed_step, parse_approx, included_approx.
  destruct (_ || _); simpl.
  - intros [= <-]. split; [reflexivity | split; [exact Ho | discriminate]].
  - unfold upsert, bucket_key. fold (bucket tf r).
    destruct (Obj.own o (Number_toString (bucket tf r))) as [c |] eqn:E.
    + intros [= <-]. split; [reflexivity |].
      assert (representable (bucket tf r) = true) as Hr.
      { pose proof (own_Some_In _ _ _ E) as Hin. apply (in_map fst) in Hin.
        destruct (Ho _ Hin) as (x & Hx & Hr).
        apply Number_toString_inj in Hx. rewrite Hx. exact Hr. }
      split; [| intros _; exact Hr].
      intros k. erewrite keys_set_old by exact E. apply Ho.
    + destruct (toISOString (Date_new (JS.mul (bucket tf r) 1000))) as [s |] eqn:Ed;
        simpl; [| discriminate].
      intros [= <-]. split; [reflexivity |].
      pose proof (toISOString_Ok _ _ Ed) as Hr.
      split; [| intros _; exact Hr].
      intros k. rewrite keys_set_new by exact E. rewrite in_app_iff.
      intros [Hin | [<- | []]]; [apply Ho; exact Hin | eauto].
Qed.

Lemma loop_approx_keyed records :
  forall o o', keys_representable o ->
    loop_approx tf o records = Ok o' ->
    o' = keyed_fold (parse_approx tf) (bucket_key tf) merge_approx records o
    /\ keys_representable o'
    /\ forall r, In r records -> included_approx r = true ->
                 representable (bucket tf r) = true.
Proof.
  induction records as [| r records IH]; intros o o' Ho; simpl.
  - intros [= <-]. split; [reflexivity | split; [exact Ho | intros r []]].
  - destruct (fold_approx tf o r) as [o1 |] eqn:E1; simpl; [| discriminate].
    intros Hloop.
    destruct (fold_approx_keyed o r o1 Ho E1) as (-> & Ho1 & Hr).
    destruct (IH _ _ Ho1 Hloop) as (-> & Ho' & Hrs).
    split; [reflexivity | split; [exact Ho' |]].
    intros r' [<- | Hin]; [exact Hr | apply Hrs; exact Hin].
Qed.

Lemma fold_approx_total o r :
  (included_approx r = true -> representable (bucket tf r) = true) ->
  exists o', fold_approx tf o r = Ok o'.
Proof.
  intros Hr. unfold fold_approx.
  fold (bucket tf r).
  destruct (_ || _) eqn:E; [eauto |].
  destruct (Obj.own o _); [eauto |].
  destruct (toISOString_representable (bucket tf r)) as [s Hs].
  - apply Hr. unfold included_approx. rewrite E. reflexivity.
  - rewrite Hs. simpl. eauto.
Qed.

Lemma loop_approx_total records :
  forall o, (forall r, In r records -> included_approx r = true ->
                       representable (bucket tf r) = true) ->
    exists o', loop_approx tf o records = Ok o'.
Proof.
  induction records as [| r records IH]; intros o Hr; simpl; [eauto |].
  destruct (fold_approx_total o r) as [o1 E1]; [apply Hr; left; reflexivity |].
  rewrite E1. simpl. apply IH. intros r' Hin. apply Hr. right. exact Hin.
Qed.

(** *** Rendering and sorting *)

Lemma map_result_Ok {A B} (f : A -> result B) l :
  forall l', map_result f l = Ok l' -> Forall2 (fun a b => f a = Ok b) l l'.
Proof.
  induction l as [| a l IH]; simpl; intros l'.
  - intros [= <-]. constructor.
  - destruct (f a) as [b |] eqn:Ea; simpl; [| discriminate].
    destruct (map_result f l) as [bs |]; simpl; [| discriminate].
    intros [= <-]. constructor; [exact Ea | apply IH; reflexivity].
Qed.

Lemma map_result_total {A B} (f : A -> result B) l :
  (forall a, In a l -> exists b, f a = Ok b) -> exists l', map_result f l = Ok l'.
Proof.
  induction l as [| a l IH]; simpl; intros H; [eauto |].
  destruct (H a) as [b Hb]; [left; reflexivity |]. rewrite Hb. simpl.
  destruct IH as [bs Hbs]; [intros a' Hin; apply H; right; exact Hin |].
  rewrite Hbs. simpl. eauto.
Qed.

Lemma render_exact_Ok x v c :
  render_exact (Number_toString x, v) = Ok c ->
  exists z, x = Some z /\ representable x = true
            /\ c = rendered (Number_toString x, v) z.
Proof.
  unfold render_exact. rewrite parseInt_Number_toString.
  destruct (toISOString (Date_new (JS.mul x 1000))) as [s |] eqn:Ed;
    simpl; [| discriminate].
  intros [= <-]. pose proof (toISOString_Ok _ _ Ed) as Hr.
  destruct (representable_Some _ Hr) as [z ->]. exists z.
  split; [reflexivity | split; [exact Hr |]].
  unfold representable in Hr. simpl in Hr, Ed.
  destruct (Z.abs (z * 1000) <=? maxTime); [| discriminate].
  simpl in Ed. injection Ed as <-. reflexivity.
Qed.

Lemma render_exact_total x v :
  representable x = true -> exists c, render_exact (Number_toString x, v) = Ok c.
Proof.
  intros Hr. unfold render_exact. rewrite parseInt_Number_toString.
  destruct (toISOString_representable x Hr) as [s ->]. simpl. eauto.
Qed.

Lemma exact_keys records k :
  In k (map fst (keyed_fold parse_exact (bucket_key tf) merge_exact records []))
  <-> exists r, In r records /\ included true r = true /\ bucket_key tf r = k.
Proof.
  destruct (keyed_fold_keys parse_exact (bucket_key tf) merge_exact records [])
    as [_ Hk]; [constructor |].
  rewrite Hk. simpl. unfold included. split.
  - intros [[] | (r & t & Hin & Hp & Hkey)]. exists r. rewrite Hp. auto.
  - intros (r & Hin & Hp & Hkey). right.
    destruct (parse_exact r) as [t |] eqn:E; [| discriminate]. exists r, t. auto.
Qed.

Lemma aggregate_exact_Ok records cs :
  aggregate_exact records tf = Ok cs ->
  exists cs0,
    Forall2 rendering
      (Obj.entries (keyed_fold parse_exact (bucket_key tf) merge_exact records [])) cs0
    /\ cs = Arr.sort by_unixTimestamp cs0.
Proof.
  unfold aggregate_exact. rewrite fold_left_exact.
  set (o := keyed_fold parse_exact (bucket_key tf) merge_exact records []).
  destruct (map_result render_exact (Obj.entries o)) as [cs0 |] eqn:E; simpl; [| discriminate].
  intros [= <-]. exists cs0. split; [| reflexivity].
  apply map_result_Ok in E.
  assert (forall e, In e (Obj.entries o) -> exists x, fst e = Number_toString x) as Hkeys.
  { intros e He. apply (Permutation_in _ (entries_perm o)) in He.
    apply (in_map fst) in He. apply exact_keys in He as (r & _ & _ & <-).
    unfold bucket_key. eauto. }
  revert Hkeys. induction E as [| e c es cs1 Hec _ IH]; intros Hkeys; constructor.
  - destruct (Hkeys e) as [x Hx]; [left; reflexivity |].
    destruct e as [k v]. simpl in Hx. subst k.
    apply render_exact_Ok in Hec as (z & -> & Hr & ->). exists z. auto.
  - apply IH. intros e' He'. apply Hkeys. right. exact He'.
Qed.

Lemma aggregate_exact_total records :
  times_representable records tf true -> exists cs, aggregate_exact records tf = Ok cs.
Proof.
  intros Hrep. unfold aggregate_exact. rewrite fold_left_exact.
  set (o := keyed_fold parse_exact (bucket_key tf) merge_exact records []).
  destruct (map_result_total render_exact (Obj.entries o)) as [cs0 E].
  - intros [k v] He. apply (Permutation_in _ (entries_perm o)) in He.
    apply (in_map fst) in He. apply exact_keys in He as (r & Hin & Hinc & Hk).
    simpl in Hk. subst k. apply render_exact_total. apply Hrep; assumption.
  - rewrite E. simpl. eauto.
Qed.

(** What the floating-point branch returns. *)
Lemma aggregate_approx_Ok records cs :
  aggregate_approx records tf = Ok cs ->
  cs = Arr.sort by_unixTimestamp
         (map inl (Obj.values
            (keyed_fold (parse_approx tf) (bucket_key tf) merge_approx records [])))
  /\ times_representable records tf false.
Proof.
  unfold aggregate_approx.
  destruct (loop_approx tf [] records) as [o |] eqn:E; simpl; [| discriminate].
  intros [= <-].
  destruct (loop_approx_keyed records [] o) as (-> & _ & Hr); [intros k [] | exact E |].
  split; [reflexivity | exact Hr].
Qed.

Lemma aggregate_approx_total records :
  times_representable records tf false -> exists cs, aggregate_approx records tf = Ok cs.
Proof.
  intros Hrep. unfold aggregate_approx.
  destruct (loop_approx_total records [] Hrep) as [o ->]. simpl. eauto.
Qed.

(** A call returns exactly when the bucket starts of the included ticks
    are representable. *)
Lemma aggregate_exact_representable records cs :
  aggregate_exact records tf = Ok cs -> times_representable records tf true.
Proof.
  intros Hcs r Hin Hinc.
  destruct (aggregate_exact_Ok records cs Hcs) as (cs0 & Hren & _).
  assert (In (bucket_key tf r)
            (map fst (keyed_fold parse_exact (bucket_key tf) merge_exact records [])))
    as Hk by (apply exact_keys; eauto).
  apply in_map_iff in Hk as ([k v] & Hkey & He). simpl in Hkey. subst k.
  apply (Permutation_in _ (Permutation_sym (entries_perm _))) in He.
  clear Hin Hinc. induction Hren as [| e c es cs1 (z & Hz & Hr & _) _ IH];
    [destruct He |].
  destruct He as [-> | He]; [| exact (IH He)].
  cbn [fst] in Hz. unfold bucket_key in Hz.
  apply Number_toString_inj in Hz. rewrite Hz. exact Hr.
Qed.

Lemma approx_keys records k :
  In k (map fst (keyed_fold (parse_approx tf) (bucket_key tf) merge_approx records []))
  <-> exists r, In r records /\ included false r = true /\ bucket_key tf r = k.
Proof.
  destruct (keyed_fold_keys (parse_approx tf) (bucket_key tf) merge_approx records [])
    as [_ Hk]; [constructor |].
  rewrite Hk. simpl. unfold parse_approx. split.
  - intros [[] | (r & t & Hin & Hp & Hkey)]. exists r.
    destruct (included_approx r); [auto | discriminate].
  - intros (r & Hin & Hp & Hkey). right. rewrite <- Hkey.
    eexists r, _. rewrite Hp. auto.
Qed.

End Branches.

(** ** Bucket starts of the emitted candles *)

Section Buckets.

Variable tf : jsnum.

Lemma key_of_inj z z' : key_of z = key_of z' -> z = z'.
Proof. unfold key_of. intros H. apply Number_toString_inj in H. congruence. Qed.

Lemma rendering_stamps es cs0 :
  Forall2 rendering es cs0 ->
  exists zs0, map unixTimestamp cs0 = map Some zs0 /\ map fst es = map key_of zs0.
Proof.
  induction 1 as [| e c es cs0 (z & Hk & _ & ->) _ (zs0 & Hs & Hks)].
  - exists []. auto.
  - exists (z :: zs0). simpl. rewrite Hs, Hk, Hks. auto.
Qed.

Lemma approx_stamps (es : list (string * Num.CandleDataNumber)) :
  (forall k v, In (k, v) es ->
     k = Number_toString (Num.unixTimestamp v)
     /\ representable (Num.unixTimestamp v) = true) ->
  exists zs0, map unixTimestamp (map inl (map snd es)) = map Some zs0
              /\ map fst es = map key_of zs0.
Proof.
  induction es as [| [k v] es IH]; intros H.
  - exists []. auto.
  - destruct IH as (zs0 & Hs & Hks); [intros k' v' Hin; apply H; right; exact Hin |].
    destruct (H k v) as [Hk Hr]; [left; reflexivity |].
    destruct (representable_Some _ Hr) as [z Hz].
    exists (z :: zs0). simpl. rewrite Hs, Hks, Hk, Hz. auto.
Qed.

(** Sorting candles whose keys are pairwise different. *)
Lemma sorted_stamps (cs0 : list candle) (zs0 : list Z) :
  map unixTimestamp cs0 = map Some zs0 ->
  List.NoDup (map key_of zs0) ->
  exists zs, map unixTimestamp (Arr.sort by_unixTimestamp cs0) = map Some zs
             /\ StronglySorted Z.lt zs
             /\ forall z, In z zs <-> In (key_of z) (map key_of zs0).
Proof.
  intros Hs Hnd.
  destruct (sort_sorted unixTimestamp cs0 zs0 Hs) as (zs & Hst & Hso & Hp).
  exists zs. split; [exact Hst |].
  apply NoDup_map_inv in Hnd.
  split.
  - apply sorted_nodup_strict; [exact Hso |].
    eapply Permutation_NoDup; [symmetry; exact Hp | exact Hnd].
  - intros z. split.
    + intros Hin. apply in_map. eapply Permutation_in; eassumption.
    + intros Hin. apply in_map_iff in Hin as (z' & Heq & Hin).
      apply key_of_inj in Heq. subst z'.
      eapply Permutation_in; [symmetry; exact Hp | exact Hin].
Qed.

Lemma keys_entries_NoDup {A} (o : Obj.t A) :
  List.NoDup (map fst o) -> List.NoDup (map fst (Obj.entries o)).
Proof.
  intros H. eapply Permutation_NoDup; [| exact H].
  apply Permutation_map. symmetry. apply entries_perm.
Qed.

Lemma keys_entries_In {A} (o : Obj.t A) k :
  In k (map fst (Obj.entries o)) <-> In k (map fst o).
Proof.
  split; apply Permutation_in; apply Permutation_map;
    [| symmetry]; apply entries_perm.
Qed.

Lemma bucket_of_key r z : bucket_key tf r = key_of z <-> bucket tf r = Some z.
Proof.
  unfold bucket_key, key_of. split; [apply Number_toString_inj | intros ->; reflexivity].
Qed.

Lemma exact_buckets records :
  times_representable records tf true ->
  exists cs zs,
    aggregate_exact records tf = Ok cs
    /\ map unixTimestamp cs = map Some zs
    /\ StronglySorted Z.lt zs
    /\ forall z, In z zs <->
         exists r, In r records /\ included true r = true /\ bucket tf r = Some z.
Proof.
  intros Hrep. destruct (aggregate_exact_total tf records Hrep) as [cs Hcs].
  destruct (aggregate_exact_Ok tf records cs Hcs) as (cs0 & Hren & ->).
  set (o := keyed_fold parse_exact (bucket_key tf) merge_exact records []) in *.
  destruct (rendering_stamps _ _ Hren) as (zs0 & Hs & Hks).
  destruct (sorted_stamps cs0 zs0 Hs) as (zs & Hst & Hso & Hin).
  - rewrite <- Hks. apply keys_entries_NoDup.
    apply (keyed_fold_keys parse_exact (bucket_key tf) merge_exact records []). constructor.
  - exists (Arr.sort by_unixTimestamp cs0), zs.
    split; [exact Hcs | split; [exact Hst | split; [exact Hso |]]].
    intros z. rewrite Hin, <- Hks, keys_entries_In. unfold o. rewrite exact_keys.
    split; intros (r & H1 & H2 & H3); exists r; (split; [exact H1 | split; [exact H2 |]]);
      apply bucket_of_key; exact H3.
Qed.

Lemma approx_buckets records :
  times_representable records tf false ->
  exists cs zs,
    aggregate_approx records tf = Ok cs
    /\ map unixTimestamp cs = map Some zs
    /\ StronglySorted Z.lt zs
    /\ forall z, In z zs <->
         exists r, In r records /\ included false r = true /\ bucket tf r = Some z.
Proof.
  intros Hrep. destruct (aggregate_approx_total tf records Hrep) as [cs Hcs].
  destruct (aggregate_approx_Ok tf records cs Hcs) as (-> & _).
  set (o := keyed_fold (parse_approx tf) (bucket_key tf) merge_approx records []) in *.
  destruct (approx_stamps (Obj.entries o)) as (zs0 & Hs & Hks).
  { intros k v He. apply (Permutation_in _ (entries_perm o)) in He. revert k v He.
    apply (keyed_fold_invariant (parse_approx tf) (bucket_key tf) merge_approx
             (fun k v => k = Number_toString (Num.unixTimestamp v)
                         /\ representable (Num.unixTimestamp v) = true)).
    - intros r t Hin. unfold parse_approx.
      destruct (included_approx r) eqn:Ei; [| discriminate].
      intros [= <-]. simpl. split; [reflexivity |]. apply Hrep; assumption.
    - intros k c t Hc _. exact Hc.
    - intros k v []. }
  destruct (sorted_stamps _ zs0 Hs) as (zs & Hst & Hso & Hin).
  - rewrite <- Hks. apply keys_entries_NoDup.
    apply (keyed_fold_keys (parse_approx tf) (bucket_key tf) merge_approx records []).
    constructor.
  - exists (Arr.sort by_unixTimestamp (map inl (Obj.values o))), zs.
    split; [exact Hcs | split; [exact Hst | split; [exact Hso |]]].
    intros z. rewrite Hin, <- Hks, keys_entries_In. unfold o. rewrite approx_keys.
    split; intros (r & H1 & H2 & H3); exists r; (split; [exact H1 | split; [exact H2 |]]);
      apply bucket_of_key; exact H3.
Qed.

End Buckets.

(** ** C1 *)

(** C1, as amended.  For every record sequence, every positive bucket width
    and either precision mode such that every included tick has a bucket
    start that a [Date] can represent, the aggregation returns a candle
    sequence whose bucket starts are strictly increasing (sorted, no two
    equal) and are exactly the bucket starts of the included ticks: one
    candle for every bucket that holds a tick, none for any other. *)
Theorem one_candle_per_bucket_sorted (records : list CandleRecord) (w : Z)
    (outputAsString : bool) :
  0 < w ->
  times_representable records (Some w) outputAsString ->
  exists cs zs,
    aggregateCandleData records (Some w) outputAsString = Ok cs
    /\ map unixTimestamp cs = map Some zs
    /\ StronglySorted Z.lt zs
    /\ forall z, In z zs <->
         exists r, In r records /\ included outputAsString r = true
                   /\ bucket (Some w) r = Some z.
Proof.
  intros _ Hrep. unfold aggregateCandleData. destruct outputAsString.
  - apply exact_buckets. exact Hrep.
  - apply approx_buckets. exact Hrep.
Qed.

Lemma one_candle_per_bucket_sorted_witness :
  0 < 60 /\ times_representable scenario_A (Some 60) true
  /\ exists cs zs,
       aggregateCandleData scenario_A (Some 60) true = Ok cs
       /\ map unixTimestamp cs = map Some zs
       /\ StronglySorted Z.lt zs
       /\ forall z, In z zs <->
            exists r, In r scenario_A /\ included true r = true
                      /\ bucket (Some 60) r = Some z.
Proof.
  assert (times_representable scenario_A (Some 60) true) as H.
  { intros r [<- | [<- | [<- | []]]] _; reflexivity. }
  split; [lia | split; [exact H |]].
  apply (one_candle_per_bucket_sorted scenario_A 60 true); [lia | exact H].
Defined.

(** C1 as stated fails: an included tick whose bucket start is past the
    range of [Date] makes the call throw, so no candle is emitted for a
    bucket that holds a tick. *)
Lemma far_future_bucket_not_emitted :
  included false far_future = true
  /\ bucket (Some 60) far_future = Some 8640000000060
  /\ ~ exists cs zs,
         aggregateCandleData [far_future] (Some 60) false = Ok cs
         /\ map unixTimestamp cs = map Some zs
         /\ StronglySorted Z.lt zs
         /\ forall z, In z zs <->
              exists r, In r [far_future] /\ included false r = true
                        /\ bucket (Some 60) r = Some z.
Proof.
  split; [reflexivity | split; [reflexivity |]].
  intros (cs & zs & H & _). vm_compute in H. discriminate H.
Qed.

(** ** C2 *)

Section ExactVolume.

Lemma sum_volumes_perm cs cs' :
  Permutation cs cs' -> sum_volumes cs = sum_volumes cs'.
Proof.
  induction 1 as [| c cs cs' _ IH | c c' cs | cs1 cs2 cs3 _ IH1 _ IH2]; simpl.
  - reflexivity.
  - rewrite IH. reflexivity.
  - destruct (candle_volume c), (candle_volume c'), (sum_volumes cs);
      try reflexivity. f_equal. lia.
  - congruence.
Qed.

Lemma sum_volumes_rendered es cs0 :
  Forall2 rendering es cs0 -> sum_volumes cs0 = Some (total Big.volume es).
Proof.
  induction 1 as [| e c es cs0 (z & _ & _ & ->) _ IH]; simpl; [reflexivity |].
  rewrite StringToBigInt_toString, IH. reflexivity.
Qed.

Lemma folded_total_volume records :
  (forall r, In r records -> tVol r = "Error" \/ included true r = true) ->
  folded_total parse_exact Big.volume records = tick_volume_sum records.
Proof.
  induction records as [| r records IH]; intros H; simpl; [reflexivity |].
  rewrite IH by (intros r' Hin; apply H; right; exact Hin).
  unfold available_volume, parse_exact.
  destruct (H r (or_introl eq_refl)) as [Herr | Hinc].
  - rewrite Herr. simpl.
    destruct (StringToBigInt (Open r)), (StringToBigInt (High r)),
      (StringToBigInt (Low r)), (StringToBigInt (Close r)); reflexivity.
  - unfold included, parse_exact in Hinc.
    destruct (StringToBigInt (Open r)); [| discriminate].
    destruct (StringToBigInt (High r)); [| discriminate].
    destruct (StringToBigInt (Low r)); [| discriminate].
    destruct (StringToBigInt (Close r)); [| discriminate].
    destruct (StringToBigInt (tVol r)) as [v |] eqn:Ev; [| discriminate].
    destruct (String.eqb_spec (tVol r) "Error") as [Herr | _]; [| reflexivity].
    rewrite Herr in Ev. discriminate Ev.
Qed.

Lemma exact_volume tf records cs :
  aggregate_exact records tf = Ok cs ->
  sum_volumes cs = Some (folded_total parse_exact Big.volume records).
Proof.
  intros Hcs. destruct (aggregate_exact_Ok tf records cs Hcs) as (cs0 & Hren & ->).
  rewrite (sum_volumes_perm _ _ (sort_perm by_unixTimestamp cs0)).
  rewrite (sum_volumes_rendered _ _ Hren).
  rewrite (total_perm Big.volume _ _ (entries_perm _)).
  rewrite (keyed_fold_total parse_exact (bucket_key tf) merge_exact Big.volume)
    by reflexivity.
  reflexivity.
Qed.

End ExactVolume.

(** C2.  In exact mode, for every record sequence in which every tick
    either carries the unavailable marker as its volume or has integer
    open, high, low, close and volume, the volumes of the emitted candles add
    up, as integers of unbounded precision, to the sum of the volumes of the
    ticks whose volume is available; and candles are emitted whenever the
    bucket starts of these ticks are times a [Date] can represent.  The
    volumes are integers throughout: parsed by [BigInt], added in [Z],
    rendered by [toString]. *)
Theorem exact_volume_sum (records : list CandleRecord) (w : Z) :
  0 < w ->
  (forall r, In r records -> tVol r = "Error" \/ included true r = true) ->
  (forall cs, aggregateCandleData records (Some w) true = Ok cs ->
              sum_volumes cs = Some (tick_volume_sum records))
  /\ (times_representable records (Some w) true ->
      exists cs, aggregateCandleData records (Some w) true = Ok cs).
Proof.
  intros _ Hparse. split.
  - intros cs Hcs. simpl in Hcs. rewrite (exact_volume _ _ _ Hcs).
    rewrite folded_total_volume by exact Hparse. reflexivity.
  - apply aggregate_exact_total.
Qed.

Lemma exact_volume_sum_witness :
  exists cs,
    aggregateCandleData scenario_A (Some 60) true = Ok cs
    /\ sum_volumes cs = Some 15.
Proof.
  destruct (exact_volume_sum scenario_A 60) as [Hsum Hex];
    [lia | intros r [<- | [<- | [<- | []]]]; right; reflexivity |].
  destruct Hex as [cs Hcs]; [intros r [<- | [<- | [<- | []]]] _; reflexivity |].
  exists cs. split; [exact Hcs | apply Hsum; exact Hcs].
Defined.

(** ** C4 *)

Section FloatOrder.

Ltac compare_cases :=
  repeat match goal with
         | |- context [Z.compare ?x ?y] => destruct (Z.compare_spec x y)
         | H : context [Z.compare ?x ?y] |- _ => destruct (Z.compare_spec x y)
         | |- context [Pos.compare_cont Eq ?x ?y] =>
             change (Pos.compare_cont Eq x y) with (Pos.compare x y);
             destruct (Pos.compare_spec x y)
         | H : context [Pos.compare_cont Eq ?x ?y] |- _ =>
             change (Pos.compare_cont Eq x y) with (Pos.compare x y) in H;
             destruct (Pos.compare_spec x y)
         end.

Lemma fle_trans a b c : fle a b -> fle b c -> fle a c.
Proof.
  unfold fle, fleb, SFleb, SFcompare.
  destruct a as [[] | [] | | [] m1 e1], b as [[] | [] | | [] m2 e2],
    c as [[] | [] | | [] m3 e3]; simpl; intros H1 H2;
    try reflexivity; try discriminate;
    compare_cases; simpl in *; try reflexivity; try discriminate; subst; lia.
Qed.

Lemma fle_total a b : isNaNf a = false -> isNaNf b = false -> fltb a b = false -> fle b a.
Proof.
  unfold fle, fleb, fltb, SFleb, SFltb, SFcompare.
  destruct a as [[] | [] | | [] m1 e1], b as [[] | [] | | [] m2 e2];
    simpl; intros H1 H2 H3;
    try reflexivity; try discriminate;
    compare_cases; simpl in *; try reflexivity; try discriminate; subst; lia.
Qed.

Lemma flt_le a b : fltb a b = true -> fle a b.
Proof.
  unfold fle, fleb, fltb, SFleb, SFltb. destruct (SFcompare a b) as [[] |]; congruence.
Qed.

Lemma fle_refl a : isNaNf a = false -> fle a a.
Proof.
  intros H. apply fle_total; [exact H | exact H |].
  unfold fltb, SFltb, SFcompare.
  destruct a as [[] | [] | | [] m e]; simpl; try reflexivity; try discriminate;
    rewrite Z.compare_refl; change (Pos.compare_cont Eq m m) with (Pos.compare m m);
    rewrite Pos.compare_refl; reflexivity.
Qed.

Lemma fle_not_NaN a b : fle a b -> isNaNf a = false /\ isNaNf b = false.
Proof.
  unfold fle, fleb, SFleb, SFcompare.
  destruct a as [[] | [] | | [] m1 e1], b as [[] | [] | | [] m2 e2];
    simpl; intros H; try discriminate; split; reflexivity.
Qed.

Lemma Math_max_upper a b :
  isNaNf a = false -> isNaNf b = false ->
  fle a (Math_max a b) /\ fle b (Math_max a b).
Proof.
  intros Ha Hb. unfold Math_max. rewrite Ha, Hb. simpl.
  destruct (fltb a b) eqn:Eab.
  - split; [apply flt_le; exact Eab | apply fle_refl; exact Hb].
  - destruct (fltb b a) eqn:Eba.
    + split; [apply fle_refl; exact Ha | apply flt_le; exact Eba].
    + pose proof (fle_total a b Ha Hb Eab). pose proof (fle_total b a Hb Ha Eba).
      destruct (is_neg_zero a); split;
        solve [apply fle_refl; assumption | assumption].
Qed.

Lemma Math_min_lower a b :
  isNaNf a = false -> isNaNf b = false ->
  fle (Math_min a b) a /\ fle (Math_min a b) b.
Proof.
  intros Ha Hb. unfold Math_min. rewrite Ha, Hb. simpl.
  destruct (fltb a b) eqn:Eab.
  - split; [apply fle_refl; exact Ha | apply flt_le; exact Eab].
  - destruct (fltb b a) eqn:Eba.
    + split; [apply flt_le; exact Eba | apply fle_refl; exact Hb].
    + pose proof (fle_total a b Ha Hb Eab). pose proof (fle_total b a Hb Ha Eba).
      destruct (is_neg_zero a); split;
        solve [apply fle_refl; assumption | assumption].
Qed.

End FloatOrder.

Section Ordering.

Variable tf : jsnum.

Lemma merge_exact_ordered c t :
  ohlc_ordered Z.le (Big.open c) (Big.high c) (Big.low c) (Big.close c) ->
  ohlc_ordered Z.le (Big.open t) (Big.high t) (Big.low t) (Big.close t) ->
  let m := merge_exact c t in
  ohlc_ordered Z.le (Big.open m) (Big.high m) (Big.low m) (Big.close m).
Proof.
  unfold ohlc_ordered, merge_exact. simpl. intros Hc Ht.
  destruct (Z.gtb_spec (Big.high t) (Big.high c)),
    (Z.ltb_spec (Big.low t) (Big.low c)); lia.
Qed.

Lemma merge_approx_ordered c t :
  ohlc_ordered fle (Num.open c) (Num.high c) (Num.low c) (Num.close c) ->
  ohlc_ordered fle (Num.open t) (Num.high t) (Num.low t) (Num.close t) ->
  let m := merge_approx c t in
  ohlc_ordered fle (Num.open m) (Num.high m) (Num.low m) (Num.close m).
Proof.
  unfold ohlc_ordered, merge_approx. simpl.
  intros (Hlo & Hlc & Hlh & Hoh & Hch) (Hlo' & Hlc' & Hlh' & Hoh' & Hch').
  destruct (fle_not_NaN _ _ Hlh) as [Hl Hh].
  destruct (fle_not_NaN _ _ Hlh') as [Hl' Hh'].
  destruct (Math_max_upper (Num.high c) (Num.high t) Hh Hh') as [Hmax Hmax'].
  destruct (Math_min_lower (Num.low c) (Num.low t) Hl Hl') as [Hmin Hmin'].
  repeat split.
  - exact (fle_trans _ _ _ Hmin Hlo).
  - exact (fle_trans _ _ _ Hmin' Hlc').
  - exact (fle_trans _ _ _ Hmin (fle_trans _ _ _ Hlh Hmax)).
  - exact (fle_trans _ _ _ Hoh Hmax).
  - exact (fle_trans _ _ _ Hch' Hmax').
Qed.

Lemma Forall2_In_r {X Y} (P : X -> Y -> Prop) l l' y :
  Forall2 P l l' -> In y l' -> exists x, In x l /\ P x y.
Proof.
  induction 1 as [| x y' l l' Hxy _ IH]; simpl; [tauto |].
  intros [<- | Hin]; [eauto |]. destruct (IH Hin) as (x' & Hx' & Hp). eauto.
Qed.

Lemma Forall2_In_l {X Y} (P : X -> Y -> Prop) l l' x :
  Forall2 P l l' -> In x l -> exists y, In y l' /\ P x y.
Proof.
  induction 1 as [| x' y l l' Hxy _ IH]; simpl; [tauto |].
  intros [<- | Hin]; [eauto |]. destruct (IH Hin) as (y' & Hy' & Hp). eauto.
Qed.

Lemma exact_ordered records cs :
  (forall r, In r records -> included true r = true -> tick_ordered true r) ->
  aggregate_exact records tf = Ok cs ->
  forall c, In c cs -> candle_ordered c.
Proof.
  intros Hticks Hcs c Hc.
  destruct (aggregate_exact_Ok tf records cs Hcs) as (cs0 & Hren & ->).
  apply (Permutation_in _ (sort_perm by_unixTimestamp cs0)) in Hc.
  destruct (Forall2_In_r _ _ _ _ Hren Hc) as ([k v] & He & z & _ & _ & ->).
  apply (Permutation_in _ (entries_perm _)) in He.
  assert (ohlc_ordered Z.le (Big.open v) (Big.high v) (Big.low v) (Big.close v)) as Hv.
  { clear Hc. revert k v He.
    apply (keyed_fold_invariant parse_exact (bucket_key tf) merge_exact
             (fun _ v => ohlc_ordered Z.le (Big.open v) (Big.high v) (Big.low v)
                           (Big.close v)) records).
    - intros r t Hin Hp. specialize (Hticks r Hin).
      unfold included, tick_ordered in Hticks. rewrite Hp in Hticks. auto.
    - intros _ c' t. apply merge_exact_ordered.
    - intros k v []. }
  simpl. exists (Big.open v), (Big.high v), (Big.low v), (Big.close v).
  rewrite !StringToBigInt_toString. auto.
Qed.

Lemma approx_ordered records cs :
  (forall r, In r records -> included false r = true -> tick_ordered false r) ->
  aggregate_approx records tf = Ok cs ->
  forall c, In c cs -> candle_ordered c.
Proof.
  intros Hticks Hcs c Hc.
  destruct (aggregate_approx_Ok tf records cs Hcs) as (-> & _).
  apply (Permutation_in _ (sort_perm by_unixTimestamp _)) in Hc.
  apply in_map_iff in Hc as (v & <- & Hv).
  unfold Obj.values in Hv. apply in_map_iff in Hv as ([k v'] & <- & He).
  apply (Permutation_in _ (entries_perm _)) in He. simpl.
  revert k v' He.
  apply (keyed_fold_invariant (parse_approx tf) (bucket_key tf) merge_approx
           (fun _ v => ohlc_ordered fle (Num.open v) (Num.high v) (Num.low v)
                         (Num.close v)) records).
  - intros r t Hin. unfold parse_approx.
    destruct (included_approx r) eqn:Ei; [| discriminate].
    intros [= <-]. simpl. apply (Hticks r Hin Ei).
  - intros _ c' t. apply merge_approx_ordered.
  - intros k v [].
Qed.

End Ordering.

(** C4, as amended.  The aggregation does not check the ticks it folds.
    When every included tick has its own low <= open, close, high and
    high >= open, close, low under the mode's numeric comparison, so has
    every emitted candle, in either precision mode and for every bucket
    width. *)
Theorem candles_ordered (records : list CandleRecord) (tf : jsnum)
    (outputAsString : bool) (cs : list candle) :
  (forall r, In r records -> included outputAsString r = true ->
             tick_ordered outputAsString r) ->
  aggregateCandleData records tf outputAsString = Ok cs ->
  forall c, In c cs -> candle_ordered c.
Proof.
  unfold aggregateCandleData. destruct outputAsString.
  - apply exact_ordered.
  - apply approx_ordered.
Qed.

Lemma candles_ordered_witness :
  aggregateCandleData scenario_A (Some 60) true = Ok candles_A
  /\ forall c, In c candles_A -> candle_ordered c.
Proof.
  split; [reflexivity |].
  apply (candles_ordered scenario_A (Some 60) true candles_A); [| reflexivity].
  intros r [<- | [<- | [<- | []]]] _; vm_compute; repeat split; discriminate.
Defined.

(** C4 as stated fails: the sole tick of scenario B has low 120 above high
    110, and so has the candle emitted for it. *)
Lemma scenario_B_low_above_high :
  aggregateCandleData [scenario_B] (Some 60) true = Ok [inr candle_B]
  /\ ~ candle_ordered (inr candle_B).
Proof.
  split; [reflexivity |].
  intros (o & h & l & c & Ho & Hh & Hl & Hc & Hord).
  vm_compute in Ho, Hh, Hl, Hc.
  injection Ho as <-. injection Hh as <-. injection Hl as <-. injection Hc as <-.
  unfold ohlc_ordered in Hord. lia.
Qed.

(** ** C10 *)

Section RoundTripB.

Variables (before after : list CandleRecord) (ts : string) (w z : Z).

Let r := tick ts "100" "110" "120" "90" "7".

Hypothesis Hbucket : bucket (Some w) r = Some z.
Hypothesis Hsole :
  forall r', In r' (before ++ after) -> included true r' = true ->
             bucket (Some w) r' <> Some z.

Lemma sole_tick_stored :
  Obj.own (keyed_fold parse_exact (bucket_key (Some w)) merge_exact
             (before ++ r :: after) [])
    (key_of z)
  = Some {| Big.open := 100; Big.high := 110; Big.low := 120; Big.close := 90;
            Big.volume := 7 |}.
Proof.
  assert (bucket_key (Some w) r = key_of z) as Hk by (apply bucket_of_key; exact Hbucket).
  rewrite <- Hk. apply keyed_fold_sole; [reflexivity |].
  intros r' t' Hin Hp. rewrite Hk. intros Hk'. apply bucket_of_key in Hk'.
  apply (Hsole r' Hin); [| exact Hk']. unfold included. rewrite Hp. reflexivity.
Qed.

Lemma sole_tick_emitted cs :
  aggregate_exact (before ++ r :: after) (Some w) = Ok cs -> In (round_trip_B z) cs.
Proof.
  intros Hcs. destruct (aggregate_exact_Ok _ _ _ Hcs) as (cs0 & Hren & ->).
  apply (Permutation_in _ (Permutation_sym (sort_perm by_unixTimestamp cs0))).
  pose proof (own_Some_In _ _ _ sole_tick_stored) as Hin.
  apply (Permutation_in _ (Permutation_sym (entries_perm _))) in Hin.
  destruct (Forall2_In_l _ _ _ _ Hren Hin) as (c & Hc & z' & Hk & _ & ->).
  simpl in Hk. apply key_of_inj in Hk. subst z'. exact Hc.
Qed.

End RoundTripB.

(** C10.  In exact mode, a tick with open, high, low, close "100", "110",
    "120", "90" and volume "7" that is the only included tick of its bucket
    is emitted as a candle with exactly these five strings, whatever other
    ticks are aggregated with it; and the call returns whenever the bucket
    starts of the included ticks are times a [Date] can represent. *)
Theorem scenario_B_round_trip (before after : list CandleRecord) (ts : string) (w z : Z) :
  0 < w ->
  bucket (Some w) (tick ts "100" "110" "120" "90" "7") = Some z ->
  (forall r', In r' (before ++ after) -> included true r' = true ->
              bucket (Some w) r' <> Some z) ->
  (forall cs,
     aggregateCandleData (before ++ tick ts "100" "110" "120" "90" "7" :: after)
       (Some w) true = Ok cs ->
     In (round_trip_B z) cs)
  /\ (times_representable (before ++ tick ts "100" "110" "120" "90" "7" :: after)
        (Some w) true ->
      exists cs,
        aggregateCandleData (before ++ tick ts "100" "110" "120" "90" "7" :: after)
          (Some w) true = Ok cs).
Proof.
  intros _ Hbucket Hsole. split.
  - intros cs. apply sole_tick_emitted; assumption.
  - apply aggregate_exact_total.
Qed.

Lemma scenario_B_round_trip_witness :
  exists cs,
    aggregateCandleData [tick "0" "100" "110" "120" "90" "7"] (Some 60) true = Ok cs
    /\ In (round_trip_B 0) cs.
Proof.
  destruct (scenario_B_round_trip [] [] "0" 60 0) as [Hin Hex];
    [lia | reflexivity | intros r' [] | ].
  destruct Hex as [cs Hcs]; [intros r' [<- | []] _; reflexivity |].
  exists cs. split; [exact Hcs | apply Hin; exact Hcs].
Defined.

(** ** C3 *)

Section Unavailable.

Variable tf : jsnum.

Lemma parse_exact_unavailable r : tVol r = "Error" -> parse_exact r = None.
Proof.
  intros H. unfold parse_exact. rewrite H.
  destruct (StringToBigInt (Open r)), (StringToBigInt (High r)),
    (StringToBigInt (Low r)), (StringToBigInt (Close r)); reflexivity.
Qed.

Lemma fold_exact_unavailable o r : tVol r = "Error" -> fold_exact tf o r = o.
Proof.
  intros H. rewrite fold_exact_keyed. unfold keyed_step.
  rewrite parse_exact_unavailable by exact H. reflexivity.
Qed.

Lemma fold_approx_unavailable o r : tVol r = "Error" -> fold_approx tf o r = Ok o.
Proof.
  intros H. unfold fold_approx. rewrite H.
  change (isNaNf (parseFloat "Error")) with true.
  rewrite orb_true_r. reflexivity.
Qed.

Lemma loop_approx_app l1 l2 :
  forall o, loop_approx tf o (l1 ++ l2)
            = bind (loop_approx tf o l1) (fun o' => loop_approx tf o' l2).
Proof.
  induction l1 as [| r l1 IH]; intros o; simpl; [reflexivity |].
  destruct (fold_approx tf o r) as [o1 |]; simpl; [apply IH | reflexivity].
Qed.

Lemma aggregate_exact_unavailable before after r :
  tVol r = "Error" ->
  aggregate_exact (before ++ r :: after) tf = aggregate_exact (before ++ after) tf.
Proof.
  intros H. unfold aggregate_exact. rewrite !fold_left_app. simpl.
  rewrite fold_exact_unavailable by exact H. reflexivity.
Qed.

Lemma aggregate_approx_unavailable before after r :
  tVol r = "Error" ->
  aggregate_approx (before ++ r :: after) tf = aggregate_approx (before ++ after) tf.
Proof.
  intros H. unfold aggregate_approx. rewrite !loop_approx_app.
  destruct (loop_approx tf [] before) as [o |]; simpl; [| reflexivity].
  rewrite fold_approx_unavailable by exact H. reflexivity.
Qed.

End Unavailable.

(** C3, as amended.  In either precision mode and for every bucket width, a
    tick whose volume carries the unavailable marker is excluded from the
    aggregation entirely: the call returns what it returns without that
    tick, so the tick contributes neither to the open, high, low and close
    nor to the volume of any candle. *)
Theorem unavailable_tick_excluded (before after : list CandleRecord) (r : CandleRecord)
    (tf : jsnum) (outputAsString : bool) :
  tVol r = "Error" ->
  aggregateCandleData (before ++ r :: after) tf outputAsString
  = aggregateCandleData (before ++ after) tf outputAsString.
Proof.
  intros H. unfold aggregateCandleData. destruct outputAsString.
  - apply aggregate_exact_unavailable. exact H.
  - apply aggregate_approx_unavailable. exact H.
Qed.

Lemma unavailable_tick_excluded_witness :
  aggregateCandleData (scenario_A ++ [unavailable_tick]) (Some 60) false
  = aggregateCandleData scenario_A (Some 60) false.
Proof.
  rewrite <- (app_nil_r scenario_A) at 2.
  apply (unavailable_tick_excluded scenario_A [] unavailable_tick (Some 60) false).
  reflexivity.
Defined.

(** C3 as stated fails: a tick whose volume lookup failed is the only tick
    of its bucket, and no candle is emitted for it in either mode, so its
    open, high, low and close are folded nowhere. *)
Lemma unavailable_tick_not_folded :
  aggregateCandleData [unavailable_tick] (Some 60) true = Ok []
  /\ aggregateCandleData [unavailable_tick] (Some 60) false = Ok [].
Proof. split; reflexivity. Qed.

(** ** C5 *)

(** C5, the code at the failing input.  In the full-precision branch a tick
    whose timestamp is no number is not excluded: it opens the bucket "NaN",
    and rendering that bucket throws, so the whole call fails.  The
    floating-point branch excludes the same tick. *)
Theorem unparsed_time_not_excluded :
  map fst (fold_left (fold_exact (Some 60)) [unparsed_time] []) = ["NaN"]
  /\ aggregateCandleData [unparsed_time] (Some 60) true = Throw RangeError
  /\ aggregateCandleData (scenario_A ++ [unparsed_time]) (Some 60) true = Throw RangeError
  /\ aggregateCandleData [unparsed_time] (Some 60) false = Ok [].
Proof. repeat split; vm_compute; reflexivity. Qed.

(** A field "Infinity" is no finite number, yet it is not NaN, and the
    floating-point branch folds the tick. *)
Lemma infinite_field_not_excluded :
  included false (tick "0" "Infinity" "Infinity" "1" "2" "5") = true
  /\ exists c,
       aggregateCandleData [tick "0" "Infinity" "Infinity" "1" "2" "5"] (Some 60) false
       = Ok [inl c]
       /\ Num.open c = S754_infinity false.
Proof. split; [reflexivity |]. eexists. split; reflexivity. Qed.

(** An empty field reads as zero in the full-precision branch, and the tick
    is folded; the floating-point branch excludes it. *)
Lemma empty_field_reads_zero :
  BigInt "" = Ok 0
  /\ fold_left (fold_exact (Some 60)) [tick "0" "" "2" "1" "2" "5"] []
     = [("0", {| Big.open := 0; Big.high := 2; Big.low := 1; Big.close := 2;
                 Big.volume := 5 |})]
  /\ aggregateCandleData [tick "0" "" "2" "1" "2" "5"] (Some 60) false = Ok [].
Proof. repeat split. Qed.

(** ** C9 *)

Section Endpoints.

(** A label that [timeframeMap] neither defines nor inherits is rejected
    before anything is read. *)
Lemma unknown_label_rejected invalid project failure file req :
  Obj.get timeframeMap (timeframe req) = Obj.Undefined ->
  handler invalid project failure file req
  = ([], Status400 invalid
           ["1m"; "5m"; "15m"; "30m"; "45m"; "1h"; "2h"; "3h"; "4h"; "5h"; "6h";
            "12h"; "15h"; "18h"; "1d"]).
Proof. intros H. unfold handler. rewrite H. reflexivity. Qed.

Lemma inherited_label_handler invalid project failure file :
  exists effects resp,
    handler invalid project failure file inherited_label = (ReadCsv :: effects, resp)
    /\ is_Status400 resp = false.
Proof.
  unfold handler. simpl.
  destruct (getCandleRecords file) as [records |];
    [| do 2 eexists; split; reflexivity].
  destruct (aggregate_approx records NaN);
    do 2 eexists; split; reflexivity.
Qed.

End Endpoints.

(** C9, the code at the failing input.  The label "constructor" is outside
    the vocabulary, yet [timeframeMap["constructor"]] is the function every
    object inherits, which is truthy: none of the three endpoints answers
    400.  Each reads the CSV file, whatever it holds, and aggregates with a
    bucket width that is NaN; with the ticks of scenario A on file the
    answer is 500, with no tick on file it is an empty list. *)
Theorem inherited_label_not_rejected :
  (forall file,
     exists effects resp,
       get_candles file inherited_label = (ReadCsv :: effects, resp)
       /\ is_Status400 resp = false)
  /\ (forall file,
        exists effects resp,
          get_ohlc file inherited_label = (ReadCsv :: effects, resp)
          /\ is_Status400 resp = false)
  /\ (forall file,
        exists effects resp,
          get_volume file inherited_label = (ReadCsv :: effects, resp)
          /\ is_Status400 resp = false)
  /\ get_candles (Some scenario_A) inherited_label
     = ([ReadCsv; Aggregate scenario_A NaN false], Status500 "Error fetching candle data")
  /\ get_candles (Some []) inherited_label
     = ([ReadCsv; Aggregate [] NaN false], Json (Candles [])).
Proof.
  split; [| split; [| split; [| split]]];
    try (intros file; apply inherited_label_handler); reflexivity.
Qed.

(** ** The collector, one iteration at a time *)

Section CollectorSteps.

Import Collector.

Variable c : contract.
Variable totalTx : Z.

Lemma bigint_toString_not_Error z : bigint_toString z <> "Error".
Proof.
  intros H. pose proof (StringToBigInt_toString z) as Hz. rewrite H in Hz.
  discriminate Hz.
Qed.

Lemma bigint_toString_nonempty z : bigint_toString z <> "".
Proof.
  unfold bigint_toString. destruct (z <? 0); [discriminate |].
  destruct (Z.le_gt_cases 0 z) as [Hz | Hz].
  - destruct (nat_toString_shape z Hz) as (a & r & -> & _). discriminate.
  - unfold nat_toString. simpl. destruct (z <? 10); [discriminate |].
    apply digits_of_nonempty. discriminate.
Qed.

Lemma fetch_tVol_failed timestamp d st e :
  tVol c timestamp = Throw e ->
  fetch_tVol c timestamp d st
  = ("Error", s_currentDay st, s_currentDayCumulativeVolume st,
     s_cumulativeTotalVolume st).
Proof. intros H. unfold fetch_tVol. rewrite H. reflexivity. Qed.

Lemma fetch_tVol_available timestamp d st v :
  tVol c timestamp = Ok v ->
  fetch_tVol c timestamp d st
  = (bigint_toString (Z.of_N v), Some d,
     (if same_day (s_currentDay st) d then s_currentDayCumulativeVolume st else 0)
     + Z.of_N v,
     s_cumulativeTotalVolume st + Z.of_N v).
Proof.
  intros H. unfold fetch_tVol. rewrite H, BigInt_toString.
  destruct (s_currentDay st) as [d' |]; simpl; [| reflexivity].
  destruct (String.eqb_spec d' d) as [-> | _]; reflexivity.
Qed.

Lemma iteration_recorded st i ts candle :
  txTimeStamp c i = Ok ts ->
  Z.abs (Z.of_N ts * 1000) <= maxTime ->
  candleStickData c (Z.of_N ts) = Ok candle ->
  iteration c totalTx st i = Ok (recorded c totalTx st i (Z.of_N ts) candle).
Proof.
  intros Hts Hrange Hcandle. unfold iteration, recorded, utcDate_of.
  rewrite Hts. simpl.
  replace (Z.abs (Z.of_N ts * 1000) <=? maxTime) with true
    by (symmetry; apply Z.leb_le; exact Hrange).
  simpl. rewrite Hcandle. simpl.
  destruct (fetch_tVol c (Z.of_N ts) _ st) as [[[tVol day] daily] total].
  reflexivity.
Qed.

Lemma iteration_Ok st i st' :
  iteration c totalTx st i = Ok st' ->
  exists ts candle,
    txTimeStamp c i = Ok ts /\ Z.abs (Z.of_N ts * 1000) <= maxTime
    /\ candleStickData c (Z.of_N ts) = Ok candle
    /\ st' = recorded c totalTx st i (Z.of_N ts) candle.
Proof.
  intros H. pose proof H as H0. unfold iteration in H.
  destruct (txTimeStamp c i) as [ts |] eqn:Hts; simpl in H; [| discriminate].
  destruct (Z.leb_spec (Z.abs (Z.of_N ts * 1000)) maxTime) as [Hrange | Hrange];
    simpl in H; [| discriminate].
  destruct (candleStickData c (Z.of_N ts)) as [candle |] eqn:Hcandle; simpl in H;
    [| discriminate].
  clear H. exists ts, candle.
  split; [reflexivity | split; [exact Hrange | split; [exact Hcandle |]]].
  rewrite (iteration_recorded st i ts candle Hts Hrange Hcandle) in H0.
  injection H0 as <-. reflexivity.
Qed.

Lemma loop_add a :
  forall b from st,
    loop c totalTx (a + b) from st
    = bind (loop c totalTx a from st)
        (fun st1 => loop c totalTx b (from + Z.of_nat a) st1).
Proof.
  induction a as [| a IH]; intros b from st.
  - simpl. rewrite Z.add_0_r. reflexivity.
  - change (S a + b)%nat with (S (a + b)). simpl.
    destruct (iteration c totalTx st from) as [st1 |]; simpl; [| reflexivity].
    rewrite IH. replace (from + 1 + Z.of_nat a) with (from + Z.of_nat (S a)) by lia.
    reflexivity.
Qed.

Lemma loop_one from st : loop c totalTx 1 from st = iteration c totalTx st from.
Proof. simpl. destruct (iteration c totalTx st from); reflexivity. Qed.

Lemma loop_snoc k from st :
  loop c totalTx (S k) from st
  = bind (loop c totalTx k from st)
      (fun st1 => iteration c totalTx st1 (from + Z.of_nat k)).
Proof.
  replace (S k) with (k + 1)%nat by lia. rewrite loop_add.
  destruct (loop c totalTx k from st); simpl; [| reflexivity].
  destruct (iteration c totalTx _ _); reflexivity.
Qed.

(** The loop returns when the structural lookups do. *)
Lemma loop_total n k :
  structural_ok c n ->
  forall from st, 1 <= from -> from + Z.of_nat k <= Z.of_N n + 1 ->
    exists st', loop c totalTx k from st = Ok st'.
Proof.
  intros Hok. induction k as [| k IH]; intros from st Hfrom Hto; simpl; [eauto |].
  destruct (Hok from) as (ts & candle & Hts & Hrange & Hcandle); [lia |].
  rewrite (iteration_recorded st from ts candle Hts Hrange Hcandle). simpl.
  apply IH; lia.
Qed.

End CollectorSteps.

(** ** The two arrays the loop fills *)

Section CollectorArrays.

Import Collector.

Variable c : contract.
Variable totalTx : Z.

Lemma append_nonempty (a b : string) : b <> "" -> (a ++ b)%string <> "".
Proof.
  intros Hb. destruct a as [| x a]; [exact Hb |].
  change (String x (a ++ b)%string <> ""). discriminate.
Qed.

Lemma utcDate_of_nonempty ts : utcDate_of ts <> "".
Proof.
  unfold utcDate_of.
  assert (iso_string (ts * 1000) <> "") as H.
  { unfold iso_string. destruct (civil_from_days _) as [[y m] d].
    apply append_nonempty. discriminate. }
  destruct (iso_string (ts * 1000)); [contradiction | discriminate].
Qed.

Lemma recorded_entry st i ts candle :
  exists e row,
    s_tVolData (recorded c totalTx st i ts candle) = s_tVolData st ++ [e]
    /\ s_allCandleData (recorded c totalTx st i ts candle) = s_allCandleData st ++ [row]
    /\ row_of e row /\ entry_ok e /\ utcDate e = utcDate_of ts /\ Timestamp e = ts
    /\ (e_tVol e = "Error" <-> exists x, tVol c ts = Throw x).
Proof.
  unfold recorded. destruct (tVol c ts) as [v | x] eqn:Hv.
  - rewrite (fetch_tVol_available c ts _ st v Hv).
    do 2 eexists. split; [reflexivity | split; [reflexivity |]].
    split; [repeat split |].
    split; [split; [apply utcDate_of_nonempty | right; eexists; reflexivity] |].
    split; [reflexivity | split; [reflexivity |]].
    simpl. split; [intros H; apply bigint_toString_not_Error in H; destruct H |].
    intros [x Hx]; discriminate Hx.
  - rewrite (fetch_tVol_failed c ts _ st x Hv).
    do 2 eexists. split; [reflexivity | split; [reflexivity |]].
    split; [repeat split |].
    split; [split; [apply utcDate_of_nonempty | left; reflexivity] |].
    split; [reflexivity | split; [reflexivity |]].
    simpl. split; eauto.
Qed.

Lemma recorded_well_formed st i ts candle :
  well_formed st -> well_formed (recorded c totalTx st i ts candle).
Proof.
  intros (rows & Hrows & Hf2 & Hok).
  destruct (recorded_entry st i ts candle) as (e & row & He1 & He2 & Hrow & He & _).
  unfold well_formed. rewrite He1, He2, Hrows.
  exists (rows ++ [row]). split; [reflexivity |].
  split.
  - apply Forall2_app; [exact Hf2 | constructor; [exact Hrow | constructor]].
  - apply Forall_app. split; [exact Hok | constructor; [exact He | constructor]].
Qed.

Lemma loop_well_formed k :
  forall from st st', loop c totalTx k from st = Ok st' -> well_formed st -> well_formed st'.
Proof.
  induction k as [| k IH]; intros from st st'; simpl.
  - intros [= <-]. auto.
  - destruct (iteration c totalTx st from) as [st1 |] eqn:E; simpl; [| discriminate].
    intros Hloop Hwf. apply (IH _ _ _ Hloop).
    apply iteration_Ok in E as (ts & candle & _ & _ & _ & ->).
    apply recorded_well_formed. exact Hwf.
Qed.

Lemma init_well_formed : well_formed init.
Proof. exists []. repeat split; constructor. Qed.

(** The second pass adds up the volume of every day. *)
Lemma dailyVolumes_total data :
  Forall entry_ok data ->
  forall m0, exists m,
    dailyVolumes data m0 = Ok m
    /\ forall d, default 0 (m !! d) = default 0 (m0 !! d) + day_total d data.
Proof.
  induction 1 as [| e data [Hdate Hvol] _ IH]; intros m0; simpl.
  - exists m0. split; [reflexivity | intros d; lia].
  - destruct (String.eqb_spec (utcDate e) "") as [Heq | _]; [contradiction |]. simpl.
    unfold entry_volume.
    destruct (String.eqb_spec (e_tVol e) "Error") as [Herr | Hne]; simpl.
    + destruct (IH m0) as (m & Hm & Hsum). exists m. split; [exact Hm |].
      intros d. rewrite Hsum. destruct (String.eqb (utcDate e) d); lia.
    + destruct Hvol as [Herr | [v Hv]]; [contradiction |].
      rewrite Hv, BigInt_toString, StringToBigInt_toString. simpl.
      set (current := match m0 !! utcDate e with
                      | Some v0 => if v0 =? 0 then 0 else v0
                      | None => 0
                      end).
      assert (current = default 0 (m0 !! utcDate e)) as Hcur.
      { unfold current. destruct (m0 !! utcDate e) as [v0 |]; [| reflexivity].
        simpl. destruct (Z.eqb_spec v0 0); congruence. }
      destruct (IH (<[utcDate e := current + v]> m0)) as (m & Hm & Hsum).
      exists m. split; [exact Hm |].
      intros d. rewrite Hsum.
      destruct (String.eqb_spec (utcDate e) d) as [<- | Hd].
      * rewrite lookup_insert_eq. simpl. lia.
      * rewrite lookup_insert_ne by exact Hd. lia.
Qed.

Lemma attach_row m e row :
  row_of e row -> entry_ok e ->
  attach m row
  = <[10%nat := Text (bigint_toString (default 0 (m !! utcDate e)))]> row.
Proof.
  intros (_ & H9 & _) [Hdate _]. unfold attach. rewrite H9.
  destruct (String.eqb_spec (utcDate e) "") as [Heq | _]; [contradiction |].
  destruct (m !! utcDate e) as [v |]; simpl; [| reflexivity].
  destruct (String.eqb_spec (bigint_toString v) "") as [Heq | _]; [| reflexivity].
  apply bigint_toString_nonempty in Heq. destruct Heq.
Qed.

Lemma attach_row_of m e row : row_of e row -> entry_ok e -> row_of e (attach m row).
Proof.
  intros Hrow He. rewrite (attach_row m e row Hrow He).
  destruct Hrow as (H8 & H9 & Hlen). unfold row_of.
  rewrite !list_lookup_insert_ne by lia. rewrite length_insert. auto.
Qed.

Lemma day_volume_total d data rows :
  Forall2 row_of data rows -> Forall entry_ok data ->
  day_volume d rows = day_total d data.
Proof.
  induction 1 as [| e row data rows (H8 & H9 & _) _ IH]; intros Hok; [reflexivity |].
  apply Forall_cons_1 in Hok as [_ Hok]. simpl.
  rewrite H9, (IH Hok). unfold row_volume, entry_volume. rewrite H8. reflexivity.
Qed.

End CollectorArrays.

(** ** The rows the collector writes *)

Section CollectorRows.

Import Collector.

Lemma lookup_map {X Y} (f : X -> Y) (l : list X) (i : nat) :
  map f l !! i = option_map f (l !! i).
Proof.
  revert i. induction l as [| x l IH]; intros [| i]; simpl; auto.
Qed.

Lemma attach_rows m data rows :
  Forall2 row_of data rows -> Forall entry_ok data ->
  Forall2 row_of data (map (attach m) rows).
Proof.
  induction 1 as [| e row data rows Hrow _ IH]; intros Hok; simpl; [constructor |].
  apply Forall_cons_1 in Hok as [He Hok].
  constructor; [apply attach_row_of; assumption | apply IH; exact Hok].
Qed.

(** What a successful pass returns: the header, then the rows of the loop
    with the total of their day attached. *)
Lemma fetchData_Ok c rows :
  fetchData c = Ok rows ->
  exists n st m rows0,
    totalTx c = Ok n
    /\ loop c (Z.of_N n) (Z.to_nat (Z.of_N n)) 1 init = Ok st
    /\ s_allCandleData st = header :: rows0
    /\ Forall2 row_of (s_tVolData st) rows0
    /\ Forall entry_ok (s_tVolData st)
    /\ (forall d, default 0 (m !! d) = day_total d (s_tVolData st))
    /\ rows = header :: map (attach m) rows0.
Proof.
  unfold fetchData. intros H.
  destruct (totalTx c) as [n |]; simpl in H; [| discriminate].
  destruct (loop c (Z.of_N n) (Z.to_nat (Z.of_N n)) 1 init) as [st |] eqn:Hloop;
    simpl in H; [| discriminate].
  destruct (loop_well_formed c _ _ _ _ _ Hloop init_well_formed)
    as (rows0 & Hrows & Hf2 & Hok).
  destruct (dailyVolumes_total _ Hok ∅) as (m & Hm & Hsum).
  rewrite Hm, Hrows in H. simpl in H. injection H as <-.
  exists n, st, m, rows0. repeat split; assumption.
Qed.

Lemma fetchData_total c n :
  totalTx c = Ok n -> structural_ok c n -> exists rows, fetchData c = Ok rows.
Proof.
  intros Hn Hok. unfold fetchData. rewrite Hn. simpl.
  destruct (loop_total c (Z.of_N n) n (Z.to_nat (Z.of_N n)) Hok 1 init) as [st Hloop];
    [lia | lia |].
  rewrite Hloop. simpl.
  destruct (loop_well_formed c _ _ _ _ _ Hloop init_well_formed)
    as (rows0 & Hrows & Hf2 & Hwf).
  destruct (dailyVolumes_total _ Hwf ∅) as (m & Hm & _).
  rewrite Hm, Hrows. simpl. eauto.
Qed.

Lemma finalized_row c rows i row :
  fetchData c = Ok rows -> (1 <= i)%nat -> rows !! i = Some row ->
  exists date,
    row !! 9%nat = Some (Text date)
    /\ row !! 10%nat = Some (Text (bigint_toString (day_volume date (tail rows)))).
Proof.
  intros H Hi Hrow.
  destruct (fetchData_Ok c rows H) as (n & st & m & rows0 & _ & _ & _ & Hf2 & Hok & Hsum & ->).
  simpl tail. destruct i as [| i]; [lia |]. simpl in Hrow.
  rewrite lookup_map in Hrow.
  destruct (rows0 !! i) as [row0 |] eqn:Hrow0; [| discriminate]. injection Hrow as <-.
  destruct (Forall2_lookup_r _ _ _ _ _ Hf2 Hrow0) as (e & He & Hrow).
  assert (entry_ok e) as Hentry.
  { rewrite List.Forall_forall in Hok. apply Hok. apply list_elem_of_In.
    eapply list_elem_of_lookup_2. exact He. }
  exists (utcDate e).
  rewrite (day_volume_total _ _ _ (attach_rows m _ _ Hf2 Hok) Hok).
  rewrite (attach_row m e row0 Hrow Hentry), Hsum.
  destruct Hrow as (_ & H9 & Hlen).
  rewrite list_lookup_insert_ne by lia.
  rewrite list_lookup_insert_eq by lia. auto.
Qed.

End CollectorRows.

(** ** C8 *)

(** C8, the code at the failing input.  The contract has two transactions,
    at the first second of 10000-01-01 and of 10000-01-02, with volumes 5
    and 7.  The ISO text of such a time starts with the expanded year, so
    its first ten characters, which the collector takes for the UTC date,
    are "+010000-01" for both: the two ticks fall on different UTC days,
    yet both rows carry 12 as Daily Total Volume, where the ticks of the
    first day add up to 5 and those of the second to 7. *)
Theorem year_10000_days_share_total :
  Collector.fetchData year_10000_contract = Ok year_10000_rows
  /\ exists row row',
       year_10000_rows !! 1%nat = Some row /\ year_10000_rows !! 2%nat = Some row'
       /\ row_day row = Some 2932897 /\ row_day row' = Some 2932898
       /\ row !! 9%nat = Some (Collector.Text "+010000-01")
       /\ row' !! 9%nat = Some (Collector.Text "+010000-01")
       /\ row !! 10%nat = Some (Collector.Text "12")
       /\ row' !! 10%nat = Some (Collector.Text "12")
       /\ utc_day_volume 2932897 (tail year_10000_rows) = 5
       /\ utc_day_volume 2932898 (tail year_10000_rows) = 7.
Proof.
  split; [vm_compute; reflexivity |].
  do 2 eexists. split; [reflexivity | split; [reflexivity |]].
  repeat split; reflexivity.
Qed.

(** ** C7 *)

Section VolumeFailure.

Import Collector.

Variable c : contract.
Variable totalTx : Z.

Lemma recorded_rows st i ts candle :
  exists row,
    s_allCandleData (recorded c totalTx st i ts candle) = s_allCandleData st ++ [row].
Proof.
  destruct (recorded_entry c totalTx st i ts candle) as (e & row & _ & H & _). eauto.
Qed.

Lemma loop_rows k :
  forall from st st', loop c totalTx k from st = Ok st' ->
    exists more, s_allCandleData st' = s_allCandleData st ++ more /\ length more = k.
Proof.
  induction k as [| k IH]; intros from st st'; simpl.
  - intros [= <-]. exists []. rewrite app_nil_r. auto.
  - destruct (iteration c totalTx st from) as [st1 |] eqn:E; simpl; [| discriminate].
    intros Hloop. destruct (IH _ _ _ Hloop) as (more & Hmore & Hlen).
    apply iteration_Ok in E as (ts & candle & _ & _ & _ & ->).
    destruct (recorded_rows st from (Z.of_N ts) candle) as [row Hrow].
    exists (row :: more). rewrite Hmore, Hrow, <- app_assoc. simpl. auto.
Qed.

(** The state a failed volume lookup leaves behind. *)
Lemma recorded_failed st i ts candle x :
  tVol c ts = Throw x ->
  recorded c totalTx st i ts candle
  = {| s_cumulativeTotalVolume := s_cumulativeTotalVolume st;
       s_currentDay := s_currentDay st;
       s_currentDayCumulativeVolume := s_currentDayCumulativeVolume st;
       s_tVolData :=
         s_tVolData st ++
         [{| Timestamp := ts; e_tVol := "Error"; utcDate := utcDate_of ts;
             cumulativeDailyVolume := bigint_toString (s_currentDayCumulativeVolume st);
             cumulativeTotalVolume := bigint_toString (s_cumulativeTotalVolume st) |}];
       s_allCandleData :=
         s_allCandleData st ++
         [[Number totalTx; Number i; Number ts;
           Text (toUTCString (Some (ts * 1000)));
           Text (bigint_toString (Z.of_N (open candle)));
           Text (bigint_toString (Z.of_N (close candle)));
           Text (bigint_toString (Z.of_N (high candle)));
           Text (bigint_toString (Z.of_N (low candle)));
           Text "Error"; Text (utcDate_of ts); Text "";
           Text (bigint_toString (s_currentDayCumulativeVolume st));
           Text (bigint_toString (s_cumulativeTotalVolume st))]] |}.
Proof.
  intros H. unfold recorded. rewrite (fetch_tVol_failed c ts _ st x H). reflexivity.
Qed.

End VolumeFailure.

(** C7.  When the lookups of the timestamp and of the candle succeed for
    every transaction, the pass completes and writes the header and one row
    per transaction, whatever volume lookups fail.  A tick whose volume
    lookup failed leaves the total, the daily total and the current day as
    they were before its iteration, and its row is written with the marker
    "Error" as its volume and all its other fields. *)
Theorem volume_failure_not_fatal (c : Collector.contract) (n : N) :
  Collector.totalTx c = Ok n ->
  structural_ok c n ->
  exists rows,
    Collector.fetchData c = Ok rows
    /\ length rows = S (N.to_nat n)
    /\ forall i ts candle x,
         1 <= i <= Z.of_N n ->
         Collector.txTimeStamp c i = Ok ts ->
         Collector.candleStickData c (Z.of_N ts) = Ok candle ->
         Collector.tVol c (Z.of_N ts) = Throw x ->
         exists st st' finalized,
           Collector.loop c (Z.of_N n) (Z.to_nat (i - 1)) 1 Collector.init = Ok st
           /\ Collector.iteration c (Z.of_N n) st i = Ok st'
           /\ Collector.s_cumulativeTotalVolume st' = Collector.s_cumulativeTotalVolume st
           /\ Collector.s_currentDayCumulativeVolume st'
              = Collector.s_currentDayCumulativeVolume st
           /\ Collector.s_currentDay st' = Collector.s_currentDay st
           /\ rows !! Z.to_nat i
              = Some (failed_row n i ts candle finalized
                        (Collector.s_currentDayCumulativeVolume st)
                        (Collector.s_cumulativeTotalVolume st)).
Proof.
  intros Hn Hok.
  destruct (fetchData_total c n Hn Hok) as [rows Hrows]. exists rows.
  split; [exact Hrows |].
  destruct (fetchData_Ok c rows Hrows)
    as (n' & stn & m & rows0 & Hn' & Hloop & Hall & _ & _ & _ & ->).
  rewrite Hn in Hn'. injection Hn' as <-.
  destruct (loop_rows c _ _ _ _ _ Hloop) as (more & Hmore & Hlen).
  rewrite Hall in Hmore. simpl in Hmore. injection Hmore as ->.
  split; [simpl; rewrite length_map, Hlen; lia |].
  intros i ts candle x Hi Hts Hcandle Hvol.
  destruct (Hok i Hi) as (ts' & candle' & Hts' & Hrange & Hcandle').
  rewrite Hts in Hts'. injection Hts' as <-.
  rewrite Hcandle in Hcandle'. injection Hcandle' as <-.
  set (a := Z.to_nat (i - 1)) in *.
  replace (Z.to_nat (Z.of_N n)) with (a + S (Z.to_nat (Z.of_N n) - S a))%nat in Hloop by lia.
  rewrite loop_add in Hloop.
  destruct (Collector.loop c (Z.of_N n) a 1 Collector.init) as [st |] eqn:Ha;
    simpl in Hloop; [| discriminate].
  replace (1 + Z.of_nat a) with i in Hloop by lia.
  pose proof (iteration_recorded c (Z.of_N n) st i ts candle Hts Hrange Hcandle) as Hit.
  rewrite Hit in Hloop. simpl in Hloop.
  rewrite (recorded_failed c (Z.of_N n) st i (Z.of_N ts) candle x Hvol) in Hloop, Hit.
  destruct (loop_rows c _ _ _ _ _ Ha) as (pre & Hpre & Hprelen).
  destruct (loop_rows c _ _ _ _ _ Hloop) as (post & Hpost & _).
  simpl in Hpost. rewrite Hall, Hpre in Hpost. simpl in Hpost.
  rewrite <- app_assoc in Hpost. simpl in Hpost. injection Hpost as Hrows0.
  eexists st, _, _. split; [reflexivity | split; [exact Hit |]].
  split; [reflexivity | split; [reflexivity | split; [reflexivity |]]].
  replace (Z.to_nat i) with (S a) by lia. simpl.
  rewrite lookup_map, Hrows0.
  rewrite list_lookup_middle by (symmetry; exact Hprelen). simpl.
  unfold Collector.attach. simpl.
  destruct (String.eqb_spec (utcDate_of (Z.of_N ts)) "") as [Heq | _];
    [apply utcDate_of_nonempty in Heq; destruct Heq |].
  reflexivity.
Qed.

Lemma volume_failure_not_fatal_witness :
  exists rows,
    Collector.fetchData sample_contract = Ok rows
    /\ length rows = 4%nat
    /\ forall i ts candle x,
         1 <= i <= 3 ->
         Collector.txTimeStamp sample_contract i = Ok ts ->
         Collector.candleStickData sample_contract (Z.of_N ts) = Ok candle ->
         Collector.tVol sample_contract (Z.of_N ts) = Throw x ->
         exists st st' finalized,
           Collector.loop sample_contract 3 (Z.to_nat (i - 1)) 1 Collector.init = Ok st
           /\ Collector.iteration sample_contract 3 st i = Ok st'
           /\ Collector.s_cumulativeTotalVolume st' = Collector.s_cumulativeTotalVolume st
           /\ Collector.s_currentDayCumulativeVolume st'
              = Collector.s_currentDayCumulativeVolume st
           /\ Collector.s_currentDay st' = Collector.s_currentDay st
           /\ rows !! Z.to_nat i
              = Some (failed_row 3 i ts candle finalized
                        (Collector.s_currentDayCumulativeVolume st)
                        (Collector.s_cumulativeTotalVolume st)).
Proof.
  apply (volume_failure_not_fatal sample_contract 3); [reflexivity |].
  intros i Hi. assert (i = 1 \/ i = 2 \/ i = 3) as [-> | [-> | ->]] by lia;
    do 2 eexists; (split; [reflexivity | split; [vm_compute; discriminate | reflexivity]]).
Defined.

(** ** The UTC date of a timestamp *)

Section UtcDate.

Lemma length_append (a b : string) :
  String.length (a ++ b)%string = (String.length a + String.length b)%nat.
Proof.
  induction a as [| x a IH]; [reflexivity |].
  change (S (String.length (a ++ b)%string) = S (String.length a + String.length b)).
  rewrite IH. reflexivity.
Qed.

Lemma length_zeros k s : String.length (zeros k s) = (k + String.length s)%nat.
Proof.
  revert s. induction k as [| k IH]; intros s; [reflexivity |].
  simpl. rewrite IH. simpl. lia.
Qed.

Lemma length_pad w n : (w <= String.length (pad w n))%nat.
Proof. unfold pad. rewrite length_zeros. lia. Qed.

Lemma length_iso_year y : (4 <= String.length (iso_year y))%nat.
Proof.
  unfold iso_year. destruct (_ && _); [apply length_pad |].
  rewrite length_append. pose proof (length_pad 6 (Z.abs y)). lia.
Qed.

(** The first [n] characters of a text do not depend on what follows its
    first [n] characters. *)
Lemma substring_prefix n (a b b' : string) :
  (n <= String.length a)%nat ->
  String.substring 0 n (a ++ b) = String.substring 0 n (a ++ b').
Proof.
  revert a. induction n as [| n IH]; intros a Ha.
  - destruct (a ++ b)%string, (a ++ b')%string; reflexivity.
  - destruct a as [| x a]; [simpl in Ha; lia |].
    change (String.substring 0 (S n) (String x (a ++ b))
            = String.substring 0 (S n) (String x (a ++ b'))).
    simpl. f_equal. apply IH. simpl in Ha. lia.
Qed.

Lemma append_assoc (a b d : string) : ((a ++ b) ++ d)%string = (a ++ (b ++ d))%string.
Proof.
  induction a as [| x a IH]; [reflexivity |].
  change (String x ((a ++ b) ++ d)%string = String x (a ++ (b ++ d))%string).
  rewrite IH. reflexivity.
Qed.

(** The date the collector derives depends on the day of the timestamp
    only. *)
Lemma utcDate_of_day ts ts' : ts / 86400 = ts' / 86400 -> utcDate_of ts = utcDate_of ts'.
Proof.
  intros Hday. unfold utcDate_of, iso_string.
  replace (ts * 1000 / 86400000) with (ts / 86400)
    by (change 86400000 with (86400 * 1000); rewrite Z.div_mul_cancel_r; lia).
  replace (ts' * 1000 / 86400000) with (ts' / 86400)
    by (change 86400000 with (86400 * 1000); rewrite Z.div_mul_cancel_r; lia).
  rewrite <- Hday. destruct (civil_from_days (ts / 86400)) as [[y m] d].
  rewrite <- !(append_assoc (iso_year y)), <- !(append_assoc (iso_year y ++ "-")),
    <- !(append_assoc ((iso_year y ++ "-") ++ pad 2 m)),
    <- !(append_assoc (((iso_year y ++ "-") ++ pad 2 m) ++ "-")).
  apply substring_prefix.
  rewrite !length_append.
  pose proof (length_iso_year y). pose proof (length_pad 2 m). pose proof (length_pad 2 d).
  simpl. lia.
Qed.

End UtcDate.

(** ** The calendar *)

Section Calendar.

Lemma all_from_spec f n :
  forall z0, all_from f n z0 = true ->
    forall z, z0 <= z < z0 + Z.of_nat n -> f z = true.
Proof.
  induction n as [| n IH]; intros z0 H z Hz; [lia |].
  simpl in H. destruct (f z0) eqn:E; [| discriminate].
  destruct (Z.eq_dec z z0) as [-> | Hne]; [exact E |].
  apply (IH (z0 + 1) H). lia.
Qed.

Lemma days_checked : all_from day_ok (Z.to_nat 146097) 0 = true.
Proof. vm_compute. reflexivity. Qed.

Lemma pad4_checked : all_from (pad_ok 4) (Z.to_nat 10000) 0 = true.
Proof. vm_compute. reflexivity. Qed.

Lemma pad2_checked : all_from (pad_ok 2) (Z.to_nat 100) 0 = true.
Proof. vm_compute. reflexivity. Qed.

Lemma civil_from_days_era z :
  let era := (z + 719468) / 146097 in
  let doe := (z + 719468) mod 146097 in
  civil_from_days z
  = let '(y, m, d) := civil_of_era 0 doe in (y + era * 400, m, d).
Proof.
  cbv zeta. unfold civil_from_days, civil_of_era. cbv zeta.
  rewrite Z.mod_eq by lia.
  replace (z + 719468 - (z + 719468) / 146097 * 146097)
    with (z + 719468 - 146097 * ((z + 719468) / 146097)) by lia.
  set (doe := z + 719468 - 146097 * ((z + 719468) / 146097)).
  set (yoe := (doe - doe / 1460 + doe / 36524 - doe / 146096) / 365).
  set (doy := doe - (365 * yoe + yoe / 4 - yoe / 100)).
  set (mp := (5 * doy + 2) / 153).
  destruct ((if mp <? 10 then mp + 3 else mp - 9) <=? 2); f_equal; f_equal; lia.
Qed.

Lemma days_from_civil_era y m d era :
  days_from_civil (y + era * 400) m d = days_from_civil y m d + era * 146097.
Proof.
  unfold days_from_civil. cbv zeta.
  replace (if m <=? 2 then y + era * 400 - 1 else y + era * 400)
    with ((if m <=? 2 then y - 1 else y) + era * 400)
    by (destruct (m <=? 2); lia).
  set (a := if m <=? 2 then y - 1 else y).
  rewrite Z.div_add by lia.
  replace (a + era * 400 - (a / 400 + era) * 400) with (a - a / 400 * 400) by lia.
  lia.
Qed.

Lemma day_ok_spec z :
  let era := (z + 719468) / 146097 in
  let doe := (z + 719468) mod 146097 in
  day_ok doe = true.
Proof.
  cbv zeta. apply (all_from_spec day_ok (Z.to_nat 146097) 0 days_checked).
  pose proof (Z.mod_pos_bound (z + 719468) 146097). lia.
Qed.

(** The day number of the date of a day is that day. *)
Lemma days_from_civil_from_days z :
  let '(y, m, d) := civil_from_days z in days_from_civil y m d = z.
Proof.
  pose proof (civil_from_days_era z) as Hc. cbv zeta in Hc. rewrite Hc.
  pose proof (day_ok_spec z) as Hok. cbv zeta in Hok. unfold day_ok in Hok.
  destruct (civil_of_era 0 ((z + 719468) mod 146097)) as [[y m] d].
  rewrite days_from_civil_era.
  repeat (apply andb_true_iff in Hok as [Hok ?]).
  apply Z.eqb_eq in Hok. rewrite Hok.
  pose proof (Z.div_mod (z + 719468) 146097). lia.
Qed.

Lemma civil_from_days_range z :
  0 <= z < 2932897 ->
  let '(y, m, d) := civil_from_days z in
  0 <= y <= 9999 /\ 1 <= m <= 12 /\ 1 <= d <= 31.
Proof.
  intros Hz. pose proof (civil_from_days_era z) as Hc. cbv zeta in Hc. rewrite Hc.
  pose proof (day_ok_spec z) as Hok. cbv zeta in Hok. unfold day_ok in Hok.
  pose proof (Z.div_mod (z + 719468) 146097 ltac:(lia)) as Hdm.
  pose proof (Z.mod_pos_bound (z + 719468) 146097 ltac:(lia)) as Hmod.
  set (era := (z + 719468) / 146097) in *.
  set (doe := (z + 719468) mod 146097) in *.
  destruct (civil_of_era 0 doe) as [[y m] d].
  repeat (apply andb_true_iff in Hok as [Hok ?]).
  repeat match goal with H : (_ <=? _) = true |- _ => apply Z.leb_le in H end.
  assert (4 <= era <= 24) as Hera by nia.
  assert (y <= 399 \/ era <= 23) as Hy.
  { match goal with H : (_ || _) = true |- _ => apply orb_true_iff in H as [H | H] end.
    - apply Z.leb_le in H. right. nia.
    - apply Z.leb_le in H. left. exact H. }
  lia.
Qed.


Lemma pad_checked_spec w bound n :
  all_from (pad_ok w) (Z.to_nat bound) 0 = true ->
  0 <= n < bound ->
  String.length (pad w n) = w /\ all_digits 10 (pad w n) = Some n.
Proof.
  intros Hall Hn.
  pose proof (all_from_spec (pad_ok w) (Z.to_nat bound) 0 Hall n ltac:(lia)) as H.
  unfold pad_ok in H. apply andb_true_iff in H as [Hlen Hdig].
  apply Nat.eqb_eq in Hlen. split; [exact Hlen |].
  destruct (all_digits 10 (pad w n)) as [v |]; [| discriminate].
  apply Z.eqb_eq in Hdig. congruence.
Qed.

Lemma append_inj (a a' b b' : string) :
  String.length a = String.length a' ->
  (a ++ b)%string = (a' ++ b')%string -> a = a' /\ b = b'.
Proof.
  revert a'. induction a as [| x a IH]; intros [| x' a'] Hlen; try discriminate.
  - auto.
  - intros H.
    change (String x (a ++ b)%string = String x' (a' ++ b')%string) in H.
    injection H as -> H. injection Hlen as Hlen.
    destruct (IH a' Hlen H) as [-> ->]. auto.
Qed.

Lemma substring_exact (a b : string) :
  String.substring 0 (String.length a) (a ++ b) = a.
Proof.
  induction a as [| x a IH].
  - destruct b; reflexivity.
  - change (String.substring 0 (S (String.length a)) (String x (a ++ b)%string)
            = String x a).
    simpl. rewrite IH. reflexivity.
Qed.

Lemma date_text_inj y m d y' m' d' :
  0 <= y < 10000 -> 0 <= m < 100 -> 0 <= d < 100 ->
  0 <= y' < 10000 -> 0 <= m' < 100 -> 0 <= d' < 100 ->
  date_text y m d = date_text y' m' d' -> y = y' /\ m = m' /\ d = d'.
Proof.
  intros Hy Hm Hd Hy' Hm' Hd'. unfold date_text.
  destruct (pad_checked_spec 4 10000 y pad4_checked Hy) as [Ly Dy].
  destruct (pad_checked_spec 4 10000 y' pad4_checked Hy') as [Ly' Dy'].
  destruct (pad_checked_spec 2 100 m pad2_checked Hm) as [Lm Dm].
  destruct (pad_checked_spec 2 100 m' pad2_checked Hm') as [Lm' Dm'].
  destruct (pad_checked_spec 2 100 d pad2_checked Hd) as [_ Dd].
  destruct (pad_checked_spec 2 100 d' pad2_checked Hd') as [_ Dd'].
  intros H. apply append_inj in H as [H1 H]; [| congruence].
  apply (append_inj "-" "-") in H as [_ H]; [| reflexivity].
  apply append_inj in H as [H2 H]; [| congruence].
  apply (append_inj "-" "-") in H as [_ H3]; [| reflexivity].
  rewrite H1 in Dy. rewrite H2 in Dm. rewrite H3 in Dd.
  repeat split; congruence.
Qed.

Lemma utcDate_of_text ts :
  0 <= ts < year_10000 ->
  let '(y, m, d) := civil_from_days (ts / 86400) in
  utcDate_of ts = date_text y m d.
Proof.
  intros Hts. unfold utcDate_of, iso_string.
  replace (ts * 1000 / 86400000) with (ts / 86400)
    by (change 86400000 with (86400 * 1000); rewrite Z.div_mul_cancel_r; lia).
  assert (0 <= ts / 86400 < 2932897) as Hday.
  { unfold year_10000 in Hts. split; [apply Z.div_pos; lia |].
    apply Z.div_lt_upper_bound; lia. }
  pose proof (civil_from_days_range _ Hday) as Hr.
  destruct (civil_from_days (ts / 86400)) as [[y m] d].
  destruct Hr as (Hy & Hm & Hd).
  unfold iso_year.
  replace ((0 <=? y) && (y <=? 9999)) with true
    by (symmetry; apply andb_true_iff; split; apply Z.leb_le; lia).
  destruct (pad_checked_spec 4 10000 y pad4_checked ltac:(lia)) as [Ly _].
  destruct (pad_checked_spec 2 100 m pad2_checked ltac:(lia)) as [Lm _].
  destruct (pad_checked_spec 2 100 d pad2_checked ltac:(lia)) as [Ld _].
  unfold date_text.
  rewrite <- !(append_assoc (pad 4 y)), <- !(append_assoc (pad 4 y ++ "-")),
    <- !(append_assoc ((pad 4 y ++ "-") ++ pad 2 m)),
    <- !(append_assoc (((pad 4 y ++ "-") ++ pad 2 m) ++ "-")).
  set (a := ((((pad 4 y ++ "-") ++ pad 2 m) ++ "-") ++ pad 2 d)%string).
  assert (String.length a = 10%nat) as La.
  { unfold a. rewrite !length_append, Ly, Lm, Ld. reflexivity. }
  rewrite <- La. apply substring_exact.
Qed.

(** Before the year 10000, two timestamps have the same date text exactly
    when they fall on the same UTC day. *)
Lemma utcDate_of_same_day ts ts' :
  0 <= ts < year_10000 -> 0 <= ts' < year_10000 ->
  String.eqb (utcDate_of ts) (utcDate_of ts') = (ts / 86400 =? ts' / 86400).
Proof.
  intros Hts Hts'.
  destruct (Z.eqb_spec (ts / 86400) (ts' / 86400)) as [Heq | Hne].
  - rewrite (utcDate_of_day _ _ Heq). apply String.eqb_refl.
  - apply String.eqb_neq. intros H. apply Hne.
    pose proof (utcDate_of_text ts Hts) as T. pose proof (utcDate_of_text ts' Hts') as T'.
    assert (0 <= ts / 86400 < 2932897) as Hday
      by (unfold year_10000 in Hts; split;
          [apply Z.div_pos; lia | apply Z.div_lt_upper_bound; lia]).
    assert (0 <= ts' / 86400 < 2932897) as Hday'
      by (unfold year_10000 in Hts'; split;
          [apply Z.div_pos; lia | apply Z.div_lt_upper_bound; lia]).
    pose proof (civil_from_days_range _ Hday) as R.
    pose proof (civil_from_days_range _ Hday') as R'.
    pose proof (days_from_civil_from_days (ts / 86400)) as D.
    pose proof (days_from_civil_from_days (ts' / 86400)) as D'.
    destruct (civil_from_days (ts / 86400)) as [[y m] d].
    destruct (civil_from_days (ts' / 86400)) as [[y' m'] d'].
    rewrite T, T' in H.
    apply date_text_inj in H as (-> & -> & ->); [congruence | lia ..].
Qed.

End Calendar.

(** ** C6 *)

Section RunningTotals.

Import Collector.

Variable c : contract.
Variable totalTx : Z.

Lemma last_available_day_snoc data e :
  last_available_day (data ++ [e])
  = if String.eqb (e_tVol e) "Error" then last_available_day data else Some (utcDate e).
Proof.
  induction data as [| e' data IH]; simpl.
  - destruct (String.eqb (e_tVol e) "Error"); reflexivity.
  - rewrite IH. destruct (String.eqb (e_tVol e) "Error"); reflexivity.
Qed.

(** What one iteration does to the accumulators. *)
Lemma recorded_totals st i ts candle :
  let st' := recorded c totalTx st i ts candle in
  exists e,
    s_tVolData st' = s_tVolData st ++ [e]
    /\ Timestamp e = ts /\ utcDate e = utcDate_of ts
    /\ ((exists x, tVol c ts = Throw x)
        /\ e_tVol e = "Error"
        /\ s_currentDay st' = s_currentDay st
        /\ s_cumulativeTotalVolume st' = s_cumulativeTotalVolume st
        /\ s_currentDayCumulativeVolume st' = s_currentDayCumulativeVolume st
        \/ exists v,
             tVol c ts = Ok v
             /\ e_tVol e = bigint_toString (Z.of_N v)
             /\ s_currentDay st' = Some (utcDate e)
             /\ s_cumulativeTotalVolume st' = s_cumulativeTotalVolume st + Z.of_N v
             /\ s_currentDayCumulativeVolume st'
                = if same_day (s_currentDay st) (utcDate e)
                  then s_currentDayCumulativeVolume st + Z.of_N v
                  else Z.of_N v).
Proof.
  unfold recorded. destruct (tVol c ts) as [v | x] eqn:Hv.
  - rewrite (fetch_tVol_available c ts _ st v Hv). eexists.
    split; [reflexivity | split; [reflexivity | split; [reflexivity |]]].
    right. exists v. simpl.
    destruct (same_day (s_currentDay st) (utcDate_of ts)); auto.
  - rewrite (fetch_tVol_failed c ts _ st x Hv). eexists.
    split; [reflexivity | split; [reflexivity | split; [reflexivity |]]].
    left. simpl. eauto 10.
Qed.

(** The current day is the day of the latest tick whose volume was
    available. *)
Lemma current_day_recorded st i ts candle :
  s_currentDay st = last_available_day (s_tVolData st) ->
  let st' := recorded c totalTx st i ts candle in
  s_currentDay st' = last_available_day (s_tVolData st').
Proof.
  intros Hinv st'.
  destruct (recorded_totals st i ts candle) as (e & He & _ & _ & Hcases).
  fold st' in He, Hcases. rewrite He, last_available_day_snoc.
  destruct Hcases as [(_ & Herr & Hday & _) | (v & _ & Hv & Hday & _)].
  - rewrite Herr. simpl. congruence.
  - destruct (String.eqb_spec (e_tVol e) "Error") as [Heq | _]; [| exact Hday].
    rewrite Hv in Heq. apply bigint_toString_not_Error in Heq. destruct Heq.
Qed.

Lemma current_day_loop k :
  forall from st st', loop c totalTx k from st = Ok st' ->
    s_currentDay st = last_available_day (s_tVolData st) ->
    s_currentDay st' = last_available_day (s_tVolData st').
Proof.
  induction k as [| k IH]; intros from st st'; simpl.
  - intros [= <-]. auto.
  - destruct (iteration c totalTx st from) as [st1 |] eqn:E; simpl; [| discriminate].
    intros Hloop Hinv. apply (IH _ _ _ Hloop).
    apply iteration_Ok in E as (ts & candle & _ & _ & _ & ->).
    apply current_day_recorded. exact Hinv.
Qed.

End RunningTotals.

Section RunningDays.

Import Collector.

Variable c : contract.
Variable totalTx : Z.

Lemma last_available_stamp_snoc data e :
  last_available_stamp (data ++ [e])
  = if String.eqb (e_tVol e) "Error" then last_available_stamp data
    else Some (Timestamp e).
Proof.
  induction data as [| e' data IH]; simpl.
  - destruct (String.eqb (e_tVol e) "Error"); reflexivity.
  - rewrite IH. destruct (String.eqb (e_tVol e) "Error"); reflexivity.
Qed.

(** The date the loop remembers is the date text of the timestamp of the
    latest tick whose volume was available. *)
Lemma last_available_dated data :
  Forall dated data ->
  last_available_day data = option_map utcDate_of (last_available_stamp data)
  /\ forall t, last_available_stamp data = Some t -> 0 <= t < year_10000.
Proof.
  induction 1 as [| e data [Hdate Hrange] _ [IH1 IH2]]; simpl.
  - split; [reflexivity | discriminate].
  - rewrite IH1. destruct (last_available_stamp data) as [t |]; simpl.
    + split; [reflexivity |]. intros t' [= <-]. apply IH2. reflexivity.
    + destruct (String.eqb (e_tVol e) "Error"); simpl.
      * split; [reflexivity | discriminate].
      * split; [rewrite Hdate; reflexivity |]. intros t' [= <-]. exact Hrange.
Qed.

Lemma same_day_utc previous timestamp :
  (forall t, previous = Some t -> 0 <= t < year_10000) ->
  0 <= timestamp < year_10000 ->
  same_day (option_map utcDate_of previous) (utcDate_of timestamp)
  = same_utc_day previous timestamp.
Proof.
  intros Hp Ht. destruct previous as [t |]; simpl; [| reflexivity].
  apply utcDate_of_same_day; [apply Hp; reflexivity | exact Ht].
Qed.

Lemma loop_dated k :
  forall st,
    before_year_10000 c (Z.of_nat k) ->
    loop c totalTx k 1 init = Ok st ->
    Forall dated (s_tVolData st).
Proof.
  induction k as [| k IH]; intros st Hyear.
  - simpl. intros [= <-]. constructor.
  - rewrite loop_snoc.
    destruct (loop c totalTx k 1 init) as [st1 |] eqn:Hk; simpl; [| discriminate].
    intros Hit. apply iteration_Ok in Hit as (ts & candle & Hts & _ & _ & ->).
    destruct (recorded_entry c totalTx st1 (1 + Z.of_nat k) (Z.of_N ts) candle)
      as (e & row & He & _ & _ & _ & Hdate & Hstamp & _).
    rewrite He. apply Forall_app. split.
    + apply (IH st1); [| reflexivity]. intros i ts' Hi. apply Hyear. lia.
    + constructor; [| constructor]. split; [congruence |]. rewrite Hstamp.
      split; [lia |]. apply (Hyear (1 + Z.of_nat k)); [lia | exact Hts].
Qed.

End RunningDays.

(** C6, as amended.  While the timestamps of a pass are before the year
    10000, at every step the total cumulative volume does not decrease.  A
    tick whose volume is unavailable leaves the total and the daily total as
    they were, also when it falls on another UTC day than the tick before
    it.  A tick whose volume is available adds it to the total, and the
    daily total is reset, ending the step equal to the tick's own volume,
    exactly when the tick's timestamp falls on another UTC day than the
    timestamp of the latest earlier tick whose volume was available, or
    there is no such tick; otherwise the daily total grows by the volume. *)
Theorem running_totals_step (c : Collector.contract) (totalTx : Z) (k : nat)
    (st st' : Collector.state) :
  before_year_10000 c (1 + Z.of_nat k) ->
  Collector.loop c totalTx k 1 Collector.init = Ok st ->
  Collector.iteration c totalTx st (1 + Z.of_nat k) = Ok st' ->
  exists e,
    Collector.s_tVolData st' = Collector.s_tVolData st ++ [e]
    /\ Collector.s_cumulativeTotalVolume st <= Collector.s_cumulativeTotalVolume st'
    /\ ((exists x, Collector.tVol c (Collector.Timestamp e) = Throw x)
        /\ Collector.e_tVol e = "Error"
        /\ Collector.s_cumulativeTotalVolume st' = Collector.s_cumulativeTotalVolume st
        /\ Collector.s_currentDayCumulativeVolume st'
           = Collector.s_currentDayCumulativeVolume st
        \/ exists v,
             Collector.tVol c (Collector.Timestamp e) = Ok v
             /\ Collector.e_tVol e = bigint_toString (Z.of_N v)
             /\ Collector.s_cumulativeTotalVolume st'
                = Collector.s_cumulativeTotalVolume st + Z.of_N v
             /\ Collector.s_currentDayCumulativeVolume st'
                = if same_utc_day (last_available_stamp (Collector.s_tVolData st))
                       (Collector.Timestamp e)
                  then Collector.s_currentDayCumulativeVolume st + Z.of_N v
                  else Z.of_N v).
Proof.
  intros Hyear Hloop Hit.
  pose proof (current_day_loop c totalTx k _ _ _ Hloop eq_refl) as Hday.
  assert (Forall dated (Collector.s_tVolData st)) as Hdated.
  { apply (loop_dated c totalTx k st); [| exact Hloop].
    intros i ts Hi. apply Hyear. lia. }
  destruct (last_available_dated _ Hdated) as [Htext Hprev].
  apply iteration_Ok in Hit as (ts & candle & Hts & _ & _ & ->).
  assert (0 <= Z.of_N ts < year_10000) as Hrange
    by (split; [lia | apply (Hyear (1 + Z.of_nat k)); [lia | exact Hts]]).
  destruct (recorded_totals c totalTx st (1 + Z.of_nat k) (Z.of_N ts) candle)
    as (e & He & Hstamp & Hdate & Hcases).
  exists e. split; [exact He |]. rewrite Hstamp.
  destruct Hcases as [(Hx & Herr & _ & Htot & Hdaily) | (v & Hv & Hstr & _ & Htot & Hdaily)].
  - split; [lia |]. left. auto.
  - split; [lia |]. right. exists v.
    rewrite <- (same_day_utc _ _ Hprev Hrange), <- Htext, <- Hday, <- Hdate. auto.
Qed.

Lemma running_totals_step_witness :
  before_year_10000 sample_contract (1 + Z.of_nat 1)
  /\ Collector.s_currentDayCumulativeVolume sample_state_1 = 5
  /\ Collector.s_currentDayCumulativeVolume sample_state_2 = 5
  /\ exists e,
       Collector.s_tVolData sample_state_2 = Collector.s_tVolData sample_state_1 ++ [e]
       /\ Collector.s_cumulativeTotalVolume sample_state_1
          <= Collector.s_cumulativeTotalVolume sample_state_2
       /\ ((exists x, Collector.tVol sample_contract (Collector.Timestamp e) = Throw x)
           /\ Collector.e_tVol e = "Error"
           /\ Collector.s_cumulativeTotalVolume sample_state_2
              = Collector.s_cumulativeTotalVolume sample_state_1
           /\ Collector.s_currentDayCumulativeVolume sample_state_2
              = Collector.s_currentDayCumulativeVolume sample_state_1
           \/ exists v,
                Collector.tVol sample_contract (Collector.Timestamp e) = Ok v
                /\ Collector.e_tVol e = bigint_toString (Z.of_N v)
                /\ Collector.s_cumulativeTotalVolume sample_state_2
                   = Collector.s_cumulativeTotalVolume sample_state_1 + Z.of_N v
                /\ Collector.s_currentDayCumulativeVolume sample_state_2
                   = if same_utc_day
                          (last_available_stamp (Collector.s_tVolData sample_state_1))
                          (Collector.Timestamp e)
                     then Collector.s_currentDayCumulativeVolume sample_state_1 + Z.of_N v
                     else Z.of_N v).
Proof.
  assert (before_year_10000 sample_contract (1 + Z.of_nat 1)) as H.
  { intros i ts Hi. assert (i = 1 \/ i = 2) as [-> | ->] by lia;
      simpl; intros [= <-]; reflexivity. }
  split; [exact H | split; [reflexivity | split; [reflexivity |]]].
  apply (running_totals_step sample_contract 3 1 sample_state_1 sample_state_2 H);
    vm_compute; reflexivity.
Defined.

(** C6 as stated fails on the sample contract: the second tick falls on
    another day than the first and its volume is unavailable, yet the daily
    total stays 5 and is not reset to zero. *)
Lemma failed_lookup_skips_reset : ~ resets_on_date_change sample_contract.
Proof.
  intros H.
  assert (Collector.s_currentDayCumulativeVolume sample_state_2 = 0) as Habs.
  { apply (H 3 1%nat sample_state_1 sample_state_2
             {| Collector.Timestamp := 50000; Collector.e_tVol := "5";
                Collector.utcDate := "1970-01-01";
                Collector.cumulativeDailyVolume := "5";
                Collector.cumulativeTotalVolume := "5" |}
             {| Collector.Timestamp := 100000; Collector.e_tVol := "Error";
                Collector.utcDate := "1970-01-02";
                Collector.cumulativeDailyVolume := "5";
                Collector.cumulativeTotalVolume := "5" |});
      try (vm_compute; reflexivity).
    discriminate. }
  discriminate Habs.
Qed.

(** * Further properties of the aggregation *)

(** ** What a stored candle is made of *)

Section StoredCandle.

Context {R A : Type}.
Variable parse : R -> option A.
Variable key : R -> string.
Variable merge : A -> A -> A.

Lemma absorb_Some c ticks :
  absorb merge (Some c) ticks = Some (fold_left merge ticks c).
Proof.
  revert c. induction ticks as [| t ticks IH]; intros c; [reflexivity |].
  simpl. apply IH.
Qed.

Lemma absorb_ticks ticks :
  absorb merge None ticks
  = match ticks with
    | [] => None
    | t :: rest => Some (fold_left merge rest t)
    end.
Proof. destruct ticks as [| t rest]; [reflexivity | apply absorb_Some]. Qed.

Lemma absorb_app stored l1 l2 :
  absorb merge stored (l1 ++ l2) = absorb merge (absorb merge stored l1) l2.
Proof. apply fold_left_app. Qed.

(** The candle stored under a key is the merge, in input order, of the
    records with that key. *)
Lemma keyed_fold_own records :
  forall o k,
    Obj.own (keyed_fold parse key merge records o) k
    = absorb merge (Obj.own o k) (keyed_ticks parse key k records).
Proof.
  induction records as [| r records IH]; intros o k; [reflexivity |].
  rewrite keyed_fold_cons, IH. simpl keyed_ticks. rewrite absorb_app. f_equal.
  unfold keyed_step. destruct (parse r) as [t |]; [| reflexivity].
  destruct (String.eqb_spec (key r) k) as [<- | Hne].
  - simpl. unfold upsert. destruct (Obj.own o (key r)); apply own_set_eq.
  - simpl. apply own_upsert_ne. exact Hne.
Qed.

Lemma keyed_ticks_In k records t :
  In t (keyed_ticks parse key k records) ->
  exists r, In r records /\ parse r = Some t /\ key r = k.
Proof.
  unfold keyed_ticks. rewrite in_flat_map. intros (r & Hr & Ht).
  exists r. destruct (parse r) as [t' |]; [| destruct Ht].
  destruct (String.eqb_spec (key r) k) as [Hk | _]; [| destruct Ht].
  destruct Ht as [<- | []]. auto.
Qed.

End StoredCandle.

(** ** The fields of an emitted candle *)

Section CandleFields.

Variable tf : jsnum.

Lemma fold_merge_exact rest :
  forall first,
    let c := fold_left merge_exact rest first in
    Big.open c = Big.open first
    /\ Big.close c = Big.close (List.last rest first)
    /\ Big.high c = fold_left Z.max (map Big.high rest) (Big.high first)
    /\ Big.low c = fold_left Z.min (map Big.low rest) (Big.low first)
    /\ Big.volume c = fold_left Z.add (map Big.volume rest) (Big.volume first).
Proof.
  induction rest as [| t rest IH]; intros first; [simpl; auto |].
  cbn zeta. cbn [fold_left map].
  destruct (IH (merge_exact first t)) as (Ho & Hc & Hh & Hl & Hv).
  rewrite Ho, Hc, Hh, Hl, Hv. cbn [merge_exact Big.open Big.high Big.low Big.close Big.volume].
  assert ((if Big.high t >? Big.high first then Big.high t else Big.high first)
          = Z.max (Big.high first) (Big.high t)) as ->
    by (destruct (Z.gtb_spec (Big.high t) (Big.high first)); lia).
  assert ((if Big.low t <? Big.low first then Big.low t else Big.low first)
          = Z.min (Big.low first) (Big.low t)) as ->
    by (destruct (Z.ltb_spec (Big.low t) (Big.low first)); lia).
  repeat split; try reflexivity.
  destruct rest as [| t' rest]; [reflexivity |].
  f_equal. clear. revert t'. induction rest as [| u rest IH]; intros t'; [reflexivity |].
  exact (IH u).
Qed.

Lemma exact_stored records k v :
  In (k, v) (keyed_fold parse_exact (bucket_key tf) merge_exact records []) ->
  exists first rest,
    keyed_ticks parse_exact (bucket_key tf) k records = first :: rest
    /\ v = fold_left merge_exact rest first.
Proof.
  intros Hin.
  assert (Obj.own (keyed_fold parse_exact (bucket_key tf) merge_exact records []) k = Some v)
    as Hown.
  { apply In_own; [| exact Hin].
    apply (keyed_fold_keys parse_exact (bucket_key tf) merge_exact records []). constructor. }
  rewrite keyed_fold_own in Hown. simpl Obj.own in Hown. rewrite absorb_ticks in Hown.
  destruct (keyed_ticks parse_exact (bucket_key tf) k records) as [| first rest];
    [discriminate |].
  injection Hown as <-. eauto.
Qed.

Lemma approx_stored records k v :
  In (k, v) (keyed_fold (parse_approx tf) (bucket_key tf) merge_approx records []) ->
  exists first rest,
    keyed_ticks (parse_approx tf) (bucket_key tf) k records = first :: rest
    /\ v = fold_left merge_approx rest first.
Proof.
  intros Hin.
  assert (Obj.own (keyed_fold (parse_approx tf) (bucket_key tf) merge_approx records []) k
          = Some v) as Hown.
  { apply In_own; [| exact Hin].
    apply (keyed_fold_keys (parse_approx tf) (bucket_key tf) merge_approx records []).
    constructor. }
  rewrite keyed_fold_own in Hown. simpl Obj.own in Hown. rewrite absorb_ticks in Hown.
  destruct (keyed_ticks (parse_approx tf) (bucket_key tf) k records) as [| first rest];
    [discriminate |].
  injection Hown as <-. eauto.
Qed.

End CandleFields.

(** X1.  Full-precision mode, for records of ASCII text whose timestamps
    are safe integers and a bucket width that is one: every emitted candle
    is made of the included ticks of its own bucket, taken in input order.
    Its open is the open of
    the first of them, its close the close of the last, its high the
    greatest of their highs, its low the least of their lows and its volume
    the exact sum of their volumes; each is written as the decimal text of
    that integer, and the readable timestamp is the ISO text of the bucket
    start. *)
Theorem exact_candle_fields (records : list CandleRecord) (tf : jsnum)
    (cs : list candle) (c : candle) :
  plain_records records ->
  safe_width tf ->
  aggregateCandleData records tf true = Ok cs ->
  In c cs ->
  exists s z first rest,
    c = inr s
    /\ Str.unixTimestamp s = Some z
    /\ Str.readableTimestamp s = iso_string (z * 1000)
    /\ exact_ticks tf z records = first :: rest
    /\ Str.open s = bigint_toString (Big.open first)
    /\ Str.close s = bigint_toString (Big.close (List.last rest first))
    /\ Str.high s
       = bigint_toString (fold_left Z.max (map Big.high rest) (Big.high first))
    /\ Str.low s
       = bigint_toString (fold_left Z.min (map Big.low rest) (Big.low first))
    /\ Str.volume s
       = bigint_toString (fold_left Z.add (map Big.volume rest) (Big.volume first)).
Proof.
  unfold aggregateCandleData. intros _ _ Hcs Hc.
  destruct (aggregate_exact_Ok tf records cs Hcs) as (cs0 & Hren & ->).
  apply (Permutation_in _ (sort_perm by_unixTimestamp cs0)) in Hc.
  destruct (Forall2_In_r _ _ _ _ Hren Hc) as ([k v] & He & z & Hk & _ & ->).
  apply (Permutation_in _ (entries_perm _)) in He.
  destruct (exact_stored tf records k v He) as (first & rest & Hticks & ->).
  cbn [fst] in Hk. subst k.
  destruct (fold_merge_exact rest first) as (Ho & Hcl & Hh & Hl & Hv).
  eexists _, z, first, rest. split; [reflexivity |].
  cbn [rendered Str.unixTimestamp Str.readableTimestamp Str.open Str.close Str.high
         Str.low Str.volume snd].
  rewrite Ho, Hcl, Hh, Hl, Hv. repeat split. exact Hticks.
Qed.

Lemma exact_candle_fields_witness :
  plain_records scenario_A
  /\ safe_width (Some 60)
  /\ aggregateCandleData scenario_A (Some 60) true = Ok candles_A
  /\ In (nth 0 candles_A (round_trip_B 0)) candles_A
  /\ exists s z first rest,
       nth 0 candles_A (round_trip_B 0) = inr s
       /\ Str.unixTimestamp s = Some z
       /\ Str.readableTimestamp s = iso_string (z * 1000)
       /\ exact_ticks (Some 60) z scenario_A = first :: rest
       /\ Str.open s = bigint_toString (Big.open first)
       /\ Str.close s = bigint_toString (Big.close (List.last rest first))
       /\ Str.high s
          = bigint_toString (fold_left Z.max (map Big.high rest) (Big.high first))
       /\ Str.low s
          = bigint_toString (fold_left Z.min (map Big.low rest) (Big.low first))
       /\ Str.volume s
          = bigint_toString (fold_left Z.add (map Big.volume rest) (Big.volume first)).
Proof.
  split; [reflexivity | split; [reflexivity | split; [reflexivity | split; [left; reflexivity |]]]].
  apply (exact_candle_fields scenario_A (Some 60) candles_A);
    [reflexivity | reflexivity | reflexivity | left; reflexivity].
Defined.

(** ** The floating-point branch *)

Section ApproxFields.

Variable tf : jsnum.

Lemma Math_max_choice a b :
  isNaNf a = false -> isNaNf b = false -> Math_max a b = a \/ Math_max a b = b.
Proof.
  intros Ha Hb. unfold Math_max. rewrite Ha, Hb. simpl.
  destruct (fltb a b); [auto |]. destruct (fltb b a); [auto |].
  destruct (is_neg_zero a); auto.
Qed.

Lemma Math_min_choice a b :
  isNaNf a = false -> isNaNf b = false -> Math_min a b = a \/ Math_min a b = b.
Proof.
  intros Ha Hb. unfold Math_min. rewrite Ha, Hb. simpl.
  destruct (fltb a b); [auto |]. destruct (fltb b a); [auto |].
  destruct (is_neg_zero a); auto.
Qed.

Lemma fold_Math_max l :
  forall a, isNaNf a = false -> Forall (fun x => isNaNf x = false) l ->
    let m := fold_left Math_max l a in
    In m (a :: l) /\ forall x, In x (a :: l) -> fle x m.
Proof.
  induction l as [| b l IH]; intros a Ha Hl; cbn zeta.
  - split; [left; reflexivity |]. intros x [<- | []]. apply fle_refl. exact Ha.
  - apply Forall_cons_iff in Hl as [Hb Hl]. cbn [fold_left].
    destruct (Math_max_upper a b Ha Hb) as [Hua Hub].
    destruct (fle_not_NaN _ _ Hua) as [_ Hm].
    destruct (IH (Math_max a b) Hm Hl) as [Hin Hle]. split.
    + destruct Hin as [Hin | Hin]; [| right; right; exact Hin].
      rewrite <- Hin. destruct (Math_max_choice a b Ha Hb) as [-> | ->];
        [left | right; left]; reflexivity.
    + intros x [<- | [<- | Hx]].
      * eapply fle_trans; [exact Hua | apply Hle; left; reflexivity].
      * eapply fle_trans; [exact Hub | apply Hle; left; reflexivity].
      * apply Hle. right. exact Hx.
Qed.

Lemma fold_Math_min l :
  forall a, isNaNf a = false -> Forall (fun x => isNaNf x = false) l ->
    let m := fold_left Math_min l a in
    In m (a :: l) /\ forall x, In x (a :: l) -> fle m x.
Proof.
  induction l as [| b l IH]; intros a Ha Hl; cbn zeta.
  - split; [left; reflexivity |]. intros x [<- | []]. apply fle_refl. exact Ha.
  - apply Forall_cons_iff in Hl as [Hb Hl]. cbn [fold_left].
    destruct (Math_min_lower a b Ha Hb) as [Hua Hub].
    destruct (fle_not_NaN _ _ Hua) as [Hm _].
    destruct (IH (Math_min a b) Hm Hl) as [Hin Hle]. split.
    + destruct Hin as [Hin | Hin]; [| right; right; exact Hin].
      rewrite <- Hin. destruct (Math_min_choice a b Ha Hb) as [-> | ->];
        [left | right; left]; reflexivity.
    + intros x [<- | [<- | Hx]].
      * eapply fle_trans; [apply Hle; left; reflexivity | exact Hua].
      * eapply fle_trans; [apply Hle; left; reflexivity | exact Hub].
      * apply Hle. right. exact Hx.
Qed.

Lemma fold_merge_approx rest :
  forall first,
    let c := fold_left merge_approx rest first in
    Num.unixTimestamp c = Num.unixTimestamp first
    /\ Num.readableTimestamp c = Num.readableTimestamp first
    /\ Num.open c = Num.open first
    /\ Num.close c = Num.close (List.last rest first)
    /\ Num.high c = fold_left Math_max (map Num.high rest) (Num.high first)
    /\ Num.low c = fold_left Math_min (map Num.low rest) (Num.low first)
    /\ Num.volume c = fold_left fadd (map Num.volume rest) (Num.volume first).
Proof.
  induction rest as [| t rest IH]; intros first; [simpl; repeat split |].
  cbn zeta. cbn [fold_left map].
  destruct (IH (merge_approx first t)) as (Hu & Hr & Ho & Hc & Hh & Hl & Hv).
  rewrite Hu, Hr, Ho, Hc, Hh, Hl, Hv.
  repeat split; try reflexivity.
  destruct rest as [| t' rest]; [reflexivity |].
  f_equal. clear. revert t'. induction rest as [| u rest IH]; intros t'; [reflexivity |].
  exact (IH u).
Qed.

Lemma parse_approx_fields r t :
  parse_approx tf r = Some t ->
  included_approx r = true
  /\ Num.unixTimestamp t = bucket tf r
  /\ isNaNf (Num.high t) = false /\ isNaNf (Num.low t) = false.
Proof.
  unfold parse_approx. destruct (included_approx r) eqn:Ei; [| discriminate].
  intros [= <-]. cbn [Num.unixTimestamp Num.high Num.low].
  unfold included_approx in Ei. apply negb_true_iff in Ei.
  repeat (apply orb_false_iff in Ei as [Ei ?]). auto.
Qed.

End ApproxFields.

(** X2.  Floating-point mode: every emitted candle is made of the included
    ticks of its own bucket, taken in input order.  Its open is the open of
    the first of them and its close the close of the last; its high is one
    of their highs and no high among them is above it; its low is one of
    their lows and no low among them is below it; its volume is their
    volumes added up from the first to the last in binary64 arithmetic. *)
Theorem approx_candle_fields (records : list CandleRecord) (tf : jsnum)
    (cs : list candle) (c : candle) :
  aggregateCandleData records tf false = Ok cs ->
  In c cs ->
  exists n z first rest,
    c = inl n
    /\ Num.unixTimestamp n = Some z
    /\ Num.readableTimestamp n = iso_string (z * 1000)
    /\ approx_ticks tf z records = first :: rest
    /\ Num.open n = Num.open first
    /\ Num.close n = Num.close (List.last rest first)
    /\ Num.volume n = fold_left fadd (map Num.volume rest) (Num.volume first)
    /\ In (Num.high n) (map Num.high (first :: rest))
    /\ In (Num.low n) (map Num.low (first :: rest))
    /\ forall t, In t (first :: rest) ->
         fle (Num.high t) (Num.high n) /\ fle (Num.low n) (Num.low t).
Proof.
  unfold aggregateCandleData. intros Hcs Hc.
  destruct (aggregate_approx_Ok tf records cs Hcs) as (-> & Hrep).
  apply (Permutation_in _ (sort_perm by_unixTimestamp _)) in Hc.
  apply in_map_iff in Hc as (v & <- & Hv).
  unfold Obj.values in Hv. apply in_map_iff in Hv as ([k v'] & <- & He).
  apply (Permutation_in _ (entries_perm _)) in He. cbn [snd].
  assert (exists z, k = key_of z /\ representable (Some z) = true) as (z & -> & Hz).
  { pose proof (in_map fst _ _ He) as Hk. cbn [fst] in Hk.
    apply approx_keys in Hk as (r & Hin & Hinc & Hkey).
    pose proof (Hrep r Hin Hinc) as Hr.
    destruct (representable_Some _ Hr) as [z Hz]. exists z.
    rewrite <- Hkey. unfold bucket_key, key_of. rewrite <- Hz. auto. }
  destruct (approx_stored tf records _ v' He) as (first & rest & Hticks & ->).
  destruct (fold_merge_approx rest first) as (Hu & Hr & Ho & Hcl & Hh & Hl & Hvol).
  assert (forall t, In t (first :: rest) ->
            Num.unixTimestamp t = Some z
            /\ Num.readableTimestamp t = iso_string (z * 1000)
            /\ isNaNf (Num.high t) = false /\ isNaNf (Num.low t) = false) as Hall.
  { intros t Ht. rewrite <- Hticks in Ht.
    apply keyed_ticks_In in Ht as (r & _ & Hp & Hk).
    apply bucket_of_key in Hk.
    destruct (parse_approx_fields tf r t Hp) as (Hinc & Hb & Hnh & Hnl).
    split; [congruence | split; [| auto]].
    unfold parse_approx in Hp. rewrite Hinc, Hk in Hp. injection Hp as <-.
    cbn [Num.readableTimestamp]. unfold representable in Hz. simpl in Hz |- *.
    destruct (Z.abs (z * 1000) <=? maxTime); [reflexivity | discriminate]. }
  destruct (Hall first (or_introl eq_refl)) as (Hfu & Hfr & Hfh & Hfl).
  assert (Forall (fun x => isNaNf x = false) (map Num.high rest)) as Hhs.
  { apply List.Forall_forall. intros x Hx. apply in_map_iff in Hx as (t & <- & Ht).
    apply (Hall t). right. exact Ht. }
  assert (Forall (fun x => isNaNf x = false) (map Num.low rest)) as Hls.
  { apply List.Forall_forall. intros x Hx. apply in_map_iff in Hx as (t & <- & Ht).
    apply (Hall t). right. exact Ht. }
  destruct (fold_Math_max _ _ Hfh Hhs) as [Hmax_in Hmax_le].
  destruct (fold_Math_min _ _ Hfl Hls) as [Hmin_in Hmin_le].
  eexists _, z, first, rest. split; [reflexivity |].
  rewrite Hu, Hr, Ho, Hcl, Hh, Hl, Hvol.
  split; [exact Hfu | split; [exact Hfr | split; [exact Hticks |]]].
  split; [reflexivity | split; [reflexivity | split; [reflexivity |]]].
  split; [exact Hmax_in | split; [exact Hmin_in |]].
  intros t Ht. split.
  - apply Hmax_le. change (In (Num.high t) (map Num.high (first :: rest))).
    apply in_map. exact Ht.
  - apply Hmin_le. change (In (Num.low t) (map Num.low (first :: rest))).
    apply in_map. exact Ht.
Qed.

Lemma approx_candle_fields_witness :
  aggregateCandleData scenario_A (Some 60) false = Ok approx_candles_A
  /\ In (nth 0 approx_candles_A (round_trip_B 0)) approx_candles_A
  /\ exists n z first rest,
       nth 0 approx_candles_A (round_trip_B 0) = inl n
       /\ Num.unixTimestamp n = Some z
       /\ Num.readableTimestamp n = iso_string (z * 1000)
       /\ approx_ticks (Some 60) z scenario_A = first :: rest
       /\ Num.open n = Num.open first
       /\ Num.close n = Num.close (List.last rest first)
       /\ Num.volume n = fold_left fadd (map Num.volume rest) (Num.volume first)
       /\ In (Num.high n) (map Num.high (first :: rest))
       /\ In (Num.low n) (map Num.low (first :: rest))
       /\ forall t, In t (first :: rest) ->
            fle (Num.high t) (Num.high n) /\ fle (Num.low n) (Num.low t).
Proof.
  split; [vm_compute; reflexivity | split; [left; reflexivity |]].
  apply (approx_candle_fields scenario_A (Some 60) approx_candles_A);
    [vm_compute; reflexivity | left; reflexivity].
Defined.

(** ** When a call returns *)

Section Returns.

Variable tf : jsnum.

Lemma toISOString_Throw d e : toISOString d = Throw e -> e = RangeError.
Proof. destruct d; simpl; congruence. Qed.

Lemma map_result_Throw {A B} (f : A -> result B) l e :
  map_result f l = Throw e -> exists a, In a l /\ f a = Throw e.
Proof.
  induction l as [| a l IH]; simpl; [discriminate |].
  destruct (f a) as [b |] eqn:Ea; simpl.
  - destruct (map_result f l) as [bs |]; simpl; [discriminate |].
    intros H. destruct (IH H) as (a' & Hin & Ha'). eauto.
  - intros [= <-]. eauto.
Qed.

Lemma aggregate_exact_Throw records e :
  aggregate_exact records tf = Throw e -> e = RangeError.
Proof.
  unfold aggregate_exact.
  destruct (map_result render_exact _) as [cs0 |] eqn:E; simpl; [discriminate |].
  intros [= <-]. apply map_result_Throw in E as ([k v] & _ & Hr).
  unfold render_exact in Hr.
  destruct (toISOString _) as [s |] eqn:Ed; simpl in Hr; [discriminate |].
  injection Hr as <-. apply toISOString_Throw in Ed. exact Ed.
Qed.

Lemma fold_approx_Throw o r e : fold_approx tf o r = Throw e -> e = RangeError.
Proof.
  unfold fold_approx. destruct (_ || _); [discriminate |].
  destruct (Obj.own o _); [discriminate |].
  destruct (toISOString _) as [s |] eqn:Ed; simpl; [discriminate |].
  intros [= <-]. apply toISOString_Throw in Ed. exact Ed.
Qed.

Lemma loop_approx_Throw records e :
  forall o, loop_approx tf o records = Throw e -> e = RangeError.
Proof.
  induction records as [| r records IH]; intros o; simpl; [discriminate |].
  destruct (fold_approx tf o r) as [o1 |] eqn:E1; simpl.
  - apply IH.
  - intros [= <-]. apply fold_approx_Throw in E1. exact E1.
Qed.

Lemma aggregate_Ok_representable records mode cs :
  aggregateCandleData records tf mode = Ok cs -> times_representable records tf mode.
Proof.
  unfold aggregateCandleData. destruct mode.
  - apply aggregate_exact_representable.
  - intros H. apply (aggregate_approx_Ok tf records cs H).
Qed.

Lemma aggregate_total records mode :
  times_representable records tf mode ->
  exists cs, aggregateCandleData records tf mode = Ok cs.
Proof.
  unfold aggregateCandleData. destruct mode.
  - apply aggregate_exact_total.
  - apply aggregate_approx_total.
Qed.

(** *** Records that are skipped *)

Lemma keyed_fold_filter {R A} (parse : R -> option A) key merge records :
  forall o,
    keyed_fold parse key merge records o
    = keyed_fold parse key merge
        (List.filter (fun r => match parse r with Some _ => true | None => false end)
           records) o.
Proof.
  induction records as [| r records IH]; intros o; [reflexivity |].
  rewrite keyed_fold_cons. cbn [List.filter].
  destruct (parse r) as [t |] eqn:E.
  - rewrite keyed_fold_cons. apply IH.
  - unfold keyed_step. rewrite E. apply IH.
Qed.

Lemma loop_approx_filter records :
  forall o, loop_approx tf o records = loop_approx tf o (List.filter included_approx records).
Proof.
  induction records as [| r records IH]; intros o; [reflexivity |].
  cbn [List.filter loop_approx]. destruct (included_approx r) eqn:E.
  - cbn [loop_approx]. destruct (fold_approx tf o r); simpl; [apply IH | reflexivity].
  - assert (fold_approx tf o r = Ok o) as ->.
    { unfold fold_approx. unfold included_approx in E. apply negb_false_iff in E.
      rewrite E. reflexivity. }
    simpl. apply IH.
Qed.

End Returns.

(** X3.  For records of ASCII text whose timestamps are safe integers and
    a bucket width that is one, a call of the aggregation returns a candle
    sequence exactly when the bucket start of every included tick is a time
    a [Date] can hold; when it does not return, what it throws is the
    RangeError of [toISOString], in either mode. *)
Theorem returns_iff_times_representable (records : list CandleRecord) (tf : jsnum)
    (outputAsString : bool) :
  plain_records records ->
  safe_width tf ->
  ((exists cs, aggregateCandleData records tf outputAsString = Ok cs)
   <-> times_representable records tf outputAsString)
  /\ forall e, aggregateCandleData records tf outputAsString = Throw e -> e = RangeError.
Proof.
  intros _ _. split; [split |].
  - intros [cs H]. exact (aggregate_Ok_representable tf records _ cs H).
  - apply aggregate_total.
  - intros e. unfold aggregateCandleData. destruct outputAsString.
    + apply aggregate_exact_Throw.
    + unfold aggregate_approx.
      destruct (loop_approx tf [] records) as [o |] eqn:E; simpl; [discriminate |].
      intros [= <-]. exact (loop_approx_Throw tf records _ _ E).
Qed.

Lemma returns_iff_times_representable_witness :
  plain_records (scenario_A ++ [far_future])
  /\ safe_width (Some 60)
  /\ ((exists cs, aggregateCandleData (scenario_A ++ [far_future]) (Some 60) false = Ok cs)
      <-> times_representable (scenario_A ++ [far_future]) (Some 60) false)
  /\ forall e, aggregateCandleData (scenario_A ++ [far_future]) (Some 60) false = Throw e ->
               e = RangeError.
Proof.
  split; [reflexivity | split; [reflexivity |]].
  apply (returns_iff_times_representable (scenario_A ++ [far_future]) (Some 60) false);
    reflexivity.
Defined.

(** X4.  The records a mode skips (a field that does not convert, or in
    floating-point mode a timestamp that is no number) have no effect on
    the result: a call answers exactly as it does on the included records
    alone, whether it returns or throws. *)
Theorem skipped_records_ignored (records : list CandleRecord) (tf : jsnum)
    (outputAsString : bool) :
  aggregateCandleData records tf outputAsString
  = aggregateCandleData (List.filter (included outputAsString) records) tf outputAsString.
Proof.
  unfold aggregateCandleData. destruct outputAsString.
  - unfold aggregate_exact. rewrite !fold_left_exact.
    rewrite (keyed_fold_filter parse_exact). reflexivity.
  - unfold aggregate_approx. rewrite loop_approx_filter. reflexivity.
Qed.

(** X5.  For records of ASCII text whose timestamps are safe integers and
    a positive bucket width that is one, the bucket start of every emitted
    candle is a multiple of the width and some included tick has its
    timestamp in the window that starts there and is one width long;
    conversely every included tick whose timestamp is a number lies in the
    window of an emitted candle. *)
Theorem candle_windows (records : list CandleRecord) (w : Z) (outputAsString : bool)
    (cs : list candle) :
  plain_records records ->
  safe_width (Some w) ->
  0 < w ->
  aggregateCandleData records (Some w) outputAsString = Ok cs ->
  (forall c, In c cs ->
     exists z, unixTimestamp c = Some z /\ z mod w = 0
       /\ exists r t, In r records /\ included outputAsString r = true
            /\ parseInt (Unix_Timestamp r) = Some t /\ z <= t < z + w)
  /\ (forall r t, In r records -> included outputAsString r = true ->
        parseInt (Unix_Timestamp r) = Some t ->
        exists c z, In c cs /\ unixTimestamp c = Some z /\ z <= t < z + w).
Proof.
  intros _ _ Hw Hcs.
  pose proof (aggregate_Ok_representable _ _ _ _ Hcs) as Hrep.
  assert (exists zs, map unixTimestamp cs = map Some zs
            /\ forall z, In z zs <->
                 exists r, In r records /\ included outputAsString r = true
                           /\ bucket (Some w) r = Some z) as (zs & Hst & Hzs).
  { unfold aggregateCandleData in Hcs. destruct outputAsString.
    - destruct (exact_buckets (Some w) records Hrep) as (cs' & zs & Hcs' & Hst & _ & Hzs).
      rewrite Hcs in Hcs'. injection Hcs' as <-. eauto.
    - destruct (approx_buckets (Some w) records Hrep) as (cs' & zs & Hcs' & Hst & _ & Hzs).
      rewrite Hcs in Hcs'. injection Hcs' as <-. eauto. }
  assert (forall r z, bucket (Some w) r = Some z ->
            exists t, parseInt (Unix_Timestamp r) = Some t /\ z = t / w * w) as Hb.
  { intros r z. unfold bucket, floor_div_mul.
    destruct (parseInt (Unix_Timestamp r)) as [t |]; [| discriminate].
    destruct (Z.eqb_spec w 0) as [-> | _]; [lia |]. intros [= <-]. eauto. }
  assert (forall t, t / w * w <= t < t / w * w + w) as Hwin.
  { intros t. pose proof (Z.mod_pos_bound t w Hw). pose proof (Z.div_mod t w). lia. }
  split.
  - intros c Hc. apply (in_map unixTimestamp) in Hc. rewrite Hst in Hc.
    apply in_map_iff in Hc as (z & Hz & Hin). exists z. split; [auto |].
    apply Hzs in Hin as (r & Hr & Hinc & Hbr).
    destruct (Hb r z Hbr) as (t & Ht & ->).
    split; [apply Z.mod_mul; lia |]. exists r, t. auto.
  - intros r t Hr Hinc Ht.
    assert (In (t / w * w) zs) as Hin.
    { apply Hzs. exists r. split; [exact Hr | split; [exact Hinc |]].
      unfold bucket, floor_div_mul. rewrite Ht.
      destruct (Z.eqb_spec w 0) as [-> | _]; [lia | reflexivity]. }
    apply (in_map Some) in Hin. rewrite <- Hst in Hin.
    apply in_map_iff in Hin as (c & Hc & Hcin). exists c, (t / w * w). auto.
Qed.

Lemma candle_windows_witness :
  plain_records scenario_A
  /\ safe_width (Some 60)
  /\ 0 < 60
  /\ aggregateCandleData scenario_A (Some 60) true = Ok candles_A
  /\ (forall c, In c candles_A ->
        exists z, unixTimestamp c = Some z /\ z mod 60 = 0
          /\ exists r t, In r scenario_A /\ included true r = true
               /\ parseInt (Unix_Timestamp r) = Some t /\ z <= t < z + 60)
  /\ (forall r t, In r scenario_A -> included true r = true ->
        parseInt (Unix_Timestamp r) = Some t ->
        exists c z, In c candles_A /\ unixTimestamp c = Some z /\ z <= t < z + 60).
Proof.
  split; [reflexivity | split; [reflexivity | split; [lia | split; [reflexivity |]]]].
  apply (candle_windows scenario_A 60 true candles_A);
    [reflexivity | reflexivity | lia | reflexivity].
Defined.

(** * Further properties of the endpoints *)

(** ** Reading the file *)

Section Records.

Lemma stamps_of_parse (records : list CandleRecord) :
  stamps_parse records -> exists zs, stamps record_stamp records zs.
Proof.
  unfold stamps_parse, stamps. induction records as [| r records IH]; intros H.
  - exists []. reflexivity.
  - destruct IH as [zs Hzs]; [intros r' Hin; apply H; right; exact Hin |].
    destruct (record_stamp r) as [z |] eqn:E.
    + exists (z :: zs). simpl. rewrite E, Hzs. reflexivity.
    + destruct (H r); [left; reflexivity | exact E].
Qed.

Lemma stamps_safe_parse (records : list CandleRecord) :
  stamps_safe records -> stamps_parse records.
Proof.
  unfold stamps_safe, stamps_parse. rewrite forallb_forall. intros H r Hr.
  specialize (H r Hr). destruct (record_stamp r); [discriminate | discriminate H].
Qed.

Lemma getCandleRecords_sort records :
  getCandleRecords (Some records) = Ok (Arr.sort (by_stamp record_stamp) records).
Proof. reflexivity. Qed.

Lemma insert_with_stamp z x l :
  with_stamp z (Arr.insert (by_stamp record_stamp) x l) = with_stamp z (x :: l).
Proof.
  induction l as [| y l IH]; [reflexivity |].
  cbn [Arr.insert]. destruct (Arr.before (by_stamp record_stamp) y x) eqn:Eb; [| reflexivity].
  unfold with_stamp in *. cbn [List.filter] in *. rewrite IH.
  unfold Arr.before, by_stamp, JS.sub in Eb.
  destruct (record_stamp y) as [u |]; [| destruct (record_stamp x); discriminate].
  destruct (record_stamp x) as [t |]; [| discriminate].
  apply Z.ltb_lt in Eb.
  destruct (Z.eqb_spec t z); destruct (Z.eqb_spec u z); try reflexivity. lia.
Qed.

Lemma sort_with_stamp z l :
  with_stamp z (Arr.sort (by_stamp record_stamp) l) = with_stamp z l.
Proof.
  induction l as [| x l IH]; [reflexivity |].
  cbn [Arr.sort fold_right]. rewrite insert_with_stamp.
  unfold with_stamp in *. cbn [List.filter]. fold (Arr.sort (by_stamp record_stamp) l).
  rewrite IH. reflexivity.
Qed.

Lemma stamps_In {A} (stamp : A -> jsnum) l zs x z :
  stamps stamp l zs -> In x l -> stamp x = Some z -> In z zs.
Proof.
  unfold stamps. intros Hl Hx Hz. apply (in_map stamp) in Hx. rewrite Hl, Hz in Hx.
  apply in_map_iff in Hx as (z' & [= ->] & Hin). exact Hin.
Qed.

(** A list is determined by its elements when their keys are strictly
    increasing. *)
Lemma strictly_sorted_unique {A} (stamp : A -> jsnum) (l1 : list A) :
  forall l2 zs1 zs2,
    stamps stamp l1 zs1 -> stamps stamp l2 zs2 ->
    StronglySorted Z.lt zs1 -> StronglySorted Z.lt zs2 ->
    Permutation l1 l2 -> l1 = l2.
Proof.
  induction l1 as [| x l1 IH]; intros l2 zs1 zs2 H1 H2 S1 S2 Hp.
  - apply Permutation_nil in Hp. auto.
  - destruct l2 as [| y l2]; [apply Permutation_sym, Permutation_nil in Hp; discriminate |].
    destruct zs1 as [| z zs1]; [discriminate |].
    destruct zs2 as [| u zs2]; [discriminate |].
    unfold stamps in H1, H2. simpl in H1, H2.
    injection H1 as Hx H1. injection H2 as Hy H2.
    apply StronglySorted_inv in S1 as [S1 A1]. apply StronglySorted_inv in S2 as [S2 A2].
    rewrite List.Forall_forall in A1, A2.
    assert (x = y) as ->.
    { assert (In x (y :: l2)) as Hxin
        by (eapply Permutation_in; [exact Hp | left; reflexivity]).
      assert (In y (x :: l1)) as Hyin
        by (eapply Permutation_in; [symmetry; exact Hp | left; reflexivity]).
      destruct Hxin as [<- | Hxin]; [reflexivity |].
      destruct Hyin as [<- | Hyin]; [reflexivity |].
      pose proof (A2 z (stamps_In stamp l2 zs2 x z H2 Hxin Hx)).
      pose proof (A1 u (stamps_In stamp l1 zs1 y u H1 Hyin Hy)). lia. }
    f_equal. apply Permutation_cons_inv in Hp. exact (IH l2 zs1 zs2 H1 H2 S1 S2 Hp).
Qed.

End Records.

(** X6.  When every timestamp of the file reads as a safe integer, the
    records handed to the aggregation are the rows of the file, each exactly once,
    in non-decreasing order of timestamp, and rows with the same timestamp
    keep the order they have in the file. *)
Theorem records_sorted_stably (rows : list CandleRecord) :
  stamps_safe rows ->
  exists records zs,
    getCandleRecords (Some rows) = Ok records
    /\ Permutation records rows
    /\ stamps record_stamp records zs
    /\ Sorted Z.le zs
    /\ forall z, with_stamp z records = with_stamp z rows.
Proof.
  intros Hp. apply stamps_safe_parse in Hp.
  destruct (stamps_of_parse rows Hp) as [zs0 Hzs0].
  destruct (sort_sorted record_stamp rows zs0 Hzs0) as (zs & Hst & Hso & _).
  exists (Arr.sort (by_stamp record_stamp) rows), zs.
  split; [reflexivity | split; [apply sort_perm | split; [exact Hst | split; [exact Hso |]]]].
  intros z. apply sort_with_stamp.
Qed.

Lemma records_sorted_stably_witness :
  stamps_safe shuffled_A
  /\ exists records zs,
       getCandleRecords (Some shuffled_A) = Ok records
       /\ Permutation records shuffled_A
       /\ stamps record_stamp records zs
       /\ Sorted Z.le zs
       /\ forall z, with_stamp z records = with_stamp z shuffled_A.
Proof.
  assert (stamps_safe shuffled_A) as H by reflexivity.
  split; [exact H | apply (records_sorted_stably shuffled_A H)].
Defined.

(** X7.  When the timestamps of the file read as safe integers and no two
    rows have the same one, the order of the rows in the file does not matter:
    any rearrangement of the file gives the same records, and so the same
    answer of an endpoint. *)
Theorem row_order_irrelevant (rows rows' : list CandleRecord)
    (invalid failure : string) (project : list candle -> body) (req : request) :
  Permutation rows rows' ->
  stamps_safe rows ->
  List.NoDup (map record_stamp rows) ->
  getCandleRecords (Some rows) = getCandleRecords (Some rows')
  /\ handler invalid project failure (Some rows) req
     = handler invalid project failure (Some rows') req.
Proof.
  intros Hperm Hp Hnd. apply stamps_safe_parse in Hp.
  assert (getCandleRecords (Some rows) = getCandleRecords (Some rows')) as Heq.
  { rewrite !getCandleRecords_sort. f_equal.
    assert (stamps_parse rows') as Hp'.
    { intros r Hr. apply Hp. eapply Permutation_in; [symmetry; exact Hperm | exact Hr]. }
    assert (List.NoDup (map record_stamp rows')) as Hnd'.
    { eapply Permutation_NoDup; [apply Permutation_map; exact Hperm | exact Hnd]. }
    destruct (stamps_of_parse rows Hp) as [zs0 Hzs0].
    destruct (stamps_of_parse rows' Hp') as [zs0' Hzs0'].
    destruct (sort_sorted record_stamp rows zs0 Hzs0) as (zs & Hst & Hso & Hpz).
    destruct (sort_sorted record_stamp rows' zs0' Hzs0') as (zs' & Hst' & Hso' & Hpz').
    apply (strictly_sorted_unique record_stamp _ _ zs zs' Hst Hst').
    - apply sorted_nodup_strict; [exact Hso |].
      eapply Permutation_NoDup; [symmetry; exact Hpz |].
      unfold stamps in Hzs0. rewrite Hzs0 in Hnd. apply NoDup_map_inv in Hnd. exact Hnd.
    - apply sorted_nodup_strict; [exact Hso' |].
      eapply Permutation_NoDup; [symmetry; exact Hpz' |].
      unfold stamps in Hzs0'. rewrite Hzs0' in Hnd'. apply NoDup_map_inv in Hnd'. exact Hnd'.
    - rewrite sort_perm, sort_perm. exact Hperm. }
  split; [exact Heq |]. unfold handler. rewrite Heq. reflexivity.
Qed.

Lemma row_order_irrelevant_witness :
  Permutation (rev scenario_A) scenario_A
  /\ stamps_safe (rev scenario_A)
  /\ List.NoDup (map record_stamp (rev scenario_A))
  /\ getCandleRecords (Some (rev scenario_A)) = getCandleRecords (Some scenario_A)
  /\ get_candles (Some (rev scenario_A)) minute_request
     = get_candles (Some scenario_A) minute_request.
Proof.
  assert (Permutation (rev scenario_A) scenario_A) as H1
    by (symmetry; apply Permutation_rev).
  assert (stamps_safe (rev scenario_A)) as H2 by reflexivity.
  assert (List.NoDup (map record_stamp (rev scenario_A))) as H3.
  { vm_compute. repeat constructor; simpl; intros H;
      repeat (destruct H as [H | H]; [discriminate H |]); exact H. }
  split; [exact H1 | split; [exact H2 | split; [exact H3 |]]].
  apply (row_order_irrelevant (rev scenario_A) scenario_A _ _ Candles minute_request H1 H2 H3).
Defined.

(** ** The answer to a request for a listed timeframe *)

Section ListedLabel.

Lemma timeframeMap_positive label w : Obj.own timeframeMap label = Some w -> 0 < w.
Proof.
  intros H. apply own_Some_In in H. unfold timeframeMap in H. cbn [In] in H.
  repeat (destruct H as [[= _ <-] | H]; [lia |]). destruct H.
Qed.

End ListedLabel.

(** X8.  A request for a label that the table lists is never answered with
    status 400.  The width is the positive number of seconds the table
    gives for the label.  When the file cannot be read the answer is
    status 500 and nothing is aggregated.  When the file holds rows of
    ASCII text whose timestamps read as safe integers, the sorted records
    are aggregated once, with that width and in full precision exactly when
    the format is the text [string], and the answer is the projection of
    the candles when the bucket starts of the included ticks are
    representable and status 500 when they are not. *)
Theorem listed_label_answer (invalid failure : string) (project : list candle -> body)
    (rows : list CandleRecord) (req : request) (w : Z) :
  Obj.own timeframeMap (timeframe req) = Some w ->
  stamps_safe rows ->
  plain_records rows ->
  0 < w
  /\ handler invalid project failure None req = ([ReadCsv], Status500 failure)
  /\ exists records,
       getCandleRecords (Some rows) = Ok records
       /\ Permutation records rows
       /\ (times_representable records (Some w) (is_string_format (format req)) ->
           exists cs,
             aggregateCandleData records (Some w) (is_string_format (format req)) = Ok cs
             /\ handler invalid project failure (Some rows) req
                = ([ReadCsv; Aggregate records (Some w) (is_string_format (format req))],
                   Json (project cs)))
       /\ (~ times_representable records (Some w) (is_string_format (format req)) ->
           handler invalid project failure (Some rows) req
           = ([ReadCsv; Aggregate records (Some w) (is_string_format (format req))],
              Status500 failure)).
Proof.
  intros Hown _ _. pose proof (timeframeMap_positive _ _ Hown) as Hw.
  split; [exact Hw |].
  assert (Obj.get timeframeMap (timeframe req) = Obj.Own w) as Hget
    by (unfold Obj.get; rewrite Hown; reflexivity).
  assert (falsy (Obj.Own w) = false) as Hf
    by (simpl; apply Z.eqb_neq; lia).
  unfold handler. rewrite Hget, Hf. split; [reflexivity |].
  rewrite getCandleRecords_sort. eexists. split; [reflexivity |].
  split; [apply sort_perm |]. cbn [ToNumber]. split.
  - intros Hrep. destruct (aggregate_total _ _ _ Hrep) as [cs Hcs].
    exists cs. rewrite Hcs. auto.
  - intros Hrep.
    destruct (aggregateCandleData _ (Some w) _) as [cs |] eqn:Hcs; [| reflexivity].
    destruct Hrep. exact (aggregate_Ok_representable _ _ _ _ Hcs).
Qed.

Lemma listed_label_answer_witness :
  Obj.own timeframeMap (timeframe minute_request) = Some 60
  /\ stamps_safe shuffled_A
  /\ plain_records shuffled_A
  /\ 0 < 60
  /\ get_candles None minute_request = ([ReadCsv], Status500 "Error fetching candle data")
  /\ exists records,
       getCandleRecords (Some shuffled_A) = Ok records
       /\ Permutation records shuffled_A
       /\ (times_representable records (Some 60)
             (is_string_format (format minute_request)) ->
           exists cs,
             aggregateCandleData records (Some 60)
               (is_string_format (format minute_request)) = Ok cs
             /\ get_candles (Some shuffled_A) minute_request
                = ([ReadCsv;
                    Aggregate records (Some 60) (is_string_format (format minute_request))],
                   Json (Candles cs)))
       /\ (~ times_representable records (Some 60)
               (is_string_format (format minute_request)) ->
           get_candles (Some shuffled_A) minute_request
           = ([ReadCsv;
               Aggregate records (Some 60) (is_string_format (format minute_request))],
              Status500 "Error fetching candle data")).
Proof.
  split; [reflexivity | split; [reflexivity | split; [reflexivity |]]].
  apply (listed_label_answer "Invalid timeframe specified." "Error fetching candle data"
           Candles shuffled_A minute_request 60); reflexivity.
Defined.

(** * Further properties of the collector *)

(** ** A lookup that aborts the pass *)

Section Abort.

Import Collector.

Variable c : contract.
Variable totalTx : Z.

Lemma iteration_Throw st i e :
  structural_failure c i e -> iteration c totalTx st i = Throw e.
Proof.
  unfold iteration. intros [H | (ts & Hts & [[Hrange ->] | [Hrange Hcandle]])].
  - rewrite H. reflexivity.
  - rewrite Hts. simpl.
    replace (Z.abs (Z.of_N ts * 1000) <=? maxTime) with false
      by (symmetry; apply Z.leb_gt; exact Hrange).
    reflexivity.
  - rewrite Hts. simpl.
    replace (Z.abs (Z.of_N ts * 1000) <=? maxTime) with true
      by (symmetry; apply Z.leb_le; exact Hrange).
    simpl. rewrite Hcandle. reflexivity.
Qed.

Lemma loop_Throw i e k :
  1 <= i -> (Z.to_nat i <= k)%nat ->
  structural_ok c (Z.to_N (i - 1)) ->
  structural_failure c i e ->
  loop c totalTx k 1 init = Throw e.
Proof.
  intros Hi Hk Hok Hfail.
  replace k with (Z.to_nat (i - 1) + S (k - Z.to_nat i))%nat by lia.
  rewrite loop_add.
  destruct (loop_total c totalTx (Z.to_N (i - 1)) (Z.to_nat (i - 1)) Hok 1 init)
    as [st Hst]; [lia | lia |].
  rewrite Hst. simpl.
  replace (1 + Z.of_nat (Z.to_nat (i - 1))) with i by lia.
  rewrite (iteration_Throw st i e Hfail). reflexivity.
Qed.

End Abort.

(** X9.  The pass is all or nothing.  When the lookup of the transaction
    count is rejected, or when for some transaction index the timestamp
    lookup is rejected, the timestamp is past the range of [Date] or the
    candle lookup is rejected, while these lookups succeed for every
    earlier index, the pass ends with that exception and hands no row to
    the CSV writer, whatever was collected before. *)
Theorem structural_failure_aborts (c : Collector.contract) (e : exn) :
  (Collector.totalTx c = Throw e
   \/ exists n i,
        Collector.totalTx c = Ok n /\ 1 <= i <= Z.of_N n
        /\ structural_ok c (Z.to_N (i - 1))
        /\ structural_failure c i e) ->
  Collector.fetchData c = Throw e.
Proof.
  unfold Collector.fetchData. intros [H | (n & i & Hn & Hi & Hok & Hfail)].
  - rewrite H. reflexivity.
  - rewrite Hn. simpl.
    rewrite (loop_Throw c (Z.of_N n) i e (Z.to_nat (Z.of_N n))); [reflexivity | lia | lia | |];
      assumption.
Qed.

Lemma structural_failure_aborts_witness :
  (exists n i,
     Collector.totalTx failing_contract = Ok n /\ 1 <= i <= Z.of_N n
     /\ structural_ok failing_contract (Z.to_N (i - 1))
     /\ structural_failure failing_contract i CallException)
  /\ Collector.fetchData failing_contract = Throw CallException.
Proof.
  assert (exists n i,
            Collector.totalTx failing_contract = Ok n /\ 1 <= i <= Z.of_N n
            /\ structural_ok failing_contract (Z.to_N (i - 1))
            /\ structural_failure failing_contract i CallException) as H.
  { exists 3%N, 3. split; [reflexivity | split; [lia | split]].
    - intros i Hi. assert (i = 1 \/ i = 2) as [-> | ->] by lia;
        do 2 eexists; (split; [reflexivity | split; [vm_compute; discriminate | reflexivity]]).
    - right. exists 150000%N. split; [reflexivity |]. right.
      split; [vm_compute; discriminate | reflexivity]. }
  split; [exact H |].
  apply (structural_failure_aborts failing_contract CallException). right. exact H.
Defined.

(** ** The rows and the running totals *)

Section WrittenRows.

Import Collector.

Variable c : contract.
Variable totalTx : Z.

Lemma recorded_row st i ts candle :
  let st' := recorded c totalTx st i ts candle in
  exists vol,
    s_allCandleData st'
    = s_allCandleData st
      ++ [written_row totalTx i ts candle vol ""
            (bigint_toString (s_currentDayCumulativeVolume st'))
            (bigint_toString (s_cumulativeTotalVolume st'))]
    /\ ((exists x, tVol c ts = Throw x) /\ vol = "Error"
        /\ s_currentDay st' = s_currentDay st
        /\ s_cumulativeTotalVolume st' = s_cumulativeTotalVolume st
        /\ s_currentDayCumulativeVolume st' = s_currentDayCumulativeVolume st
        \/ exists v,
             tVol c ts = Ok v /\ vol = bigint_toString (Z.of_N v)
             /\ s_currentDay st' = Some (utcDate_of ts)
             /\ s_cumulativeTotalVolume st' = s_cumulativeTotalVolume st + Z.of_N v
             /\ s_currentDayCumulativeVolume st'
                = (if same_day (s_currentDay st) (utcDate_of ts)
                   then s_currentDayCumulativeVolume st else 0) + Z.of_N v).
Proof.
  unfold recorded. destruct (tVol c ts) as [v | x] eqn:Hv.
  - rewrite (fetch_tVol_available c ts _ st v Hv). eexists.
    split; [reflexivity |]. right. exists v. simpl. auto.
  - rewrite (fetch_tVol_failed c ts _ st x Hv). eexists.
    split; [reflexivity |]. left. simpl. eauto 10.
Qed.

(** Induction over the iterations of a pass. *)
Lemma loop_from_init (Q : nat -> state -> Prop) :
  Q O init ->
  (forall k st ts candle,
     Q k st ->
     txTimeStamp c (1 + Z.of_nat k) = Ok ts ->
     Z.abs (Z.of_N ts * 1000) <= maxTime ->
     candleStickData c (Z.of_N ts) = Ok candle ->
     Q (S k) (recorded c totalTx st (1 + Z.of_nat k) (Z.of_N ts) candle)) ->
  forall k st, loop c totalTx k 1 init = Ok st -> Q k st.
Proof.
  intros H0 Hstep. induction k as [| k IH]; intros st.
  - simpl. intros [= <-]. exact H0.
  - rewrite loop_snoc.
    destruct (loop c totalTx k 1 init) as [st1 |]; simpl; [| discriminate].
    intros Hit. apply iteration_Ok in Hit as (ts & candle & Hts & Hrange & Hcandle & ->).
    apply Hstep; auto.
Qed.

Lemma loop_rows_written k st :
  loop c totalTx k 1 init = Ok st -> rows_written c totalTx k st.
Proof.
  apply (loop_from_init (rows_written c totalTx)).
  - exists []. split; [reflexivity | split; [reflexivity |]]. intros j Hj. lia.
  - clear k st. intros k st ts candle (rows & Hrows & Hlen & Hall) Hts Hrange Hcandle.
    destruct (recorded_row st (1 + Z.of_nat k) (Z.of_N ts) candle) as (vol & Hrow & Hcases).
    cbn zeta in Hrow, Hcases. unfold rows_written. rewrite Hrow, Hrows.
    eexists. split; [rewrite app_comm_cons; reflexivity |].
    split; [rewrite length_app; simpl; lia |].
    intros j Hj. destruct (Nat.eq_dec j k) as [-> | Hne].
    + exists ts, candle, vol. do 2 eexists.
      split; [exact Hts | split; [exact Hrange | split; [exact Hcandle |]]].
      split; [apply list_lookup_middle; auto |].
      destruct Hcases as [(Hx & Hvol & _) | (v & Hv & Hvol & _)]; [left | right]; eauto.
    + destruct (Hall j) as (ts' & candle' & vol' & daily & total & H1 & H2 & H3 & H4 & H5);
        [lia |].
      exists ts', candle', vol', daily, total.
      split; [exact H1 | split; [exact H2 | split; [exact H3 | split; [| exact H5]]]].
      rewrite lookup_app_l by lia. exact H4.
Qed.

End WrittenRows.

Section AttachedRows.

Import Collector.

Lemma attach_other m row j : j <> 10%nat -> attach m row !! j = row !! j.
Proof.
  intros Hj. unfold attach.
  destruct (row !! 9%nat) as [[n | d] |]; [| | reflexivity].
  - destruct (n =? 0); [reflexivity |]. apply list_lookup_insert_ne. auto.
  - destruct (String.eqb d ""); [reflexivity |]. apply list_lookup_insert_ne. auto.
Qed.

Lemma attach_written m totalTx i ts candle vol daily total :
  exists finalized,
    attach m (written_row totalTx i ts candle vol "" daily total)
    = written_row totalTx i ts candle vol finalized daily total.
Proof.
  unfold attach, written_row. simpl.
  destruct (String.eqb_spec (utcDate_of ts) "") as [Heq | _];
    [apply utcDate_of_nonempty in Heq; destruct Heq |].
  eexists. reflexivity.
Qed.

End AttachedRows.

Section WrittenRow.

Import Collector.

(** The row a completed pass wrote for a transaction index. *)
Lemma fetchData_written c rows n i ts :
  fetchData c = Ok rows ->
  totalTx c = Ok n ->
  1 <= i <= Z.of_N n ->
  txTimeStamp c i = Ok ts ->
  exists candle vol finalized daily total,
    rows !! Z.to_nat i
    = Some (written_row (Z.of_N n) i (Z.of_N ts) candle vol finalized daily total).
Proof.
  intros H Hn Hi Hts.
  destruct (fetchData_Ok c rows H) as (n' & st & m & rows0 & Hn' & Hloop & Hall & _ & _ & _ & ->).
  rewrite Hn in Hn'. injection Hn' as <-.
  destruct (loop_rows_written c _ _ _ Hloop) as (rows1 & Hrows1 & Hlen & Hrow).
  rewrite Hall in Hrows1. injection Hrows1 as <-.
  destruct (Hrow (Z.to_nat (i - 1)))
    as (ts' & candle & vol & daily & total & Hts' & _ & _ & Hlook & _); [lia |].
  replace (1 + Z.of_nat (Z.to_nat (i - 1))) with i in Hts', Hlook by lia.
  rewrite Hts in Hts'. injection Hts' as <-.
  destruct (attach_written m (Z.of_N n) i (Z.of_N ts) candle vol daily total)
    as [finalized Hatt].
  exists candle, vol, finalized, daily, total.
  replace (Z.to_nat i) with (S (Z.to_nat (i - 1))) by lia. simpl.
  rewrite lookup_map, Hlook. simpl. rewrite Hatt. reflexivity.
Qed.

End WrittenRow.

(** X10.  A pass that completes found the transaction count, the timestamp
    and the candle of every transaction index.  It writes the header and
    then, at position [i], the row of transaction index [i]: the count, the
    index, the timestamp and its UTC text, the candle's open, close, high
    and low in decimal, the volume in decimal or the marker "Error" when
    its lookup was rejected, the UTC date and the three totals. *)
Theorem rows_reproduce_contract (c : Collector.contract) (rows : list (list Collector.cell)) :
  Collector.fetchData c = Ok rows ->
  exists n,
    Collector.totalTx c = Ok n
    /\ length rows = S (N.to_nat n)
    /\ rows !! 0%nat = Some Collector.header
    /\ forall i, 1 <= i <= Z.of_N n ->
         exists ts candle vol finalized daily total,
           Collector.txTimeStamp c i = Ok ts
           /\ Z.abs (Z.of_N ts * 1000) <= maxTime
           /\ Collector.candleStickData c (Z.of_N ts) = Ok candle
           /\ rows !! Z.to_nat i
              = Some (written_row (Z.of_N n) i (Z.of_N ts) candle vol finalized daily total)
           /\ ((exists x, Collector.tVol c (Z.of_N ts) = Throw x) /\ vol = "Error"
               \/ exists v, Collector.tVol c (Z.of_N ts) = Ok v
                            /\ vol = bigint_toString (Z.of_N v)).
Proof.
  intros H.
  destruct (fetchData_Ok c rows H) as (n & st & m & rows0 & Hn & Hloop & Hall & _ & _ & _ & ->).
  exists n. split; [exact Hn |].
  destruct (loop_rows_written c _ _ _ Hloop) as (rows1 & Hrows1 & Hlen & Hrow).
  rewrite Hall in Hrows1. injection Hrows1 as <-.
  split; [simpl; rewrite length_map, Hlen; lia | split; [reflexivity |]].
  intros i Hi.
  destruct (Hrow (Z.to_nat (i - 1)))
    as (ts & candle & vol & daily & total & Hts & Hrange & Hcandle & Hlook & Hvol); [lia |].
  replace (1 + Z.of_nat (Z.to_nat (i - 1))) with i in Hts, Hlook by lia.
  destruct (attach_written m (Z.of_N n) i (Z.of_N ts) candle vol daily total)
    as [finalized Hatt].
  exists ts, candle, vol, finalized, daily, total.
  split; [exact Hts | split; [exact Hrange | split; [exact Hcandle | split; [| exact Hvol]]]].
  replace (Z.to_nat i) with (S (Z.to_nat (i - 1))) by lia. simpl.
  rewrite lookup_map, Hlook. simpl. rewrite Hatt. reflexivity.
Qed.

Lemma rows_reproduce_contract_witness :
  Collector.fetchData sample_contract = Ok sample_rows
  /\ exists n,
       Collector.totalTx sample_contract = Ok n
       /\ length sample_rows = S (N.to_nat n)
       /\ sample_rows !! 0%nat = Some Collector.header
       /\ forall i, 1 <= i <= Z.of_N n ->
            exists ts candle vol finalized daily total,
              Collector.txTimeStamp sample_contract i = Ok ts
              /\ Z.abs (Z.of_N ts * 1000) <= maxTime
              /\ Collector.candleStickData sample_contract (Z.of_N ts) = Ok candle
              /\ sample_rows !! Z.to_nat i
                 = Some (written_row (Z.of_N n) i (Z.of_N ts) candle vol finalized daily
                           total)
              /\ ((exists x, Collector.tVol sample_contract (Z.of_N ts) = Throw x)
                  /\ vol = "Error"
                  \/ exists v, Collector.tVol sample_contract (Z.of_N ts) = Ok v
                               /\ vol = bigint_toString (Z.of_N v)).
Proof.
  assert (Collector.fetchData sample_contract = Ok sample_rows) as H
    by (vm_compute; reflexivity).
  split; [exact H |].
  apply (rows_reproduce_contract sample_contract sample_rows H).
Defined.

(** ** The totals of the rows *)

Section Totals.

Import Collector.

Variable c : contract.
Variable totalTx : Z.

Lemma volume_sum_app l1 l2 : volume_sum (l1 ++ l2) = volume_sum l1 + volume_sum l2.
Proof. induction l1 as [| r l1 IH]; simpl; [reflexivity | rewrite IH; lia]. Qed.

Lemma day_volume_app d l1 l2 : day_volume d (l1 ++ l2) = day_volume d l1 + day_volume d l2.
Proof.
  induction l1 as [| r l1 IH]; simpl; [reflexivity |].
  rewrite IH. destruct (r !! 9%nat) as [[n | s] |]; try reflexivity.
  destruct (String.eqb s d); lia.
Qed.

Lemma day_volume_nonneg d l :
  Forall (fun row => 0 <= row_volume row) l -> 0 <= day_volume d l.
Proof.
  induction 1 as [| r l Hr _ IH]; simpl; [lia |].
  destruct (r !! 9%nat) as [[n | s] |]; try exact IH.
  destruct (String.eqb s d); lia.
Qed.

Lemma day_volume_take d l i :
  Forall (fun row => 0 <= row_volume row) l -> day_volume d (take i l) <= day_volume d l.
Proof.
  intros H. rewrite <- (take_drop i l) at 2. rewrite day_volume_app.
  assert (0 <= day_volume d (drop i l)); [| lia].
  apply day_volume_nonneg. rewrite <- (take_drop i l) in H.
  apply Forall_app in H. apply H.
Qed.

Lemma written_row_volume i ts candle vol finalized daily total :
  row_volume (written_row totalTx i ts candle vol finalized daily total)
  = if String.eqb vol "Error" then 0
    else match StringToBigInt vol with Some v => v | None => 0 end.
Proof. reflexivity. Qed.

Lemma day_volume_snoc d rows i ts candle vol finalized daily total :
  day_volume d (rows ++ [written_row totalTx i ts candle vol finalized daily total])
  = day_volume d rows
    + if String.eqb (utcDate_of ts) d
      then row_volume (written_row totalTx i ts candle vol finalized daily total)
      else 0.
Proof.
  rewrite day_volume_app. f_equal. cbn [day_volume fold_right].
  change (written_row totalTx i ts candle vol finalized daily total !! 9%nat)
    with (Some (Text (utcDate_of ts))).
  cbv beta iota. destruct (String.eqb (utcDate_of ts) d); lia.
Qed.

Lemma row_totals_old rows row' i row :
  rows !! i = Some row -> row_totals rows i row -> row_totals (rows ++ [row']) i row.
Proof.
  intros Hi. apply lookup_lt_Some in Hi. unfold row_totals.
  rewrite take_app_le by lia. auto.
Qed.

Lemma recorded_totals_kept st i ts candle :
  totals_kept st -> totals_kept (recorded c totalTx st i ts candle).
Proof.
  intros (rows & Hrows & Htotal & Hnonneg & Hday & Hall).
  destruct (recorded_row c totalTx st i ts candle) as (vol & Hrow & Hcases).
  cbn zeta in Hrow, Hcases.
  set (st' := recorded c totalTx st i ts candle) in *.
  set (row := written_row totalTx i ts candle vol ""
                (bigint_toString (s_currentDayCumulativeVolume st'))
                (bigint_toString (s_cumulativeTotalVolume st'))) in *.
  assert (row_volume row
          = if String.eqb vol "Error" then 0
            else match StringToBigInt vol with Some v => v | None => 0 end) as Hvolume
    by apply written_row_volume.
  assert (forall d, day_volume d (rows ++ [row])
                    = day_volume d rows
                      + if String.eqb (utcDate_of ts) d then row_volume row else 0) as Hsnoc
    by (intros d; apply day_volume_snoc).
  assert (take (S (length rows)) (rows ++ [row]) = rows ++ [row]) as Htake
    by (apply take_ge; rewrite length_app; simpl; lia).
  exists (rows ++ [row]). rewrite Hrow, Hrows.
  split; [reflexivity |]. rewrite volume_sum_app. cbn [volume_sum fold_right].
  destruct Hcases as [(_ & -> & Hd & Ht & Hdl) | (v & _ & -> & Hd & Ht & Hdl)].
  - (* the volume is unavailable *)
    simpl in Hvolume.
    split; [lia | split; [apply Forall_app; split; [exact Hnonneg | constructor; [lia | constructor]] |]].
    split.
    + intros d Hd'. rewrite Hd in Hd'. specialize (Hday d Hd'). rewrite Hsnoc, Hvolume, Hdl.
      destruct (String.eqb (utcDate_of ts) d); lia.
    + intros j r Hj. apply lookup_app_Some in Hj as [Hj | [Hlen Hj]].
      * apply row_totals_old; [exact Hj | apply Hall; exact Hj].
      * apply list_lookup_singleton_Some in Hj as [Hj <-].
        assert (j = length rows) as -> by lia. unfold row_totals. rewrite Htake.
        split; [| intros Hne; destruct Hne; reflexivity].
        rewrite volume_sum_app. cbn [volume_sum fold_right]. rewrite Hvolume.
        change (row !! 12%nat) with (Some (Text (bigint_toString (s_cumulativeTotalVolume st')))).
        rewrite Ht, Htotal. do 3 f_equal. lia.
  - (* the volume is available *)
    assert (row_volume row = Z.of_N v) as Hv.
    { rewrite Hvolume, StringToBigInt_toString.
      destruct (String.eqb_spec (bigint_toString (Z.of_N v)) "Error") as [Heq | _];
        [apply bigint_toString_not_Error in Heq; destruct Heq | reflexivity]. }
    assert (0 <= day_volume (utcDate_of ts) rows) as Hpos by (apply day_volume_nonneg; exact Hnonneg).
    assert (Z.of_N v <= s_currentDayCumulativeVolume st'
            /\ s_currentDayCumulativeVolume st' <= day_volume (utcDate_of ts) rows + Z.of_N v)
      as Hbound.
    { rewrite Hdl. unfold same_day. destruct (s_currentDay st) as [d' |]; [| lia].
      destruct (String.eqb_spec d' (utcDate_of ts)) as [-> | _]; [| lia].
      specialize (Hday _ eq_refl). lia. }
    split; [lia | split; [apply Forall_app; split; [exact Hnonneg | constructor; [lia | constructor]] |]].
    split.
    + intros d Hd'. rewrite Hd in Hd'. injection Hd' as <-.
      rewrite Hsnoc, String.eqb_refl, Hv. lia.
    + intros j r Hj. apply lookup_app_Some in Hj as [Hj | [Hlen Hj]].
      * apply row_totals_old; [exact Hj | apply Hall; exact Hj].
      * apply list_lookup_singleton_Some in Hj as [Hj <-].
        assert (j = length rows) as -> by lia. unfold row_totals. rewrite Htake.
        split.
        -- rewrite volume_sum_app. cbn [volume_sum fold_right]. rewrite Hv.
           change (row !! 12%nat)
             with (Some (Text (bigint_toString (s_cumulativeTotalVolume st')))).
           rewrite Ht, Htotal. do 3 f_equal. lia.
        -- intros _. exists (utcDate_of ts), (s_currentDayCumulativeVolume st').
           split; [reflexivity | split; [reflexivity |]].
           rewrite Hsnoc, String.eqb_refl, Hv. lia.
Qed.

Lemma loop_totals_kept k st : loop c totalTx k 1 init = Ok st -> totals_kept st.
Proof.
  apply (loop_from_init c totalTx (fun _ => totals_kept)).
  - exists []. split; [reflexivity | split; [reflexivity | split; [constructor |]]].
    split; [intros d [=] | intros i row [=]].
  - intros k' st' ts candle Hkept _ _ _. apply recorded_totals_kept. exact Hkept.
Qed.

End Totals.

Section FinalTotals.

Import Collector.

Lemma attach_volume m row : row_volume (attach m row) = row_volume row.
Proof. unfold row_volume. rewrite attach_other by lia. reflexivity. Qed.

Lemma attach_volume_sum m rows : volume_sum (map (attach m) rows) = volume_sum rows.
Proof.
  induction rows as [| r rows IH]; simpl; [reflexivity |].
  rewrite attach_volume, IH. reflexivity.
Qed.

Lemma attach_day_volume m d rows : day_volume d (map (attach m) rows) = day_volume d rows.
Proof.
  induction rows as [| r rows IH]; simpl; [reflexivity |].
  rewrite attach_volume, IH, attach_other by lia. reflexivity.
Qed.

(** The row at position [i] of a completed pass and the row the loop wrote
    there. *)
Lemma fetchData_row c rows i row :
  fetchData c = Ok rows -> (1 <= i)%nat -> rows !! i = Some row ->
  exists m rows0 row0,
    rows = header :: map (attach m) rows0
    /\ rows0 !! (i - 1)%nat = Some row0
    /\ row = attach m row0
    /\ row_totals rows0 (i - 1) row0
    /\ Forall (fun r => 0 <= row_volume r) rows0.
Proof.
  intros H Hi Hrow.
  destruct (fetchData_Ok c rows H) as (n & st & m & rows0 & _ & Hloop & Hall & _ & _ & _ & ->).
  destruct (loop_totals_kept c _ _ _ Hloop) as (rows1 & Hrows1 & _ & Hnonneg & _ & Htot).
  rewrite Hall in Hrows1. injection Hrows1 as <-.
  destruct i as [| i]; [lia |]. simpl in Hrow. rewrite lookup_map in Hrow.
  destruct (rows0 !! i) as [row0 |] eqn:Hrow0; [| discriminate]. injection Hrow as <-.
  exists m, rows0, row0. replace (S i - 1)%nat with i by lia.
  split; [reflexivity | split; [exact Hrow0 | split; [reflexivity | split; [| exact Hnonneg]]]].
  apply Htot. exact Hrow0.
Qed.

End FinalTotals.

(** X11.  In the rows of a completed pass, the last column of every row
    (Cumulative Total Volume) is the decimal text of the sum of the valid
    volumes of the rows from the first one to that row; a row whose volume
    is unavailable counts zero and so repeats the total of the row before
    it. *)
Theorem cumulative_total_column (c : Collector.contract) (rows : list (list Collector.cell)) :
  Collector.fetchData c = Ok rows ->
  forall i row, (1 <= i)%nat -> rows !! i = Some row ->
    row !! 12%nat
    = Some (Collector.Text (bigint_toString (volume_sum (take i (tail rows))))).
Proof.
  intros H i row Hi Hrow.
  destruct (fetchData_row c rows i row H Hi Hrow)
    as (m & rows0 & row0 & -> & _ & -> & [H12 _] & _).
  rewrite attach_other by lia. rewrite H12. cbn [tail].
  rewrite firstn_map, attach_volume_sum.
  replace (S (i - 1)) with i by lia. reflexivity.
Qed.

Lemma cumulative_total_column_witness :
  Collector.fetchData sample_contract = Ok sample_rows
  /\ forall i row, (1 <= i)%nat -> sample_rows !! i = Some row ->
       row !! 12%nat
       = Some (Collector.Text (bigint_toString (volume_sum (take i (tail sample_rows))))).
Proof.
  assert (Collector.fetchData sample_contract = Ok sample_rows) as H
    by (vm_compute; reflexivity).
  split; [exact H |].
  apply (cumulative_total_column sample_contract sample_rows H).
Defined.

(** X12.  In the rows of a completed pass, a row whose volume is available
    carries a running daily total (Cumulative Daily Volume) that is at
    least the row's own volume and at most the finalized total of its date
    (Daily Total Volume); all three are non-negative integers written in
    decimal. *)
Theorem daily_total_bounds (c : Collector.contract) (rows : list (list Collector.cell)) :
  Collector.fetchData c = Ok rows ->
  forall i row, (1 <= i)%nat -> rows !! i = Some row ->
    row !! 8%nat <> Some (Collector.Text "Error") ->
    exists daily finalized,
      row !! 11%nat = Some (Collector.Text (bigint_toString daily))
      /\ row !! 10%nat = Some (Collector.Text (bigint_toString finalized))
      /\ 0 <= row_volume row <= daily
      /\ daily <= finalized.
Proof.
  intros H i row Hi Hrow Hvol.
  destruct (finalized_row c rows i row H Hi Hrow) as (date & H9 & H10).
  destruct (fetchData_row c rows i row H Hi Hrow)
    as (m & rows0 & row0 & -> & _ & -> & [_ Hdaily] & Hnonneg).
  rewrite attach_other in Hvol, H9 by lia.
  destruct (Hdaily Hvol) as (date' & daily & H9' & H11 & Hown & Hle).
  rewrite H9 in H9'. injection H9' as <-.
  exists daily, (day_volume date (tail (Collector.header :: map (Collector.attach m) rows0))).
  rewrite attach_other by lia. rewrite attach_volume.
  split; [exact H11 | split; [exact H10 | split; [exact Hown |]]].
  cbn [tail]. rewrite attach_day_volume.
  pose proof (day_volume_take date rows0 (S (i - 1)) Hnonneg). lia.
Qed.

Lemma daily_total_bounds_witness :
  Collector.fetchData sample_contract = Ok sample_rows
  /\ forall i row, (1 <= i)%nat -> sample_rows !! i = Some row ->
       row !! 8%nat <> Some (Collector.Text "Error") ->
       exists daily finalized,
         row !! 11%nat = Some (Collector.Text (bigint_toString daily))
         /\ row !! 10%nat = Some (Collector.Text (bigint_toString finalized))
         /\ 0 <= row_volume row <= daily
         /\ daily <= finalized.
Proof.
  assert (Collector.fetchData sample_contract = Ok sample_rows) as H
    by (vm_compute; reflexivity).
  split; [exact H |].
  apply (daily_total_bounds sample_contract sample_rows H).
Defined.

(** X13.  In the rows of a completed pass, two transactions whose
    timestamps fall on the same UTC day (the same number of whole days since
    1970-01-01) carry the same UTC date and the same finalized daily total,
    wherever their rows stand and whether or not their own volumes are
    available. *)
Theorem same_day_same_total (c : Collector.contract) (rows : list (list Collector.cell))
    (n ti tj : N) (i j : Z) :
  Collector.fetchData c = Ok rows ->
  Collector.totalTx c = Ok n ->
  1 <= i <= Z.of_N n -> 1 <= j <= Z.of_N n ->
  Collector.txTimeStamp c i = Ok ti ->
  Collector.txTimeStamp c j = Ok tj ->
  Z.of_N ti / 86400 = Z.of_N tj / 86400 ->
  exists row row',
    rows !! Z.to_nat i = Some row /\ rows !! Z.to_nat j = Some row'
    /\ row !! 2%nat = Some (Collector.Number (Z.of_N ti))
    /\ row' !! 2%nat = Some (Collector.Number (Z.of_N tj))
    /\ row !! 9%nat = row' !! 9%nat
    /\ row !! 10%nat = row' !! 10%nat.
Proof.
  intros H Hn Hi Hj Hti Htj Hday.
  destruct (fetchData_written c rows n i ti H Hn Hi Hti)
    as (candle & vol & fin & daily & total & Hrow).
  destruct (fetchData_written c rows n j tj H Hn Hj Htj)
    as (candle' & vol' & fin' & daily' & total' & Hrow').
  do 2 eexists. split; [exact Hrow | split; [exact Hrow' |]].
  split; [reflexivity | split; [reflexivity |]].
  assert (written_row (Z.of_N n) i (Z.of_N ti) candle vol fin daily total !! 9%nat
          = written_row (Z.of_N n) j (Z.of_N tj) candle' vol' fin' daily' total' !! 9%nat)
    as H9.
  { change (Some (Collector.Text (utcDate_of (Z.of_N ti)))
            = Some (Collector.Text (utcDate_of (Z.of_N tj)))).
    rewrite (utcDate_of_day _ _ Hday). reflexivity. }
  split; [exact H9 |].
  destruct (finalized_row c rows (Z.to_nat i) _ H ltac:(lia) Hrow) as (d & Hd & H10).
  destruct (finalized_row c rows (Z.to_nat j) _ H ltac:(lia) Hrow') as (d' & Hd' & H10').
  rewrite Hd, Hd' in H9. injection H9 as <-. rewrite H10, H10'. reflexivity.
Qed.

Lemma same_day_same_total_witness :
  Collector.fetchData sample_contract = Ok sample_rows
  /\ Z.of_N 100000 / 86400 = Z.of_N 150000 / 86400
  /\ exists row row',
       sample_rows !! Z.to_nat 2 = Some row /\ sample_rows !! Z.to_nat 3 = Some row'
       /\ row !! 2%nat = Some (Collector.Number (Z.of_N 100000))
       /\ row' !! 2%nat = Some (Collector.Number (Z.of_N 150000))
       /\ row !! 9%nat = row' !! 9%nat
       /\ row !! 10%nat = row' !! 10%nat.
Proof.
  assert (Collector.fetchData sample_contract = Ok sample_rows) as H
    by (vm_compute; reflexivity).
  split; [exact H | split; [reflexivity |]].
  apply (same_day_same_total sample_contract sample_rows 3 100000 150000 2 3 H);
    solve [reflexivity | lia].
Defined.

(** ** The labels an endpoint rejects *)

Section Rejection.

Lemma inherited_In k : existsb (String.eqb k) Obj.inherited = true <-> In k Obj.inherited.
Proof.
  rewrite existsb_exists. split.
  - intros (x & Hx & Heq). apply String.eqb_eq in Heq. subst. exact Hx.
  - intros H. exists k. split; [exact H | apply String.eqb_refl].
Qed.

Lemma handler_not_400 invalid project failure file req :
  falsy (Obj.get timeframeMap (timeframe req)) = false ->
  is_Status400 (snd (handler invalid project failure file req)) = false.
Proof.
  intros H. unfold handler. rewrite H.
  destruct (getCandleRecords file) as [records |]; [| reflexivity].
  destruct (aggregateCandleData _ _ _); reflexivity.
Qed.

End Rejection.

(** X14.  An endpoint answers with status 400 exactly when the requested
    label is neither one of the fifteen labels of the table nor the name of
    a property that every object inherits; it then lists the fifteen labels
    in the order of the table and neither reads the file nor aggregates. *)
Theorem rejected_labels (invalid failure : string) (project : list candle -> body)
    (file : option (list CandleRecord)) (req : request) :
  (is_Status400 (snd (handler invalid project failure file req)) = true
   <-> Obj.own timeframeMap (timeframe req) = None
       /\ ~ In (timeframe req) Obj.inherited)
  /\ (is_Status400 (snd (handler invalid project failure file req)) = true ->
      handler invalid project failure file req
      = ([], Status400 invalid
               ["1m"; "5m"; "15m"; "30m"; "45m"; "1h"; "2h"; "3h"; "4h"; "5h"; "6h";
                "12h"; "15h"; "18h"; "1d"])).
Proof.
  assert (is_Status400 (snd (handler invalid project failure file req)) = true
          -> Obj.get timeframeMap (timeframe req) = Obj.Undefined) as Hundef.
  { intros H400. destruct (Obj.get timeframeMap (timeframe req)) as [| w | name] eqn:Hget;
      [reflexivity | |].
    - rewrite handler_not_400 in H400; [discriminate |]. rewrite Hget. simpl.
      apply Z.eqb_neq. unfold Obj.get in Hget.
      destruct (Obj.own timeframeMap (timeframe req)) as [w' |] eqn:Hown.
      + injection Hget as <-. pose proof (timeframeMap_positive _ _ Hown). lia.
      + destruct (existsb _ _); discriminate.
    - rewrite handler_not_400 in H400; [discriminate |]. rewrite Hget. reflexivity. }
  split; [split |].
  - intros H400. specialize (Hundef H400). unfold Obj.get in Hundef.
    destruct (Obj.own timeframeMap (timeframe req)); [discriminate |].
    split; [reflexivity |]. intros Hin. apply inherited_In in Hin.
    rewrite Hin in Hundef. discriminate.
  - intros [Hown Hin].
    rewrite (unknown_label_rejected invalid project failure file req); [reflexivity |].
    unfold Obj.get. rewrite Hown.
    destruct (existsb _ _) eqn:E; [| reflexivity]. apply inherited_In in E. contradiction.
  - intros H400. apply unknown_label_rejected. apply Hundef. exact H400.
Qed.

(** * Properties of the event download *)

(** ** The block numbers that are queried *)

Section BlockNumbers.

Import History.







End BlockNumbers.



(** ** The timestamps of the blocks *)

Section TimestampCache.

Import History.

Variable p : provider.

(** What one iteration does when the block has a timestamp in the cache. *)
Lemma process_cached st event t st' :
  cached (blockTimestampCache st) (blockNumber event) = Some t ->
  process p st event = Done st' ->
  blockTimestampCache st' = blockTimestampCache st
  /\ lookups st' = lookups st
  /\ (records st' = records st
      \/ exists r, records st' = records st ++ [r]
                   /\ r_blockNumber r = blockNumber event
                   /\ timestamp r = iso_string (t * 1000)).
Proof.
  intros Hc. unfold process. rewrite Hc.
  destruct (eventName event) as [name |]; [| intros [= <-]; auto].
  destruct (args event) as [arguments |]; [| intros [= <-]; auto].
  destruct (String.eqb name ""); [intros [= <-]; auto |].
  destruct arguments as [text |]; [| discriminate].
  unfold Date_new. destruct (Z.abs (t * 1000) <=? maxTime); simpl; [| discriminate].
  intros [= <-]. simpl. split; [reflexivity | split; [reflexivity |]].
  right. eexists. split; [reflexivity |]. simpl. auto.
Qed.

(** What one iteration does to another block. *)
Lemma process_other st event st' b :
  blockNumber event <> b ->
  process p st event = Done st' ->
  cached (blockTimestampCache st') b = cached (blockTimestampCache st) b
  /\ exists more new,
       lookups st' = lookups st ++ more /\ ~ In b more
       /\ records st' = records st ++ new
       /\ forall r, In r new -> r_blockNumber r <> b.
Proof.
  intros Hb. unfold process.
  assert (cached (blockTimestampCache st) b = cached (blockTimestampCache st) b
          /\ exists more new,
               lookups st = lookups st ++ more /\ ~ In b more
               /\ records st = records st ++ new
               /\ forall r, In r new -> r_blockNumber r <> b) as Hsame.
  { split; [reflexivity |]. exists [], []. rewrite !app_nil_r. repeat split; auto. }
  destruct (eventName event) as [name |]; [| intros [= <-]; exact Hsame].
  destruct (args event) as [arguments |]; [| intros [= <-]; exact Hsame].
  destruct (String.eqb name ""); [intros [= <-]; exact Hsame |].
  clear Hsame.
  destruct (cached (blockTimestampCache st) (blockNumber event)) as [t |].
  - destruct arguments as [text |]; [| discriminate].
    destruct (toISOString _) as [iso |]; [| discriminate].
    intros [= <-]. simpl. split; [reflexivity |].
    exists [], [{| timestamp := iso; r_blockNumber := blockNumber event;
                   r_transactionHash := transactionHash event; r_eventName := name;
                   eventData := text |}].
    rewrite app_nil_r. repeat split; auto.
    intros r [<- | []]. exact Hb.
  - destruct arguments as [text |]; [| discriminate].
    destruct (toISOString _) as [iso |]; [| discriminate].
    intros [= <-]. simpl. split.
    + unfold cached. rewrite lookup_insert_ne by exact Hb. reflexivity.
    + exists [blockNumber event],
        [{| timestamp := iso; r_blockNumber := blockNumber event;
            r_transactionHash := transactionHash event; r_eventName := name;
            eventData := text |}].
      split; [reflexivity | split; [| split; [reflexivity |]]].
      * intros [H | []]. contradiction.
      * intros r [<- | []]. exact Hb.
Qed.

(** *** Rejected lookups *)

Lemma fetchEvents_In blocks :
  forall acc event,
    In event
       (fold_left
          (fun allEvents blockNumber =>
             match queryFilter p blockNumber with
             | Ok eventsInBlock => allEvents ++ eventsInBlock
             | Throw _ => allEvents
             end)
          blocks acc) ->
    In event acc \/ exists b events, queryFilter p b = Ok events /\ In event events.
Proof.
  induction blocks as [| b blocks IH]; intros acc event; simpl; [auto |].
  intros H. apply IH in H as [H | H]; [| auto].
  destruct (queryFilter p b) as [events |] eqn:E; [| auto].
  apply in_app_iff in H as [H | H]; [auto | eauto].
Qed.

Lemma process_total st event :
  timestamps_in_range p ->
  args event <> Some None ->
  (forall b t, blockTimestampCache st !! b = Some t -> Z.abs (t * 1000) <= maxTime) ->
  exists st',
    process p st event = Done st'
    /\ forall b t, blockTimestampCache st' !! b = Some t -> Z.abs (t * 1000) <= maxTime.
Proof.
  intros Hrange Hargs Hcache. unfold process.
  destruct (eventName event) as [name |]; [| eauto].
  destruct (args event) as [[text |] |]; [| congruence | eauto].
  destruct (String.eqb name ""); [eauto |].
  unfold cached.
  destruct (blockTimestampCache st !! blockNumber event) as [t |] eqn:Hc.
  - destruct (Z.eqb_spec t 0) as [-> | _].
    + set (t' := match getBlock p _ _ with Ok (Some t) => t | _ => 0 end).
      assert (Z.abs (t' * 1000) <= maxTime) as Ht'.
      { unfold t'. destruct (getBlock p _ _) as [[t1 |] |] eqn:E;
          [exact (Hrange _ _ _ E) | |]; unfold maxTime; lia. }
      replace (match getBlock p (length (lookups st)) (blockNumber event) with
               | Ok (Some t) => t | Ok None => 0 | Throw _ => 0 end) with t'
        by (unfold t'; destruct (getBlock p _ _) as [[? |] |]; reflexivity).
      unfold Date_new.
      replace (Z.abs (t' * 1000) <=? maxTime) with true by (symmetry; apply Z.leb_le; exact Ht').
      simpl. eexists. split; [reflexivity |]. simpl. intros b t.
      destruct (Z.eq_dec (blockNumber event) b) as [<- | Hne].
      * rewrite lookup_insert_eq. intros [= <-]. exact Ht'.
      * rewrite lookup_insert_ne by exact Hne. apply Hcache.
    + pose proof (Hcache _ _ Hc) as Ht. unfold Date_new.
      replace (Z.abs (t * 1000) <=? maxTime) with true by (symmetry; apply Z.leb_le; exact Ht).
      simpl. eexists. split; [reflexivity |]. exact Hcache.
  - set (t' := match getBlock p _ _ with Ok (Some t) => t | _ => 0 end).
    assert (Z.abs (t' * 1000) <= maxTime) as Ht'.
    { unfold t'. destruct (getBlock p _ _) as [[t1 |] |] eqn:E;
        [exact (Hrange _ _ _ E) | |]; unfold maxTime; lia. }
    replace (match getBlock p (length (lookups st)) (blockNumber event) with
             | Ok (Some t) => t | Ok None => 0 | Throw _ => 0 end) with t'
      by (unfold t'; destruct (getBlock p _ _) as [[? |] |]; reflexivity).
    unfold Date_new.
    replace (Z.abs (t' * 1000) <=? maxTime) with true by (symmetry; apply Z.leb_le; exact Ht').
    simpl. eexists. split; [reflexivity |]. simpl. intros b t.
    destruct (Z.eq_dec (blockNumber event) b) as [<- | Hne].
    + rewrite lookup_insert_eq. intros [= <-]. exact Ht'.
    + rewrite lookup_insert_ne by exact Hne. apply Hcache.
Qed.

Lemma processAll_total allEvents :
  timestamps_in_range p ->
  (forall event, In event allEvents -> args event <> Some None) ->
  forall st,
    (forall b t, blockTimestampCache st !! b = Some t -> Z.abs (t * 1000) <= maxTime) ->
    exists st', processAll p st allEvents = Done st'.
Proof.
  intros Hrange. induction allEvents as [| event rest IH]; intros Hargs st Hcache; simpl;
    [eauto |].
  destruct (process_total st event Hrange) as (st1 & -> & Hcache1);
    [apply Hargs; left; reflexivity | exact Hcache |].
  simpl. apply IH; [intros e He; apply Hargs; right; exact He | exact Hcache1].
Qed.

End TimestampCache.

(** X16.  Once the cache holds a timestamp other than zero for a block, the
    rest of the loop never looks that block up again, keeps the timestamp,
    and stamps every further record of that block with the ISO text of
    that timestamp. *)
Theorem cached_timestamp_reused (p : History.provider) (st st' : History.state)
    (allEvents : list History.Event) (b t : Z) :
  History.cached (History.blockTimestampCache st) b = Some t ->
  History.processAll p st allEvents = History.Done st' ->
  History.cached (History.blockTimestampCache st') b = Some t
  /\ exists more new,
       History.lookups st' = History.lookups st ++ more /\ ~ In b more
       /\ History.records st' = History.records st ++ new
       /\ forall r, In r new -> History.r_blockNumber r = b ->
                    History.timestamp r = iso_string (t * 1000).
Proof.
  revert st st' b t.
  induction allEvents as [| event rest IH]; intros st st' b t Hc; simpl.
  - intros [= <-]. split; [exact Hc |]. exists [], []. rewrite !app_nil_r.
    repeat split; auto. intros r [].
  - destruct (History.process p st event) as [st1 |] eqn:E; simpl; [| discriminate].
    intros Hrest.
    assert (History.cached (History.blockTimestampCache st1) b = Some t
            /\ exists more new,
                 History.lookups st1 = History.lookups st ++ more /\ ~ In b more
                 /\ History.records st1 = History.records st ++ new
                 /\ forall r, In r new -> History.r_blockNumber r = b ->
                              History.timestamp r = iso_string (t * 1000))
      as (Hc1 & more1 & new1 & Hl1 & Hm1 & Hr1 & Hn1).
    { destruct (Z.eq_dec (History.blockNumber event) b) as [Heq | Hne].
      - subst b. destruct (process_cached p st event t st1 Hc E) as (Hcache & Hl & Hr).
        split; [rewrite Hcache; exact Hc |]. exists [].
        destruct Hr as [Hr | (r & Hr & Hrb & Hrt)].
        + exists []. rewrite !app_nil_r. repeat split; auto. intros r [].
        + exists [r]. rewrite app_nil_r. repeat split; auto.
          intros r' [<- | []] _. exact Hrt.
      - destruct (process_other p st event st1 b Hne E) as (Hcache & more & new & H1 & H2 & H3 & H4).
        split; [rewrite Hcache; exact Hc |]. exists more, new.
        repeat split; auto. intros r Hr Hb. destruct (H4 r Hr Hb). }
    destruct (IH st1 st' b t Hc1 Hrest) as (Hc' & more & new & Hl & Hm & Hr & Hn).
    split; [exact Hc' |]. exists (more1 ++ more), (new1 ++ new).
    rewrite Hl, Hl1, Hr, Hr1, <- !app_assoc.
    split; [reflexivity | split; [| split; [reflexivity |]]].
    + rewrite in_app_iff. tauto.
    + intros r Hin. apply in_app_iff in Hin as [Hin | Hin]; [apply Hn1 | apply Hn]; exact Hin.
Qed.

Lemma cached_timestamp_reused_witness :
  History.cached (History.blockTimestampCache sample_history_state) 10 = Some 86400
  /\ History.processAll sample_provider sample_history_state sample_later_events
     = History.Done sample_history_final
  /\ History.cached (History.blockTimestampCache sample_history_final) 10 = Some 86400
  /\ exists more new,
       History.lookups sample_history_final = History.lookups sample_history_state ++ more
       /\ ~ In 10 more
       /\ History.records sample_history_final
          = History.records sample_history_state ++ new
       /\ forall r, In r new -> History.r_blockNumber r = 10 ->
                    History.timestamp r = iso_string (86400 * 1000).
Proof.
  assert (History.cached (History.blockTimestampCache sample_history_state) 10 = Some 86400)
    as H1 by reflexivity.
  assert (History.processAll sample_provider sample_history_state sample_later_events
          = History.Done sample_history_final) as H2 by reflexivity.
  split; [exact H1 | split; [exact H2 |]].
  apply (cached_timestamp_reused sample_provider sample_history_state sample_history_final
           sample_later_events 10 86400 H1 H2).
Defined.

(** X17.  Rejected provider calls never end the download.  When the file
    can be read, the arguments of every returned event can be formatted and
    every returned block timestamp is a time a [Date] can hold, the script
    hands its records to the CSV writer, whichever block queries and block
    lookups are rejected or answer with no block. *)
Theorem provider_failures_not_fatal (p : History.provider) (rows : list History.Row) :
  arguments_format p ->
  timestamps_in_range p ->
  exists records, History.downloadAllEvents p (Some rows) = History.Done records.
Proof.
  intros Hformat Hrange. unfold History.downloadAllEvents. simpl.
  destruct (processAll_total p
              (History.fetchEvents p
                 (History.sortedBlockNumbers
                    (fold_left
                       (fun blockNumbers row =>
                          match History.Blockno row with
                          | Some text =>
                              if String.eqb text "" then blockNumbers
                              else History.Set_add blockNumbers (parseInt text)
                          | None => blockNumbers
                          end) rows []))) Hrange) with (st := History.init) as [st Hst].
  - intros event Hin. apply fetchEvents_In in Hin as [[] | (b & events & Hq & Hin)].
    exact (Hformat b events event Hq Hin).
  - intros b t. simpl. rewrite lookup_empty. discriminate.
  - rewrite Hst. simpl. eauto.
Qed.

Lemma provider_failures_not_fatal_witness :
  arguments_format sample_provider
  /\ timestamps_in_range sample_provider
  /\ exists records,
       History.downloadAllEvents sample_provider (Some sample_export) = History.Done records.
Proof.
  assert (arguments_format sample_provider) as H1.
  { intros b events event. simpl.
    destruct b as [n |]; [| intros [= <-] []].
    destruct (n =? 10); [| destruct (n =? 30); [| destruct (n =? 20); [discriminate |]]];
      intros [= <-] Hin; simpl in Hin;
      repeat (destruct Hin as [<- | Hin]; [discriminate |]); destruct Hin. }
  assert (timestamps_in_range sample_provider) as H2.
  { intros k b t. simpl. destruct (b =? 10); [| discriminate].
    intros [= <-]. vm_compute. discriminate. }
  split; [exact H1 | split; [exact H2 |]].
  apply (provider_failures_not_fatal sample_provider sample_export H1 H2).
Defined.

(** ** The finalized totals, by UTC day *)

Section TotalsByDay.

Import Collector.

Lemma day_volume_utc rows timestamp :
  Forall dated_row rows ->
  0 <= timestamp < year_10000 ->
  day_volume (utcDate_of timestamp) rows = utc_day_volume (timestamp / 86400) rows.
Proof.
  intros Hrows Hts. induction Hrows as [| row rows (t & Ht & H2 & H9) _ IH]; [reflexivity |].
  cbn [day_volume utc_day_volume fold_right].
  fold (day_volume (utcDate_of timestamp) rows).
  fold (utc_day_volume (timestamp / 86400) rows).
  unfold row_day. rewrite H2, H9, IH, (utcDate_of_same_day t timestamp Ht Hts).
  reflexivity.
Qed.

(** The rows of a completed pass over timestamps before the year 10000
    carry the date text of their timestamps. *)
Lemma fetchData_dated c rows n :
  totalTx c = Ok n ->
  before_year_10000 c (Z.of_N n) ->
  fetchData c = Ok rows ->
  Forall dated_row (tail rows).
Proof.
  intros Hn Hyear H.
  destruct (fetchData_Ok c rows H) as (n' & st & m & rows0 & Hn' & Hloop & Hall & _ & _ & _ & ->).
  rewrite Hn in Hn'. injection Hn' as <-.
  destruct (loop_rows_written c _ _ _ Hloop) as (rows1 & Hrows1 & Hlen & Hrow).
  rewrite Hall in Hrows1. injection Hrows1 as <-.
  cbn [tail]. apply Forall_lookup. intros j row Hj.
  rewrite lookup_map in Hj.
  destruct (rows0 !! j) as [row0 |] eqn:Hrow0; [| discriminate]. injection Hj as <-.
  pose proof (lookup_lt_Some _ _ _ Hrow0) as Hlt.
  destruct (Hrow j) as (ts & candle & vol & daily & total & Hts & _ & _ & Hlook & _); [lia |].
  rewrite Hlook in Hrow0. injection Hrow0 as <-.
  exists (Z.of_N ts). split; [split; [lia | apply (Hyear (1 + Z.of_nat j)); [lia | exact Hts]] |].
  rewrite !attach_other by lia. split; reflexivity.
Qed.

End TotalsByDay.

(** X18.  In the rows of a completed pass whose timestamps are before the
    year 10000, every row carries in its Daily Total Volume column the sum
    of the valid volumes of all rows whose timestamps fall on the same UTC
    day as its own, computed over the complete set of rows; two rows of the
    same UTC day therefore carry the same daily total, wherever they
    stand. *)
Theorem finalized_totals_by_day (c : Collector.contract) (rows : list (list Collector.cell))
    (n : N) :
  Collector.totalTx c = Ok n ->
  before_year_10000 c (Z.of_N n) ->
  Collector.fetchData c = Ok rows ->
  (forall i row, (1 <= i)%nat -> rows !! i = Some row ->
     exists day,
       row_day row = Some day
       /\ row !! 10%nat
          = Some (Collector.Text (bigint_toString (utc_day_volume day (tail rows)))))
  /\ (forall i j row row',
        (1 <= i)%nat -> (1 <= j)%nat -> rows !! i = Some row -> rows !! j = Some row' ->
        row_day row = row_day row' -> row !! 10%nat = row' !! 10%nat).
Proof.
  intros Hn Hyear H.
  pose proof (fetchData_dated c rows n Hn Hyear H) as Hdated.
  assert (forall i row, (1 <= i)%nat -> rows !! i = Some row ->
            exists day,
              row_day row = Some day
              /\ row !! 10%nat
                 = Some (Collector.Text (bigint_toString (utc_day_volume day (tail rows)))))
    as Hrow.
  { intros i row Hi Hrow.
    destruct (finalized_row c rows i row H Hi Hrow) as (date & H9 & H10).
    assert (dated_row row) as (t & Ht & H2 & H9').
    { rewrite Forall_lookup in Hdated. apply (Hdated (i - 1)%nat).
      destruct rows as [| head rest]; [discriminate |]. cbn [tail].
      destruct i as [| i]; [lia |]. simpl in Hrow.
      replace (S i - 1)%nat with i by lia. exact Hrow. }
    rewrite H9 in H9'. injection H9' as ->.
    exists (t / 86400). unfold row_day. rewrite H2. split; [reflexivity |].
    rewrite H10, (day_volume_utc _ _ Hdated Ht). reflexivity. }
  split; [exact Hrow |].
  intros i j row row' Hi Hj Hr Hr' Hday.
  destruct (Hrow i row Hi Hr) as (d & Hd & H10).
  destruct (Hrow j row' Hj Hr') as (d' & Hd' & H10').
  rewrite Hd, Hd' in Hday. injection Hday as <-. congruence.
Qed.

Lemma finalized_totals_by_day_witness :
  Collector.totalTx sample_contract = Ok 3%N
  /\ before_year_10000 sample_contract (Z.of_N 3)
  /\ Collector.fetchData sample_contract = Ok sample_rows
  /\ forall i row, (1 <= i)%nat -> sample_rows !! i = Some row ->
       exists day,
         row_day row = Some day
         /\ row !! 10%nat
            = Some (Collector.Text (bigint_toString (utc_day_volume day (tail sample_rows)))).
Proof.
  assert (before_year_10000 sample_contract (Z.of_N 3)) as Hyear.
  { intros i ts Hi. assert (i = 1 \/ i = 2 \/ i = 3) as [-> | [-> | ->]] by lia;
      simpl; intros [= <-]; reflexivity. }
  assert (Collector.fetchData sample_contract = Ok sample_rows) as H
    by (vm_compute; reflexivity).
  split; [reflexivity | split; [exact Hyear | split; [exact H |]]].
  apply (finalized_totals_by_day sample_contract sample_rows 3 eq_refl Hyear H).
Defined.
